(** * adk-go: the turn runner and the agent-as-tool adapter

    A shallow embedding of [runner/runner.go] (package [runner]), of the
    agent tool (package [agenttool]) and of code around them (the REST
    handler that runs a turn, the helpers of the tests, the fake session
    service), with the properties the specification states about them and
    further properties read off the code.

    Conventions.
    - Go packages become modules: [genai], [model], [session], [agent],
      [parentmap], [runner], [agenttool], [handlers], [testutil], [fakes].
    - An [error] is its message; [fmt.Errorf("ctx: %w", err)] is
      concatenation.
    - A [*genai.Content] is an address ([loc]) into a heap of [Content]
      objects, so that the in-place update of [msg.Parts[i]] is visible to
      every holder of the pointer (the caller and the committed event).
    - Interface values of type [agent.Agent] are non-nil; the one place the
      source tests for nil ([findAgent]) takes an [option].
    - The collaborators (session service, artifact service, the caller that
      pulls from the iterator, the agent's own [Run]) are parameters; every
      call to them is recorded in an effect trace. *)

From Stdlib Require Import String List Bool Arith Lia DecimalString.
From stdpp Require Import base option list gmap strings fin_maps.

Local Open Scope string_scope.

#[local] Set Warnings "-register-all".

Definition error := string.

(** Address of a [genai.Content] object. *)
Abbreviation loc := positive.

(** [strings.HasPrefix(s, pre)] *)
Definition HasPrefix (s pre : string) : bool := String.prefix pre s.

(** [fmt.Errorf(prefix + ": %w", err)] *)
Definition Errorf (ctx : string) (err : error) : error := ctx ++ err.

(** [%d] of a non-negative index. *)
Definition fmt_d (i : nat) : string := NilZero.string_of_uint (Nat.to_uint i).

(* ------------------------------------------------------------------ *)
(** ** Data model *)

Module genai.

Record Blob := mkBlob { MIMEType : string; Data : list Byte.byte }.

(** Only the fields the runner reads or writes. *)
Record Part := mkPart { Text : string; InlineData : option Blob }.

(** [Parts] is a slice of pointers; none of them is nil. *)
Record Content := mkContent { Parts : list Part; Role : string }.

Definition NewPartFromText (t : string) : Part :=
  {| Text := t; InlineData := None |}.

Definition RoleUser : string := "user".

Definition NewContentFromText (t role : string) : Content :=
  {| Parts := [NewPartFromText t]; Role := role |}.

(** A schema is only passed along, never inspected here. *)
Inductive Schema :=
  mkSchema (Type_ : string) (Properties : list (string * Schema))
           (Required : list string).

Record FunctionDeclaration := mkFunctionDeclaration {
  Name : string;
  Description : string;
  Parameters : option Schema
}.

(** [FunctionDeclarations] is a slice: nil ([None]) differs from empty. *)
Record Tool := mkTool {
  FunctionDeclarations : option (list FunctionDeclaration)
}.

(** [Tools] is a slice of pointers to tools, some of which may be nil. *)
Record GenerateContentConfig := mkGenerateContentConfig {
  Tools : list (option loc)
}.

End genai.

Module model.

(** [Content] is a pointer; [nil] is [None]. *)
Record LLMResponse := mkLLMResponse { Content : option loc; Partial : bool }.

(** A bound model, as far as the runner looks at it: [Name()]. *)
Record LLM := mkLLM { Name : string }.

End model.

Module session.

Record Event := mkEvent {
  ID : string;
  InvocationID : string;
  Author : string;
  LLMResponse : option model.LLMResponse
}.

Definition with_Author (a : string) (e : Event) : Event :=
  {| ID := ID e; InvocationID := InvocationID e; Author := a;
     LLMResponse := LLMResponse e |}.

Definition with_LLMResponse (r : option model.LLMResponse) (e : Event) : Event :=
  {| ID := ID e; InvocationID := InvocationID e; Author := Author e;
     LLMResponse := r |}.

(** Modelled from the spec: [session.NewEvent] (package session is not
    part of the sources at hand).  An event "owning invocation id", with a
    newly drawn identifier, no author and no response yet. *)
Definition NewEvent (id invocationID : string) : Event :=
  {| ID := id; InvocationID := invocationID; Author := ""; LLMResponse := None |}.

(** What [sessionService.Get] hands back: identity and the event log. *)
Record Session := mkSession {
  SessionID : string;
  AppName : string;
  UserID : string;
  Events : list Event
}.

End session.

Module agent.

(** The facet [llminternal.Reveal] exposes for an LLM agent. *)
Record LLMState := mkLLMState {
  Model : option model.LLM;
  DisallowTransferToParent : bool;
  DisallowTransferToPeers : bool;
  InputSchema : option genai.Schema;
  OutputSchema : option genai.Schema
}.

(** An agent node.  [llm = None] is an agent for which the type assertion
    [a.(llminternal.Agent)] fails. *)
Inductive Agent : Type :=
  mkAgent (Name : string) (llm : option LLMState) (SubAgents : list Agent).

Definition Name (a : Agent) : string :=
  match a with mkAgent n _ _ => n end.
Definition llm (a : Agent) : option LLMState :=
  match a with mkAgent _ l _ => l end.
Definition SubAgents (a : Agent) : list Agent :=
  match a with mkAgent _ _ s => s end.

(** Every node of the tree rooted at [a], root first. *)
Fixpoint agents_of (a : Agent) : list Agent :=
  match a with
  | mkAgent _ _ subs => a :: flat_map agents_of subs
  end.

Definition size (a : Agent) : nat := length (agents_of a).

(** [RunConfig] options the runner reads. *)
Record RunConfig := mkRunConfig {
  SupportCFC : bool;
  SaveInputBlobsAsArtifacts : bool
}.

End agent.

Module parentmap.

Import agent.

(** One entry [(child name, parent)] per edge of the tree. *)
Fixpoint entries (a : Agent) : list (string * Agent) :=
  match a with
  | mkAgent _ _ subs =>
      flat_map (fun c => (Name c, a) :: entries c) subs
  end.

(** Modelled from the spec: [parentmap.New] (internal/agent/parentmap is
    not part of the sources at hand).  "A derived, read-only mapping from
    agent name to parent agent, built once from a root Agent"; it fails
    when a name occurs twice in the tree. *)
Definition New (root : Agent) : option (gmap string Agent) :=
  if decide (NoDup (Name <$> agents_of root))
  then Some (list_to_map (entries root))
  else None.

End parentmap.

(* ------------------------------------------------------------------ *)
(** ** Package runner *)

Module runner.

Import agent.

(** One item of an agent's output sequence, an [(event, err)] pair.
    [ItemEvent e] is [(e, nil)]; [ItemError ev err] is [(ev, err)] with
    [err != nil] (the event slot may or may not be nil).  The pair
    [(nil, nil)] is not an item: the loop dereferences the event of a pair
    without error. *)
Inductive Item :=
| ItemEvent (event : session.Event)
| ItemError (event : option session.Event) (err : error).

(** What a turn does to the outside world, in order.  Calls carry the
    answer the collaborator gave. *)
Inductive Effect :=
| Get (appName userID sessionID : string) (res : error + session.Session)
| Save (fileName : string) (part : genai.Part) (res : option error)
| AppendEvent (event : session.Event) (res : option error)
| Pulled (item : Item)
| Yield (event : option session.Event) (err : option error).

(** The collaborators of one turn.  Each answer may depend on everything
    that happened before the call. *)
Record Env := mkEnv {
  (** [sessionService.Get] *)
  sessionService_Get : list Effect -> string -> string -> string ->
                       error + session.Session;
  (** [sessionService.AppendEvent] on the session [Get] returned *)
  sessionService_AppendEvent : list Effect -> session.Event -> option error;
  (** [ctx.Artifacts().Save] *)
  artifacts_Save : list Effect -> string -> genai.Part -> option error;
  (** the value [yield] returns: does the caller pull again? *)
  caller_continues : list Effect -> bool;
  (** the items [agentToRun.Run(ctx)] produces when driven to its end *)
  agent_Run : Agent -> list Effect -> list Item;
  (** [ctx.InvocationID()] of the turn's invocation context *)
  InvocationID : string;
  (** the identifier [session.NewEvent] draws *)
  NewEventID : string
}.

Record State := mkState {
  heap : gmap loc genai.Content;
  trace : list Effect
}.

Definition emit (ef : Effect) (st : State) : State :=
  {| heap := heap st; trace := trace st ++ [ef] |}.

(** *** Reading a trace *)

(** The events pulled from the agent without an error, in order. *)
Definition pulled_events (tr : list Effect) : list session.Event :=
  omap (fun ef => match ef with Pulled (ItemEvent e) => Some e | _ => None end) tr.

(** Every item pulled from the agent, in order. *)
Definition pulled_items (tr : list Effect) : list Item :=
  omap (fun ef => match ef with Pulled item => Some item | _ => None end) tr.

(** The events whose append was requested from the session service. *)
(** The events an agent's output carries without an error. *)
Definition item_events (items : list Item) : list session.Event :=
  omap (fun item => match item with
                    | ItemEvent e => Some e
                    | ItemError _ _ => None
                    end) items.

(** The pair an item of the agent's output stands for. *)
Definition item_pair (item : Item) : option session.Event * option error :=
  match item with
  | ItemEvent e => (Some e, None)
  | ItemError ev err => (ev, Some err)
  end.

Definition append_requests (tr : list Effect) : list session.Event :=
  omap (fun ef => match ef with AppendEvent e _ => Some e | _ => None end) tr.

(** The events the session service accepted: what the turn added to the
    session's event log. *)
Definition committed (tr : list Effect) : list session.Event :=
  omap (fun ef => match ef with AppendEvent e None => Some e | _ => None end) tr.

(** The events handed to the caller without an error. *)
Definition relayed_events (tr : list Effect) : list session.Event :=
  omap (fun ef => match ef with Yield (Some e) None => Some e | _ => None end) tr.

(** The pairs handed to the caller, in order. *)
Definition relayed (tr : list Effect)
    : list (option session.Event * option error) :=
  omap (fun ef => match ef with Yield ev err => Some (ev, err) | _ => None end) tr.

(** What happened between two states of one turn. *)
Definition effects_since (st st' : State) : list Effect :=
  drop (length (trace st)) (trace st').

Record Config := mkConfig {
  cfg_AppName : string;
  cfg_Agent : Agent;
  cfg_ArtifactService : bool;  (** [ArtifactService != nil] *)
  cfg_MemoryService : bool     (** [MemoryService != nil] *)
}.

Record Runner := mkRunner {
  appName : string;
  rootAgent : Agent;
  artifactService : bool;
  memoryService : bool;
  parents : gmap string Agent
}.

Definition New (cfg : Config) : error + Runner :=
  match parentmap.New (cfg_Agent cfg) with
  | None => inl (Errorf "failed to create agent tree: " "duplicate agent name")
  | Some parents =>
      inr {| appName := cfg_AppName cfg;
             rootAgent := cfg_Agent cfg;
             artifactService := cfg_ArtifactService cfg;
             memoryService := cfg_MemoryService cfg;
             parents := parents |}
  end.

(** The runner's parent map is the one [New] builds from the root, or the
    empty map of a [Runner] assembled without it (as the tests of
    [findAgentToRun] do). *)
Definition wired (r : Runner) : Prop :=
  parents r = ∅ \/ parentmap.New (rootAgent r) = Some (parents r).

(** [findAgent] below a non-nil [curAgent]. *)
Fixpoint findAgentFrom (curAgent : Agent) (targetName : string) : option Agent :=
  match curAgent with
  | mkAgent name _ subs =>
      if String.eqb name targetName then Some curAgent
      else
        (fix range (subAgents : list Agent) : option Agent :=
           match subAgents with
           | [] => None
           | subAgent :: rest =>
               match findAgentFrom subAgent targetName with
               | Some agent => Some agent
               | None => range rest
               end
           end) subs
  end.

Definition findAgent (curAgent : option Agent) (targetName : string) : option Agent :=
  match curAgent with
  | None => None
  | Some a => findAgentFrom a targetName
  end.

(** The loop of [isTransferableAcrossAgentTree], with [curAgent] as loop
    variable.  The body tests [agentToRun], as the source does.  [None]:
    the fuel ran out before [curAgent] became nil. *)
Fixpoint isTransferableLoop (fuel : nat) (parents : gmap string Agent)
    (agentToRun : Agent) (curAgent : option Agent) : option bool :=
  match curAgent with
  | None => Some true
  | Some cur =>
      match fuel with
      | O => None
      | S fuel' =>
          match llm agentToRun with
          | None => Some false
          | Some st =>
              if DisallowTransferToParent st then Some false
              else isTransferableLoop fuel' parents agentToRun
                     (parents !! Name cur)
          end
      end
  end.

Definition isTransferableAcrossAgentTree (fuel : nat) (r : Runner)
    (agentToRun : Agent) : option bool :=
  isTransferableLoop fuel (parents r) agentToRun (Some agentToRun).

(** What one pass through that loop body tests: the agent the walk started
    from is an LLM agent that does not disallow transfer to its parent. *)
Definition allowsTransfer (a : Agent) : bool :=
  match llm a with
  | Some st => negb (DisallowTransferToParent st)
  | None => false
  end.

(** An event the scan of [findAgentToRun] passes over: it is by "user", by
    a name no agent of the tree bears, or by an agent for which the
    transfer test fails. *)
Definition passed_over (r : Runner) (event : session.Event) : Prop :=
  session.Author event = "user" \/
  findAgent (Some (rootAgent r)) (session.Author event) = None \/
  exists b, findAgent (Some (rootAgent r)) (session.Author event) = Some b /\
            allowsTransfer b = false.

(** The scan of [findAgentToRun] over the events still to visit, most
    recent first. *)
Fixpoint findAgentToRunScan (fuel : nat) (r : Runner)
    (events : list session.Event) : option Agent :=
  match events with
  | [] => Some (rootAgent r)
  | event :: older =>
      if String.eqb (session.Author event) "user" then
        findAgentToRunScan fuel r older
      else
        match findAgent (Some (rootAgent r)) (session.Author event) with
        | None => findAgentToRunScan fuel r older
        | Some subAgent =>
            match isTransferableAcrossAgentTree fuel r subAgent with
            | None => None
            | Some true => Some subAgent
            | Some false => findAgentToRunScan fuel r older
            end
        end
  end.

(** [findAgentToRun]; its error result is always nil and is left out. *)
Definition findAgentToRun (fuel : nat) (r : Runner) (s : session.Session)
    : option Agent :=
  findAgentToRunScan fuel r (rev (session.Events s)).

Definition setupCFC (curAgent : Agent) : option error :=
  match llm curAgent with
  | None => Some ("agent " ++ Name curAgent ++ " is not an LLMAgent")
  | Some llmAgent =>
      match Model llmAgent with
      | None => Some "LLMAgent has no model"
      | Some m =>
          if negb (HasPrefix (model.Name m) "gemini-2")
          then Some ("CFC is not supported for model: " ++ model.Name m)
          else None
      end
  end.

Section Turn.

Variable env : Env.

(** *** Calls to the collaborators *)

Definition call_Get (appName userID sessionID : string) (st : State)
    : (error + session.Session) * State :=
  let res := sessionService_Get env (trace st) appName userID sessionID in
  (res, emit (Get appName userID sessionID res) st).

Definition call_AppendEvent (event : session.Event) (st : State)
    : option error * State :=
  let res := sessionService_AppendEvent env (trace st) event in
  (res, emit (AppendEvent event res) st).

Definition call_Save (fileName : string) (part : genai.Part) (st : State)
    : option error * State :=
  let res := artifacts_Save env (trace st) fileName part in
  (res, emit (Save fileName part res) st).

(** [yield(event, err)]: hand the pair to the caller; the result tells
    whether the caller asks for more. *)
Definition yield (event : option session.Event) (err : option error)
    (st : State) : bool * State :=
  let st' := emit (Yield event err) st in
  (caller_continues env (trace st'), st').

(** *** appendMessageToSession *)

Definition artifactFileName (i : nat) : string :=
  "artifact_" ++ InvocationID env ++ "_" ++ fmt_d i.

Definition placeholder (fileName : string) : genai.Part :=
  {| genai.Text := "Uploaded file: " ++ fileName ++
                   ". It has been saved to the artifacts";
     genai.InlineData := None |}.

(** [msg.Parts[i] = p] through the pointer [msg]. *)
Definition store_part (msg : loc) (i : nat) (p : genai.Part) (st : State) : State :=
  {| heap := alter (fun c => {| genai.Parts := <[i := p]> (genai.Parts c);
                               genai.Role := genai.Role c |}) msg (heap st);
     trace := trace st |}.

(** The [for i, part := range msg.Parts] loop, from index [i] on, over the
    parts not yet visited. *)
Fixpoint saveInputBlobs (msg : loc) (i : nat) (parts : list genai.Part)
    (st : State) : option error * State :=
  match parts with
  | [] => (None, st)
  | part :: rest =>
      match genai.InlineData part with
      | None => saveInputBlobs msg (S i) rest st
      | Some _ =>
          let fileName := artifactFileName i in
          let '(res, st) := call_Save fileName part st in
          match res with
          | Some err =>
              (Some (Errorf ("failed to save artifact " ++ fileName ++ ": ") err), st)
          | None =>
              saveInputBlobs msg (S i) rest (store_part msg i (placeholder fileName) st)
          end
      end
  end.

(** The parts of the content [msg] points to. *)
Definition parts_at (msg : loc) (st : State) : list genai.Part :=
  match heap st !! msg with
  | Some c => genai.Parts c
  | None => []
  end.

Definition userEvent (msg : loc) : session.Event :=
  session.with_LLMResponse
    (Some {| model.Content := Some msg; model.Partial := false |})
    (session.with_Author "user"
       (session.NewEvent (NewEventID env) (InvocationID env))).

Definition appendMessageToSession (r : Runner) (msg : option loc)
    (saveInputBlobsAsArtifacts : bool) (st : State) : option error * State :=
  match msg with
  | None => (None, st)
  | Some msg =>
      let '(res, st) :=
        if artifactService r && saveInputBlobsAsArtifacts
        then saveInputBlobs msg 0 (parts_at msg st) st
        else (None, st) in
      match res with
      | Some err => (Some err, st)
      | None =>
          let '(res, st) := call_AppendEvent (userEvent msg) st in
          match res with
          | Some err =>
              (Some (Errorf "failed to append event to sessionService: " err), st)
          | None => (None, st)
          end
      end
  end.

(** *** The drive loop *)

(** [event.LLMResponse != nil && event.LLMResponse.Partial] *)
Definition isPartial (event : session.Event) : bool :=
  match session.LLMResponse event with
  | Some resp => model.Partial resp
  | None => false
  end.

(** The commit policy in the words of the specification: the response is
    absent or its partial flag is false. *)
Definition responseAbsentOrFinal (event : session.Event) : bool :=
  match session.LLMResponse event with
  | None => true
  | Some resp => negb (model.Partial resp)
  end.

(** [for event, err := range agentToRun.Run(ctx)] over the items the agent
    has yet to produce. *)
Fixpoint drive (items : list Item) (st : State) : State :=
  match items with
  | [] => st
  | item :: rest =>
      let st := emit (Pulled item) st in
      match item with
      | ItemError event err =>
          let '(more, st) := yield event (Some err) st in
          if negb more then st else drive rest st
      | ItemEvent event =>
          if negb (isPartial event) then
            let '(res, st) := call_AppendEvent event st in
            match res with
            | Some err =>
                snd (yield None
                       (Some (Errorf "failed to add event to session: " err)) st)
            | None =>
                let '(more, st) := yield (Some event) None st in
                if negb more then st else drive rest st
            end
          else
            let '(more, st) := yield (Some event) None st in
            if negb more then st else drive rest st
      end
  end.

(** *** Reading the inbound-message step *)


(** What the save loop leaves in the slots [i], [i+1], ... of [msg.Parts]
    when it runs to its end over [parts]. *)
Fixpoint offloaded (i : nat) (parts : list genai.Part) : list genai.Part :=
  match parts with
  | [] => []
  | part :: rest =>
      match genai.InlineData part with
      | Some _ => placeholder (artifactFileName i)
      | None => part
      end :: offloaded (S i) rest
  end.

(** The saves it asks for on the way. *)
Fixpoint blobs (i : nat) (parts : list genai.Part) : list Effect :=
  match parts with
  | [] => []
  | part :: rest =>
      match genai.InlineData part with
      | Some _ => Save (artifactFileName i) part None :: blobs (S i) rest
      | None => blobs (S i) rest
      end
  end.

(** *** The drive loop, item by item

    A second description of [drive], used to state and prove its
    properties: the effects of handling one item, and their concatenation.
    [Drive.drive_eq] shows that it is the same loop. *)

(** [st] with further effects. *)
Definition ext (st : State) (seg : list Effect) : State :=
  {| heap := heap st; trace := trace st ++ seg |}.

(** The effects of handling one item after the history [hist], and whether
    the loop goes on to the next item. *)
Definition segment (hist : list Effect) (item : Item) : list Effect * bool :=
  match item with
  | ItemError event err =>
      let seg := [Pulled item; Yield event (Some err)] in
      (seg, caller_continues env (hist ++ seg))
  | ItemEvent event =>
      if isPartial event then
        let seg := [Pulled item; Yield (Some event) None] in
        (seg, caller_continues env (hist ++ seg))
      else
        match sessionService_AppendEvent env (hist ++ [Pulled item]) event with
        | Some err =>
            ([Pulled item; AppendEvent event (Some err);
              Yield None (Some (Errorf "failed to add event to session: " err))],
             false)
        | None =>
            let seg := [Pulled item; AppendEvent event None;
                        Yield (Some event) None] in
            (seg, caller_continues env (hist ++ seg))
        end
  end.

Fixpoint drive_effects (hist : list Effect) (items : list Item) : list Effect :=
  match items with
  | [] => []
  | item :: rest =>
      let '(seg, more) := segment hist item in
      if more then seg ++ drive_effects (hist ++ seg) rest else seg
  end.

(** *** Run *)

(** One turn.  [None] only when [fuel] did not suffice for the parent walk
    of [findAgentToRun]. *)
Definition Run (fuel : nat) (r : Runner) (userID sessionID : string)
    (msg : option loc) (cfg : RunConfig) (st : State) : option State :=
  let '(resp, st) := call_Get (appName r) userID sessionID st in
  match resp with
  | inl err => Some (snd (yield None (Some err) st))
  | inr session =>
      match findAgentToRun fuel r session with
      | None => None
      | Some agentToRun =>
          match
            (if SupportCFC cfg then
               match setupCFC agentToRun with
               | Some err => Some (Errorf "failed to setup CFC: " err)
               | None => None
               end
             else None)
          with
          | Some err => Some (snd (yield None (Some err) st))
          | None =>
              let '(res, st) :=
                appendMessageToSession r msg (SaveInputBlobsAsArtifacts cfg) st in
              match res with
              | Some err => Some (snd (yield None (Some err) st))
              | None => Some (drive (agent_Run env agentToRun (trace st)) st)
              end
          end
      end
  end.

End Turn.

End runner.

(* ------------------------------------------------------------------ *)
(** ** Package agenttool *)

Module agenttool.

Import agent.

(** A value of static type [any], as far as [Run] looks at it: a string, or
    something else of which only [fmt.Sprint] is used. *)
Inductive any :=
| AString (s : string)
| AOther (sprint : string).

Definition Sprint (v : any) : string :=
  match v with AString s => s | AOther s => s end.

(** The [args] of [Run], of static type [any]: a [map[string]any], or a
    value of another type, of which [%T] prints [typeName]. *)
Inductive Args :=
| MapArgs (margs : gmap string any)
| OtherArgs (typeName : string).

Record agentTool := mkAgentTool {
  agent : Agent;
  skipSummarization : bool
}.

(** [tool.Context], as far as [Run] uses it.  [Actions = None] is a nil
    [Actions()]; otherwise it holds the [SkipSummarization] flag. *)
Record Context := mkContext {
  State : gmap string any;
  UserID : string;
  Actions : option bool
}.

(** The in-memory services are process-wide objects; instance [h] is the
    [h]-th one constructed. *)
Inductive Effect :=
| NewSessionService (h : nat)
| NewArtifactService (h : nat)
| NewMemoryService (h : nat)
| Create (sessionService : nat) (appName userID : string)
         (state : gmap string any) (res : error + session.Session)
| RunnerRun (sessionService artifactService memoryService : nat)
            (turn : list runner.Effect).

Record World := mkWorld {
  instances : nat;      (** service instances constructed so far *)
  trace : list Effect
}.

(** Modelled from the spec: the constructors [session.InMemoryService],
    [artifact.InMemoryService] and [memory.InMemoryService] (their packages
    are not part of the sources at hand).  Each call constructs "a fresh,
    isolated" instance: one that did not exist before. *)
Definition InMemoryService (mk : nat -> Effect) (w : World) : nat * World :=
  (instances w,
   {| instances := S (instances w); trace := trace w ++ [mk (instances w)] |}).

Definition NL : string := String (Ascii.ascii_of_nat 10) EmptyString.

(** The loop that copies the caller's state: iteration over a Go map
    visits every key once, in no particular order. *)
Definition copyState (state : gmap string any) : gmap string any :=
  map_fold (fun k v stateMap =>
              if negb (HasPrefix k "_adk") then <[k := v]> stateMap
              else stateMap)
           ∅ state.

(** The loop over the nested turn's output: stop at the first error, keep
    the last event that has content. *)
Fixpoint drainEvents (tr : list runner.Effect) (lastEvent : option session.Event)
    : error + option session.Event :=
  match tr with
  | [] => inr lastEvent
  | runner.Yield _ (Some err) :: _ => inl err
  | runner.Yield (Some event) None :: rest =>
      match session.LLMResponse event with
      | Some resp =>
          match model.Content resp with
          | Some _ => drainEvents rest (Some event)
          | None => drainEvents rest lastEvent
          end
      | None => drainEvents rest lastEvent
      end
  | _ :: rest => drainEvents rest lastEvent
  end.

(** The caller of the nested turn is the loop above: it stops pulling at
    the first error. *)
Definition as_caller (sub : runner.Env) : runner.Env :=
  {| runner.sessionService_Get := runner.sessionService_Get sub;
     runner.sessionService_AppendEvent := runner.sessionService_AppendEvent sub;
     runner.artifacts_Save := runner.artifacts_Save sub;
     runner.caller_continues := fun tr =>
       match last tr with
       | Some (runner.Yield _ (Some _)) => false
       | _ => true
       end;
     runner.agent_Run := runner.agent_Run sub;
     runner.InvocationID := runner.InvocationID sub;
     runner.NewEventID := runner.NewEventID sub |}.

Section Run.

(** [utils.ValidateMapOnSchema], [json.Marshal], [utils.ValidateOutputSchema]
    are outside the sources at hand. *)
Variable ValidateMapOnSchema :
  gmap string any -> genai.Schema -> bool -> option error.
Variable json_Marshal : gmap string any -> error + string.
Variable ValidateOutputSchema :
  string -> genai.Schema -> error + gmap string any.

(** What [Create] of a new in-memory session service answers. *)
Variable InMemory_Create :
  string -> string -> gmap string any -> error + session.Session.

(** How the new in-memory services and the wrapped agent behave during the
    nested turn. *)
Variable sub : runner.Env.

(** The content objects the events of the wrapped agent point to. *)
Variable contents : gmap loc genai.Content.

(** Lines 121-154: the user content built from the arguments. *)
Definition inputContent (t : agentTool) (margs : gmap string any)
    : error + genai.Content :=
  let agentInputSchema :=
    match llm (agent t) with
    | Some st => InputSchema st
    | None => None
    end in
  match agentInputSchema with
  | Some schema =>
      match ValidateMapOnSchema margs schema true with
      | Some err =>
          inl (Errorf ("argument validation failed for agent "
                       ++ Name (agent t) ++ ": ") err)
      | None =>
          match json_Marshal margs with
          | inl err =>
              inl (Errorf ("error serializing tool arguments for agent "
                           ++ Name (agent t) ++ ": ") err)
          | inr jsonData =>
              inr (genai.NewContentFromText jsonData genai.RoleUser)
          end
      end
  | None =>
      match margs !! "request" with
      | None =>
          inl ("missing required argument 'request' for agent "
               ++ Name (agent t))
      | Some input =>
          inr (genai.NewContentFromText (Sprint input) genai.RoleUser)
      end
  end.

(** Lines 204-236: the tool result computed from the last event. *)
Definition output (t : agentTool) (heap : gmap loc genai.Content)
    (lastEvent : option session.Event) : error + gmap string any :=
  match lastEvent with
  | None => inr (∅ : gmap string any)
  | Some ev =>
      let parts :=
        match session.LLMResponse ev with
        | Some resp =>
            match model.Content resp with
            | Some lastContent =>
                match heap !! lastContent with
                | Some c => genai.Parts c
                | None => []
                end
            | None => []
            end
        | None => []
        end in
      let textParts :=
        List.filter (fun text => negb (String.eqb text ""))
                    (genai.Text <$> parts) in
      let outputText := String.concat NL textParts in
      if String.eqb outputText "" then inr (∅ : gmap string any)
      else
        match match llm (agent t) with
              | Some st => OutputSchema st
              | None => None
              end with
        | Some agentOutputSchema =>
            match ValidateOutputSchema outputText agentOutputSchema with
            | inl err =>
                inl (Errorf ("output validation failed for sub-agent "
                             ++ Name (agent t) ++ ": ") err)
            | inr parsedOutput => inr parsedOutput
            end
        | None => inr ({[ "result" := AString outputText ]} : gmap string any)
        end
  end.

(** [agentTool.Run].  The outer [option] is [None] only when [fuel] did
    not suffice for the nested turn's parent walk.  The result carries the
    caller's [Actions] as [Run] leaves them.  The user content is a new
    object, at an address no event of the agent points to. *)
Definition Run (fuel : nat) (t : agentTool) (toolCtx : Context)
    (args : Args) (w : World)
    : option ((error + gmap string any) * option bool * World) :=
  match args with
  | OtherArgs typeName =>
      Some (inl ("agentTool expects map[string]any arguments, got "
                 ++ typeName),
            Actions toolCtx, w)
  | MapArgs margs =>
      let actions :=
        if skipSummarization t
        then (fun _ => true) <$> Actions toolCtx
        else Actions toolCtx in
      match inputContent t margs with
      | inl err => Some (inl err, actions, w)
      | inr content =>
          let '(sessionService, w) := InMemoryService NewSessionService w in
          let '(artifactService, w) := InMemoryService NewArtifactService w in
          let '(memoryService, w) := InMemoryService NewMemoryService w in
          match runner.New {| runner.cfg_AppName := Name (agent t);
                              runner.cfg_Agent := agent t;
                              runner.cfg_ArtifactService := true;
                              runner.cfg_MemoryService := true |} with
          | inl _ => Some (inl "failed to create runner", actions, w)
          | inr r =>
              let stateMap := copyState (State toolCtx) in
              let res := InMemory_Create (Name (agent t)) (UserID toolCtx) stateMap in
              let w := {| instances := instances w;
                          trace := trace w ++
                            [Create sessionService (Name (agent t))
                               (UserID toolCtx) stateMap res] |} in
              match res with
              | inl err =>
                  Some (inl (Errorf ("failed to create session for sub-agent "
                                     ++ Name (agent t) ++ ": ") err),
                        actions, w)
              | inr subSession =>
                  let msg : loc := fresh (dom contents) in
                  match runner.Run (as_caller sub) fuel r
                          (session.UserID subSession)
                          (session.SessionID subSession) (Some msg)
                          {| SupportCFC := false;
                             SaveInputBlobsAsArtifacts := false |}
                          {| runner.heap := <[msg := content]> contents;
                             runner.trace := [] |} with
                  | None => None
                  | Some st =>
                      let w := {| instances := instances w;
                                  trace := trace w ++
                                    [RunnerRun sessionService artifactService
                                       memoryService (runner.trace st)] |} in
                      match drainEvents (runner.trace st) None with
                      | inl err =>
                          Some (inl (Errorf ("error during execution of sub-agent "
                                             ++ Name (agent t) ++ ": ") err),
                                actions, w)
                      | inr lastEvent =>
                          Some (output t (runner.heap st) lastEvent, actions, w)
                      end
                  end
              end
          end
      end
  end.

End Run.

(** The test of line 198: the event carries a response with content. *)
Definition hasContent (event : session.Event) : bool :=
  match session.LLMResponse event with
  | Some resp =>
      match model.Content resp with Some _ => true | None => false end
  | None => false
  end.

(** [agentTool.Name] (the field projection [Name] is the agent's). *)
Definition toolName (t : agentTool) : string := agent.Name (agent t).

(** An entry of [LLMRequest.Tools], a [map[string]any]: this package only
    stores agent tools in it and never looks at what it finds. *)
Inductive registered :=
| AgentTool (t : agentTool)
| OtherTool.

(** [model.LLMRequest], as far as [ProcessRequest] uses it.  [Tools] is a
    map and [Config] a pointer; either may be nil. *)
Record LLMRequest := mkLLMRequest {
  Tools : option (gmap string registered);
  Config : option genai.GenerateContentConfig
}.

(** The declarations of the tool object at [l]. *)
Definition decls_of (tools : gmap loc genai.Tool) (l : loc)
    : list genai.FunctionDeclaration :=
  match tools !! l with
  | Some tool => default [] (genai.FunctionDeclarations tool)
  | None => []
  end.

(** The entry [x] of [Config.Tools] is not nil and its tool object has
    non-nil [FunctionDeclarations]. *)
Definition declares (tools : gmap loc genai.Tool) (x : option loc) : Prop :=
  exists l fds,
    x = Some l /\
    tools !! l = Some {| genai.FunctionDeclarations := Some fds |}.

(** Lines 256-262: the first tool that is not nil and whose
    [FunctionDeclarations] is not nil. *)
Fixpoint funcTool (configTools : list (option loc)) (tools : gmap loc genai.Tool)
    : option loc :=
  match configTools with
  | [] => None
  | tool :: rest =>
      match tool with
      | Some l =>
          match tools !! l with
          | Some (genai.mkTool (Some _)) => Some l
          | _ => funcTool rest tools
          end
      | None => funcTool rest tools
      end
  end.

Section Request.

(** [agent.Agent.Description] and [strconv.Quote] (the verb [%q]) are
    outside the sources at hand. *)
Variable Description : Agent -> string.
Variable Quote : string -> string.

(** The schema of a tool whose agent declares no input schema. *)
Definition requestSchema : genai.Schema :=
  genai.mkSchema "OBJECT" [("request", genai.mkSchema "STRING" [] [])]
    ["request"].

(** [agentTool.Declaration]; [None] is the [return nil] of line 88. *)
Definition Declaration (t : agentTool) : option genai.FunctionDeclaration :=
  match match llm (agent t) with
        | Some _ =>
            match llm (agent t) with
            | Some st => inr (InputSchema st)
            | None => inl tt
            end
        | None => inr None
        end with
  | inl _ => None
  | inr agentInputSchema =>
      Some {| genai.Name := toolName t;
              genai.Description := Description (agent t);
              genai.Parameters :=
                Some match agentInputSchema with
                     | Some schema => schema
                     | None => requestSchema
                     end |}
  end.

(** [agentTool.ProcessRequest].  The request is changed in place, and so
    is the tool object the declaration is added to: [tools] is the store
    of the [genai.Tool] objects the entries of [Config.Tools] point to. *)
Definition ProcessRequest (t : agentTool) (req : LLMRequest)
    (tools : gmap loc genai.Tool)
    : option error * LLMRequest * gmap loc genai.Tool :=
  let reqTools := default ∅ (Tools req) in
  let name := toolName t in
  match reqTools !! name with
  | Some _ =>
      (Some ("duplicate tool: " ++ Quote name),
       {| Tools := Some reqTools; Config := Config req |}, tools)
  | None =>
      let reqTools := <[name := AgentTool t]> reqTools in
      let config := default {| genai.Tools := [] |} (Config req) in
      match Declaration t with
      | None =>
          (None, {| Tools := Some reqTools; Config := Some config |}, tools)
      | Some decl =>
          match funcTool (genai.Tools config) tools with
          | None =>
              let l := fresh (dom tools) in
              (None,
               {| Tools := Some reqTools;
                  Config := Some {| genai.Tools :=
                                      (genai.Tools config ++ [Some l])%list |} |},
               <[l := {| genai.FunctionDeclarations := Some [decl] |}]> tools)
          | Some l =>
              (None,
               {| Tools := Some reqTools; Config := Some config |},
               <[l := {| genai.FunctionDeclarations :=
                           Some (decls_of tools l ++ [decl])%list |}]> tools)
          end
      end
  end.

End Request.

End agenttool.

(* ------------------------------------------------------------------ *)
(** ** The REST handler that runs a turn (package [handlers]) *)

Module handlers.

Import agent.

(** [errors.NewStatusError(err, status)] *)
Record StatusError := mkStatusError {
  Err : error;
  Status : nat
}.

Definition StatusNotFound : nat := 404.
Definition StatusInternalServerError : nat := 500.

(** [models.RunAgentRequest] *)
Record RunAgentRequest := mkRunAgentRequest {
  AppName : string;
  UserId : string;
  SessionId : string;
  NewMessage : genai.Content;
  Streaming : bool
}.

(** The loop of [runAgent] over the turn's output (lines 75-82): the
    first error ends it, otherwise every event is kept. *)
Fixpoint collect (pairs : list (option session.Event * option error))
    (events : list (option session.Event))
    : error + list (option session.Event) :=
  match pairs with
  | [] => inr events
  | (_, Some err) :: _ => inl err
  | (event, None) :: rest => collect rest (events ++ [event])
  end.

(** That loop as the caller of the turn: it stops pulling at the first
    error. *)
Definition as_caller (env : runner.Env) : runner.Env :=
  {| runner.sessionService_Get := runner.sessionService_Get env;
     runner.sessionService_AppendEvent := runner.sessionService_AppendEvent env;
     runner.artifacts_Save := runner.artifacts_Save env;
     runner.caller_continues := fun tr =>
       match last tr with
       | Some (runner.Yield _ (Some _)) => false
       | _ => true
       end;
     runner.agent_Run := runner.agent_Run env;
     runner.InvocationID := runner.InvocationID env;
     runner.NewEventID := runner.NewEventID env |}.

Section Controller.

(** The controller's session service and artifact service (with the
    agents the loader hands out) behave as [env] says; [artifactService]
    tells whether an artifact service is bound at all. *)
Variable env : runner.Env.
Variable LoadAgent : string -> error + Agent.
Variable artifactService : bool.

Definition validateSessionExists (appName userID sessionID : string)
    (st : runner.State) : option StatusError * runner.State :=
  let '(resp, st) := runner.call_Get env appName userID sessionID st in
  match resp with
  | inl err =>
      (Some {| Err := Errorf "get session: " err; Status := StatusNotFound |}, st)
  | inr _ => (None, st)
  end.

(** The streaming mode is handed on to the agent and plays no part in
    the runner. *)
Definition getRunner (req : RunAgentRequest)
    : StatusError + (runner.Runner * RunConfig) :=
  match LoadAgent (AppName req) with
  | inl err =>
      inl {| Err := Errorf "load agent: " err;
             Status := StatusInternalServerError |}
  | inr curAgent =>
      match runner.New {| runner.cfg_AppName := AppName req;
                          runner.cfg_Agent := curAgent;
                          runner.cfg_ArtifactService := artifactService;
                          runner.cfg_MemoryService := false |} with
      | inl err =>
          inl {| Err := Errorf "create runner: " err;
                 Status := StatusInternalServerError |}
      | inr r =>
          inr (r, {| SupportCFC := false; SaveInputBlobsAsArtifacts := false |})
      end
  end.

(** [runAgent].  The message handed to the runner is the address of the
    request's own [NewMessage], an object nobody else points to; it is
    never nil. *)
Definition runAgent (fuel : nat) (req : RunAgentRequest) (st : runner.State)
    : option ((StatusError + list (option session.Event)) * runner.State) :=
  let '(err, st) :=
    validateSessionExists (AppName req) (UserId req) (SessionId req) st in
  match err with
  | Some err => Some (inl err, st)
  | None =>
      match getRunner req with
      | inl err => Some (inl err, st)
      | inr (r, rCfg) =>
          let msg : loc := fresh (dom (runner.heap st)) in
          let st := {| runner.heap := <[msg := NewMessage req]> (runner.heap st);
                       runner.trace := runner.trace st |} in
          match runner.Run (as_caller env) fuel r (UserId req) (SessionId req)
                  (Some msg) rCfg st with
          | None => None
          | Some st' =>
              match collect (runner.relayed (runner.effects_since st st')) [] with
              | inl err =>
                  Some (inl {| Err := Errorf "run agent: " err;
                               Status := StatusInternalServerError |}, st')
              | inr events => Some (inr events, st')
              end
          end
      end
  end.

End Controller.

End handlers.

(* ------------------------------------------------------------------ *)
(** ** Helpers of the tests that drive a runner (package [testutil]) *)

Module testutil.

(** The test that ends a collection: the event is nil, or has no
    response, or a response without content. *)
Definition empty (ev : option session.Event) : bool :=
  match ev with
  | None => true
  | Some e =>
      match session.LLMResponse e with
      | None => true
      | Some resp =>
          match model.Content resp with None => true | Some _ => false end
      end
  end.

(** [ev.LLMResponse.Content.Parts], read through the heap. *)
Definition parts_of (heap : gmap loc genai.Content) (e : session.Event)
    : list genai.Part :=
  match session.LLMResponse e with
  | Some resp =>
      match model.Content resp with
      | Some l =>
          match heap !! l with Some c => genai.Parts c | None => [] end
      | None => []
      end
  | None => []
  end.

(** [MockModel]; [Responses] is a slice of pointers, nil among them. *)
Record MockModel (LLMRequest : Type) := mkMockModel {
  Requests : list LLMRequest;
  Responses : list (option loc);
  StreamResponsesCount : nat
}.
Arguments mkMockModel {LLMRequest} _ _ _.
Arguments Requests {LLMRequest} _.
Arguments Responses {LLMRequest} _.
Arguments StreamResponsesCount {LLMRequest} _.

Definition errNoModelData : error := "no data".

(** [MockModel.Generate]: the model is a pointer, so the call returns it
    as it leaves it. *)
Definition Generate {LLMRequest : Type} (req : LLMRequest)
    (m : MockModel LLMRequest)
    : (error + model.LLMResponse) * MockModel LLMRequest :=
  let m := {| Requests := Requests m ++ [req];
              Responses := Responses m;
              StreamResponsesCount := StreamResponsesCount m |} in
  match Responses m with
  | [] => (inl errNoModelData, m)
  | content :: rest =>
      (inr {| model.Content := content; model.Partial := false |},
       {| Requests := Requests m;
          Responses := rest;
          StreamResponsesCount := StreamResponsesCount m |})
  end.

(** The model after the calls for [reqs], one after the other. *)
Definition after {LLMRequest : Type} (m : MockModel LLMRequest)
    (reqs : list LLMRequest) : MockModel LLMRequest :=
  foldl (fun m req => (Generate req m).2) m reqs.

(** The texts of [parts] that are not empty. *)
Definition nonEmptyTexts (parts : list genai.Part) : list string :=
  List.filter (fun text => negb (String.eqb text "")) (genai.Text <$> parts).

Section Collect.

(** [%v] of an event. *)
Variable Sprint : option session.Event -> string.

(** The content objects the events point to. *)
Variable heap : gmap loc genai.Content.

(** A stream is given by the pairs it produces when pulled to its end;
    the collectors stop pulling where they return. *)
Fixpoint CollectEvents (stream : list (option session.Event * option error))
    (events : list session.Event) : list session.Event * option error :=
  match stream with
  | [] => (events, None)
  | (_, Some err) :: _ => (events, Some err)
  | (ev, None) :: rest =>
      match ev with
      | Some e =>
          if empty ev
          then (events, Some ("unexpected empty event: " ++ Sprint ev))
          else CollectEvents rest (events ++ [e])
      | None => (events, Some ("unexpected empty event: " ++ Sprint ev))
      end
  end.

Fixpoint CollectParts (stream : list (option session.Event * option error))
    (parts : list genai.Part) : list genai.Part * option error :=
  match stream with
  | [] => (parts, None)
  | (_, Some err) :: _ => (parts, Some err)
  | (ev, None) :: rest =>
      match ev with
      | Some e =>
          if empty ev
          then (parts, Some ("unexpected empty event: " ++ Sprint ev))
          else CollectParts rest (parts ++ parts_of heap e)
      | None => (parts, Some ("unexpected empty event: " ++ Sprint ev))
      end
  end.

Fixpoint CollectTextParts (stream : list (option session.Event * option error))
    (texts : list string) : list string * option error :=
  match stream with
  | [] => (texts, None)
  | (_, Some err) :: _ => (texts, Some err)
  | (ev, None) :: rest =>
      match ev with
      | Some e =>
          if empty ev
          then (texts, Some ("unexpected empty event: " ++ Sprint ev))
          else CollectTextParts rest
                 (texts ++ List.filter (fun text => negb (String.eqb text ""))
                                       (genai.Text <$> parts_of heap e))
      | None => (texts, Some ("unexpected empty event: " ++ Sprint ev))
      end
  end.

End Collect.

End testutil.

(* ------------------------------------------------------------------ *)
(** ** The fake session service (package [fakes]) *)

Module fakes.

(** [time.Time]: only stored and handed back. *)
Definition Time := nat.

(** [*session.Event] with the field this package reads, [Timestamp]. *)
Record Event := mkEvent {
  event : session.Event;
  Timestamp : Time
}.

(** [TestState] is a Go map, a reference: nil, or the address of the map.
    The service only stores the reference. *)
Definition TestState := option loc.

Record SessionKey := mkSessionKey {
  AppName : string;
  UserID : string;
  SessionID : string
}.

#[global] Instance SessionKey_eq_dec : EqDecision SessionKey.
Proof. solve_decision. Defined.

#[global] Instance SessionKey_countable : Countable SessionKey.
Proof.
  apply (inj_countable' (fun k => (AppName k, UserID k, SessionID k))
                        (fun '(a, u, i) => mkSessionKey a u i)).
  by intros [].
Defined.

Record TestSession := mkTestSession {
  Id : SessionKey;
  SessionState : TestState;
  SessionEvents : list Event;
  UpdatedAt : Time
}.

(** [Sessions] is a Go map: [None] is the nil map of a service that was
    built without one.  Reading a nil map finds nothing; writing to it
    panics. *)
Record FakeSessionService := mkFakeSessionService {
  Sessions : option (gmap SessionKey TestSession)
}.

(** A call returns, or panics. *)
Inductive outcome (A : Type) :=
| Returned (a : A)
| Panicked.
Arguments Returned {A} a.
Arguments Panicked {A}.

Record CreateRequest := mkCreateRequest {
  req_AppName : string;
  req_UserID : string;
  req_SessionID : string;
  req_State : TestState
}.

(** What a lookup in the map finds. *)
Definition stored (s : FakeSessionService) (k : SessionKey)
    : option TestSession :=
  match Sessions s with
  | Some m => m !! k
  | None => None
  end.

(** [Create].  The request is a pointer: the caller sees the session id
    the service fills in.  [now] is what [time.Now()] answers.  The
    response points to a copy of the session stored. *)
Definition Create (now : Time) (req : CreateRequest) (s : FakeSessionService)
    : outcome ((error + TestSession) * CreateRequest * FakeSessionService) :=
  match stored s {| AppName := req_AppName req; UserID := req_UserID req;
                    SessionID := req_SessionID req |} with
  | Some _ => Returned (inl "session already exists", req, s)
  | None =>
      let req :=
        if String.eqb (req_SessionID req) ""
        then {| req_AppName := req_AppName req; req_UserID := req_UserID req;
                req_SessionID := "testID"; req_State := req_State req |}
        else req in
      let testSession :=
        {| Id := {| AppName := req_AppName req; UserID := req_UserID req;
                    SessionID := req_SessionID req |};
           SessionState := req_State req;
           SessionEvents := [];
           UpdatedAt := now |} in
      match Sessions s with
      | None => Panicked
      | Some m =>
          Returned (inr testSession, req,
                    {| Sessions :=
                         Some (<[ {| AppName := req_AppName req;
                                     UserID := req_UserID req;
                                     SessionID := req_SessionID req |}
                                  := testSession ]> m) |})
      end
  end.

(** [Get]: the response points to a copy of the session found. *)
Definition Get (k : SessionKey) (s : FakeSessionService)
    : error + TestSession :=
  match stored s k with
  | Some sess => inr sess
  | None => inl "not found"
  end.

(** [List]; its error is always nil.  Go visits the map in no particular
    order, the model in that of [map_to_list]. *)
Definition List_ (appName userID : string) (s : FakeSessionService)
    : list TestSession :=
  List.filter
    (fun sess => negb (negb (String.eqb (AppName (Id sess)) appName)
                       || negb (String.eqb (UserID (Id sess)) userID)))
    (snd <$> map_to_list (default ∅ (Sessions s))).

(** [Delete]. *)
Definition Delete (id : SessionKey) (s : FakeSessionService)
    : option error * FakeSessionService :=
  match stored s id with
  | None => (Some "not found", s)
  | Some _ => (None, {| Sessions := delete id <$> Sessions s |})
  end.

(** The dynamic type of a [session.Session]: a [*TestSession], of which
    the call reads and writes the object it points to, or something
    else. *)
Inductive Session :=
| TestSessionPtr (testSession : TestSession)
| OtherSession.

(** [AppendEvent].  Beside the error it returns the object the handle
    points to, as the call leaves it. *)
Definition AppendEvent (curSession : Session) (ev : Event)
    (s : FakeSessionService)
    : outcome (option error * Session * FakeSessionService) :=
  match curSession with
  | OtherSession => Returned (Some "invalid session type", curSession, s)
  | TestSessionPtr testSession =>
      let testSession :=
        {| Id := Id testSession;
           SessionState := SessionState testSession;
           SessionEvents := SessionEvents testSession ++ [ev];
           UpdatedAt := Timestamp ev |} in
      match Sessions s with
      | None => Panicked
      | Some m =>
          Returned (None, TestSessionPtr testSession,
                    {| Sessions := Some (<[Id testSession := testSession]> m) |})
      end
  end.

(** The key a request asks for. *)
Definition key_of (req : CreateRequest) : SessionKey :=
  {| AppName := req_AppName req; UserID := req_UserID req;
     SessionID := req_SessionID req |}.

(** Every session is stored under its own [Id]. *)
Definition keyed (s : FakeSessionService) : Prop :=
  forall k sess, stored s k = Some sess -> Id sess = k.

End fakes.

(* ------------------------------------------------------------------ *)
(** ** Agent trees and sessions used in examples *)

Module Fixtures.

Import agent.

Definition llmAgent (name : string) (disallowTransferToParent : bool)
    (subAgents : list Agent) : Agent :=
  mkAgent name
    (Some {| Model := None;
             DisallowTransferToParent := disallowTransferToParent;
             DisallowTransferToPeers := false;
             InputSchema := None; OutputSchema := None |})
    subAgents.

Definition eventBy (author : string) : session.Event :=
  {| session.ID := ""; session.InvocationID := ""; session.Author := author;
     session.LLMResponse := None |}.

Definition sessionOf (events : list session.Event) : session.Session :=
  {| session.SessionID := "sessionID"; session.AppName := "test";
     session.UserID := "userID"; session.Events := events |}.

(** The tree of [runner_test.go]. *)
Definition no_transfer_agent : Agent := llmAgent "no_transfer_agent" true [].
Definition allows_transfer_agent : Agent := llmAgent "allows_transfer_agent" false [].
Definition root : Agent := llmAgent "root" false [no_transfer_agent; allows_transfer_agent].

(** [&Runner{rootAgent: root}], as [TestRunner_findAgentToRun] builds it. *)
Definition bareRunner (rootAgent : Agent) : runner.Runner :=
  {| runner.appName := ""; runner.rootAgent := rootAgent;
     runner.artifactService := false; runner.memoryService := false;
     runner.parents := ∅ |}.

(** What [runner.New] returns for a tree with unique names. *)
Definition newRunner (rootAgent : Agent) : runner.Runner :=
  {| runner.appName := "test"; runner.rootAgent := rootAgent;
     runner.artifactService := false; runner.memoryService := false;
     runner.parents := list_to_map (parentmap.entries rootAgent) |}.

(** A chain of three LLM agents in which only the middle one disallows
    transfer to its parent. *)
Definition leaf : Agent := llmAgent "leaf" false [].
Definition middle : Agent := llmAgent "middle" true [leaf].
Definition top : Agent := llmAgent "top" false [middle].

(** Collaborators that never fail, and a caller that pulls to the end. *)
Definition quietEnv (items : list runner.Item) : runner.Env :=
  {| runner.sessionService_Get := fun _ _ _ _ => inr (sessionOf []);
     runner.sessionService_AppendEvent := fun _ _ => None;
     runner.artifacts_Save := fun _ _ _ => None;
     runner.caller_continues := fun _ => true;
     runner.agent_Run := fun _ _ => items;
     runner.InvocationID := "inv";
     runner.NewEventID := "ev" |}.

(** The same collaborators with a caller that stops after the first pair
    it is handed. *)
Definition impatientEnv (items : list runner.Item) : runner.Env :=
  {| runner.sessionService_Get := fun _ _ _ _ => inr (sessionOf []);
     runner.sessionService_AppendEvent := fun _ _ => None;
     runner.artifacts_Save := fun _ _ _ => None;
     runner.caller_continues := fun _ => false;
     runner.agent_Run := fun _ _ => items;
     runner.InvocationID := "inv";
     runner.NewEventID := "ev" |}.

Definition emptyState : runner.State :=
  {| runner.heap := ∅; runner.trace := [] |}.

(** The inbound message of [TestRunner_SaveInputBlobsAsArtifacts]: a text
    part and a part with inline data. *)
Definition blobPart : genai.Part :=
  {| genai.Text := "";
     genai.InlineData :=
       Some {| genai.MIMEType := "application/octet-stream";
               genai.Data := [Byte.x74; Byte.x68; Byte.x69; Byte.x73] |} |}.

Definition message : genai.Content :=
  {| genai.Parts := [genai.NewPartFromText "here is a file"; blobPart];
     genai.Role := genai.RoleUser |}.

(** Two blobs around a text part, and an artifact service that refuses
    the second of them. *)
Definition twoBlobs : genai.Content :=
  {| genai.Parts := [blobPart; genai.NewPartFromText "and another"; blobPart];
     genai.Role := genai.RoleUser |}.

Definition fullDiskEnv : runner.Env :=
  {| runner.sessionService_Get := fun _ _ _ _ => inr (sessionOf []);
     runner.sessionService_AppendEvent := fun _ _ => None;
     runner.artifacts_Save := fun _ fileName _ =>
       if String.eqb fileName "artifact_inv_2" then Some "disk full" else None;
     runner.caller_continues := fun _ => true;
     runner.agent_Run := fun _ _ => [];
     runner.InvocationID := "inv";
     runner.NewEventID := "ev" |}.


(** The caller holds one content object, at address 1. *)
Definition stateWith (c : genai.Content) : runner.State :=
  {| runner.heap := {[ 1%positive := c ]}; runner.trace := [] |}.

(** [newRunner] with an artifact service bound. *)
Definition artifactRunner (rootAgent : Agent) : runner.Runner :=
  {| runner.appName := "testApp"; runner.rootAgent := rootAgent;
     runner.artifactService := true; runner.memoryService := false;
     runner.parents := list_to_map (parentmap.entries rootAgent) |}.

Definition plainConfig : RunConfig :=
  {| SupportCFC := false; SaveInputBlobsAsArtifacts := false |}.

Definition saveBlobsConfig : RunConfig :=
  {| SupportCFC := false; SaveInputBlobsAsArtifacts := true |}.

Definition cfcConfig : RunConfig :=
  {| SupportCFC := true; SaveInputBlobsAsArtifacts := false |}.

(** A caller state with one internally-reserved key. *)
Definition callerState : gmap string agenttool.any :=
  {[ "_adk_session_meta" := agenttool.AString "internal";
     "city" := agenttool.AString "Paris";
     "adk_like" := agenttool.AOther "42" ]}.

Definition toolContext : agenttool.Context :=
  {| agenttool.State := callerState; agenttool.UserID := "userID";
     agenttool.Actions := Some false |}.

Definition requestArgs : gmap string agenttool.any :=
  {[ "request" := agenttool.AString "what is the weather" ]}.

Definition freshWorld : agenttool.World :=
  {| agenttool.instances := 0; agenttool.trace := [] |}.

(** A final response event and a streaming fragment. *)
Definition finalEvent : session.Event :=
  {| session.ID := "1"; session.InvocationID := "inv"; session.Author := "root";
     session.LLMResponse :=
       Some {| model.Content := None; model.Partial := false |} |}.

Definition partialEvent : session.Event :=
  {| session.ID := "2"; session.InvocationID := "inv"; session.Author := "root";
     session.LLMResponse :=
       Some {| model.Content := None; model.Partial := true |} |}.

(** What the wrapped agent answers: an event whose response points to a
    content object of the agent's own. *)
Definition answer : genai.Content :=
  {| genai.Parts := [genai.NewPartFromText "sunny";
                     genai.NewPartFromText "";
                     genai.NewPartFromText "20 degrees"];
     genai.Role := "model" |}.

Definition agentContents : gmap loc genai.Content := {[ 5%positive := answer ]}.

Definition answerEvent : session.Event :=
  {| session.ID := "3"; session.InvocationID := "inv"; session.Author := "root";
     session.LLMResponse :=
       Some {| model.Content := Some 5%positive; model.Partial := false |} |}.

(** A request for a session of the test application, and a session with
    one event as the fake service stores it. *)
Definition createRequest (sessionID : string) : fakes.CreateRequest :=
  {| fakes.req_AppName := "testApp"; fakes.req_UserID := "testUser";
     fakes.req_SessionID := sessionID; fakes.req_State := None |}.

Definition timed (e : session.Event) (t : fakes.Time) : fakes.Event :=
  {| fakes.event := e; fakes.Timestamp := t |}.

Definition testSession : fakes.TestSession :=
  {| fakes.Id := {| fakes.AppName := "testApp"; fakes.UserID := "testUser";
                    fakes.SessionID := "testID" |};
     fakes.SessionState := None;
     fakes.SessionEvents := [timed finalEvent 5];
     fakes.UpdatedAt := 5 |}.

Definition oneSession : gmap fakes.SessionKey fakes.TestSession :=
  {[ fakes.Id testSession := testSession ]}.

(** The body of a request to run a turn. *)
Definition runRequest : handlers.RunAgentRequest :=
  {| handlers.AppName := "testApp"; handlers.UserId := "testUser";
     handlers.SessionId := "testID"; handlers.NewMessage := message;
     handlers.Streaming := false |}.

End Fixtures.

(* ================================================================== *)
(** * Properties *)

(** ** The agent tree and its parent map *)

Module AgentTree.

Import agent.

Lemma Agent_ind' (P : Agent -> Prop) :
  (forall n l subs, Forall P subs -> P (mkAgent n l subs)) ->
  forall a, P a.
Proof.
  intros step. fix IH 1. intros [n l subs]. apply step.
  induction subs as [|c subs IHsubs]; constructor.
  - apply IH.
  - exact IHsubs.
Qed.

Lemma elem_of_flat_map {A B} (f : A -> list B) (l : list A) (y : B) :
  y ∈ flat_map f l <-> exists x, x ∈ l /\ y ∈ f x.
Proof.
  rewrite list_elem_of_In, in_flat_map.
  split; intros (x & Hx & Hy); exists x; split; by apply list_elem_of_In.
Qed.

Lemma agents_of_unfold a :
  agents_of a = a :: flat_map agents_of (SubAgents a).
Proof. by destruct a. Qed.

Lemma entries_unfold a :
  parentmap.entries a =
  flat_map (fun c => (Name c, a) :: parentmap.entries c) (SubAgents a).
Proof. by destruct a. Qed.

Lemma root_in_tree a : a ∈ agents_of a.
Proof. rewrite agents_of_unfold. left. Qed.

(** A node other than the root has its parent in the tree. *)
Lemma has_parent root a :
  a ∈ agents_of root -> a = root \/
  exists p, p ∈ agents_of root /\ a ∈ SubAgents p.
Proof.
  induction root as [n l subs IH] using Agent_ind'.
  rewrite agents_of_unfold. simpl SubAgents.
  intros Ha. apply elem_of_cons in Ha as [->|Ha]; [by left|]. right.
  apply elem_of_flat_map in Ha as (x & Hx & Ha).
  rewrite Forall_forall in IH. destruct (IH x Hx Ha) as [->|(p & Hp & Hap)].
  - exists (mkAgent n l subs). split; [left | done].
  - exists p. split; [|done]. right. apply elem_of_flat_map. eauto.
Qed.

(** A child's tree is strictly smaller than its parent's. *)
Lemma size_child p c : c ∈ SubAgents p -> size c < size p.
Proof.
  unfold size. rewrite (agents_of_unfold p). simpl length.
  generalize (SubAgents p). intros subs Hc.
  induction subs as [|x subs IH]; [by apply elem_of_nil in Hc|].
  simpl. rewrite length_app.
  apply elem_of_cons in Hc as [->|Hc]; [lia|]. specialize (IH Hc). lia.
Qed.

Lemma size_in_tree root a : a ∈ agents_of root -> size a <= size root.
Proof.
  intros Ha. destruct (has_parent root a Ha) as [->|(p & Hp & Hc)]; [done|].
  revert a Ha p Hp Hc.
  induction root as [n l subs IH] using Agent_ind'. intros a Ha p Hp Hc.
  rewrite agents_of_unfold in Ha. simpl SubAgents in Ha.
  apply elem_of_cons in Ha as [->|Ha]; [done|].
  apply elem_of_flat_map in Ha as (x & Hx & Ha).
  assert (size a <= size x) as Hax.
  { rewrite Forall_forall in IH.
    destruct (has_parent x a Ha) as [->|(q & Hq & Hcq)]; [done|].
    by apply (IH x Hx a Ha q). }
  pose proof (size_child (mkAgent n l subs) x Hx). lia.
Qed.

(** *** findAgent *)

Lemma findAgentFrom_Some a n b :
  runner.findAgentFrom a n = Some b -> b ∈ agents_of a /\ Name b = n.
Proof.
  induction a as [name l subs IH] using Agent_ind'. simpl.
  destruct (String.eqb_spec name n) as [->|Hne].
  { intros [= <-]. split; [left | done]. }
  intros Hfind.
  cut (exists c, c ∈ subs /\ b ∈ agents_of c /\ Name b = n).
  { intros (c & Hc & Hb & Hn). split; [|done]. right.
    apply elem_of_flat_map. eauto. }
  induction subs as [|c subs IHsubs]; [done|].
  apply Forall_cons in IH as [Hc Hsubs].
  destruct (runner.findAgentFrom c n) as [b'|] eqn:Ec.
  - injection Hfind as ->. destruct (Hc eq_refl) as [Hb Hn].
    exists c. split; [left | done].
  - destruct (IHsubs Hsubs Hfind) as (c' & Hc' & Hb).
    exists c'. split; [by right | done].
Qed.

Lemma findAgentFrom_None a n :
  n ∉ Name <$> agents_of a -> runner.findAgentFrom a n = None.
Proof.
  induction a as [name l subs IH] using Agent_ind'.
  rewrite agents_of_unfold, fmap_cons. simpl.
  intros Hn. apply not_elem_of_cons in Hn as [Hne Hn].
  destruct (String.eqb_spec name n) as [->|_]; [done|].
  induction subs as [|c subs IHsubs]; [done|].
  apply Forall_cons in IH as [Hc Hsubs].
  simpl in Hn. rewrite fmap_app in Hn. apply not_elem_of_app in Hn as [Hn1 Hn2].
  rewrite (Hc Hn1). by apply IHsubs.
Qed.

(** *** The parent map *)

Lemma entries_keys a :
  (parentmap.entries a).*1 = Name <$> flat_map agents_of (SubAgents a).
Proof.
  induction a as [name l subs IH] using Agent_ind'.
  rewrite entries_unfold. simpl SubAgents.
  generalize (mkAgent name l subs) as p. intros p.
  induction subs as [|c subs IHsubs]; [done|].
  apply Forall_cons in IH as [Hc Hsubs].
  change (flat_map ?f (c :: subs)) with (f c ++ flat_map f subs)%list.
  rewrite !fmap_app, fmap_cons, (IHsubs Hsubs), Hc.
  by rewrite (agents_of_unfold c).
Qed.

Lemma entries_elem root p c :
  p ∈ agents_of root -> c ∈ SubAgents p -> (Name c, p) ∈ parentmap.entries root.
Proof.
  induction root as [name l subs IH] using Agent_ind'.
  rewrite agents_of_unfold, entries_unfold. simpl SubAgents.
  intros Hp Hc. apply elem_of_cons in Hp as [->|Hp].
  - apply elem_of_flat_map. exists c. split; [done | left].
  - apply elem_of_flat_map in Hp as (x & Hx & Hp).
    apply elem_of_flat_map. exists x. split; [done|]. right.
    rewrite Forall_forall in IH. by apply IH.
Qed.

Lemma New_Some root m :
  parentmap.New root = Some m ->
  NoDup (Name <$> agents_of root) /\ m = list_to_map (parentmap.entries root).
Proof.
  unfold parentmap.New. destruct (decide _); [|done]. by intros [= <-].
Qed.

Lemma lookup_root root m :
  parentmap.New root = Some m -> m !! Name root = None.
Proof.
  intros [Hnd ->]%New_Some. apply not_elem_of_list_to_map_1.
  rewrite entries_keys. rewrite agents_of_unfold, fmap_cons in Hnd.
  by apply NoDup_cons in Hnd as [? _].
Qed.

Lemma lookup_child root m p c :
  parentmap.New root = Some m ->
  p ∈ agents_of root -> c ∈ SubAgents p -> m !! Name c = Some p.
Proof.
  intros [Hnd ->]%New_Some Hp Hc. apply elem_of_list_to_map_1.
  - rewrite entries_keys. rewrite agents_of_unfold, fmap_cons in Hnd.
    by apply NoDup_cons in Hnd as [_ ?].
  - by apply entries_elem.
Qed.

(** *** The parent walk ends *)

Lemma isTransferableLoop_total root m a x fuel :
  parentmap.New root = Some m ->
  x ∈ agents_of root ->
  size root - size x < fuel ->
  runner.isTransferableLoop fuel m a (Some x) = Some (runner.allowsTransfer a).
Proof.
  intros Hm. revert x. unfold runner.allowsTransfer.
  induction fuel as [|fuel IH]; intros x Hx Hfuel; [lia|]. simpl.
  destruct (llm a) as [st|]; [|done].
  destruct (DisallowTransferToParent st); [done|]. simpl.
  destruct (has_parent root x Hx) as [->|(p & Hp & Hc)].
  - rewrite (lookup_root _ _ Hm). by destruct fuel.
  - rewrite (lookup_child _ _ _ _ Hm Hp Hc).
    pose proof (size_child _ _ Hc). pose proof (size_in_tree _ _ Hp).
    apply (IH p Hp). lia.
Qed.

End AgentTree.

(** ** Resolving the agent of a turn *)

Module Resolve.

Import agent AgentTree.

Lemma isTransferable_total (r : runner.Runner) (a : Agent) (fuel : nat) :
  runner.wired r -> a ∈ agents_of (runner.rootAgent r) ->
  size (runner.rootAgent r) <= fuel ->
  runner.isTransferableAcrossAgentTree fuel r a = Some (runner.allowsTransfer a).
Proof.
  intros [Hempty|Hnew] Ha Hfuel; unfold runner.isTransferableAcrossAgentTree.
  - assert (0 < size (runner.rootAgent r)) as Hpos.
    { unfold size. rewrite agents_of_unfold. simpl. lia. }
    destruct fuel as [|fuel]; [lia|]. unfold runner.allowsTransfer. simpl.
    destruct (llm a) as [st|]; [|done].
    destruct (DisallowTransferToParent st); [done|].
    rewrite Hempty, lookup_empty. by destruct fuel.
  - apply (isTransferableLoop_total _ _ _ _ _ Hnew Ha).
    pose proof (size_in_tree _ _ Ha).
    assert (0 < size a); [|lia].
    unfold size. rewrite agents_of_unfold. simpl. lia.
Qed.

Lemma scan_total (r : runner.Runner) (fuel : nat) (events : list session.Event) :
  runner.wired r -> size (runner.rootAgent r) <= fuel ->
  exists a,
    runner.findAgentToRunScan fuel r events = Some a /\
    a ∈ agents_of (runner.rootAgent r) /\
    ((forall e, e ∈ events ->
        session.Author e = "user" \/
        session.Author e ∉ Name <$> agents_of (runner.rootAgent r)) ->
     a = runner.rootAgent r).
Proof.
  intros Hw Hfuel.
  induction events as [|e older (a & Hscan & Hin & Hroot)]; simpl.
  { exists (runner.rootAgent r). split; [done|]. split; [apply root_in_tree | done]. }
  assert ((forall e0, e0 ∈ e :: older ->
             session.Author e0 = "user" \/
             session.Author e0 ∉ Name <$> agents_of (runner.rootAgent r)) ->
          a = runner.rootAgent r) as Hroot'.
  { intros H. apply Hroot. intros e0 He0. apply H. by right. }
  destruct (String.eqb_spec (session.Author e) "user") as [Hu|Hu]; [by eauto|].
  destruct (runner.findAgentFrom (runner.rootAgent r) (session.Author e))
    as [subAgent|] eqn:Hfind; [|by eauto].
  apply findAgentFrom_Some in Hfind as [Hsub Hname].
  rewrite (isTransferable_total r subAgent fuel Hw Hsub Hfuel).
  destruct (runner.allowsTransfer subAgent); [|by eauto].
  exists subAgent. split; [done|]. split; [done|].
  intros H. destruct (H e) as [?|Hunknown]; [left | done |].
  exfalso. apply Hunknown. rewrite <- Hname.
  apply list_elem_of_fmap. by exists subAgent.
Qed.

(** [findAgentToRun] returns, and what it returns is a node of the tree. *)
Lemma findAgentToRun_total
    (r : runner.Runner) (s : session.Session) (fuel : nat) :
  runner.wired r -> size (runner.rootAgent r) <= fuel ->
  exists a, runner.findAgentToRun fuel r s = Some a /\
            a ∈ agents_of (runner.rootAgent r).
Proof.
  intros Hw Hfuel.
  destruct (scan_total r fuel (rev (session.Events s)) Hw Hfuel)
    as (a & Hscan & Hin & _).
  by exists a.
Qed.

(** C5: for every session and every agent tree (of a runner wired by
    [New], or with no parent map at all), [findAgentToRun] returns an agent
    of the tree rooted at the runner's root agent, and it returns the root
    itself whenever every event of the session is authored by "user" or by
    a name no agent of the tree bears. *)
Theorem C5_findAgentToRun_in_tree
    (r : runner.Runner) (s : session.Session) (fuel : nat) :
  runner.wired r -> size (runner.rootAgent r) <= fuel ->
  exists a,
    runner.findAgentToRun fuel r s = Some a /\
    a ∈ agents_of (runner.rootAgent r) /\
    ((forall e, e ∈ session.Events s ->
        session.Author e = "user" \/
        session.Author e ∉ Name <$> agents_of (runner.rootAgent r)) ->
     a = runner.rootAgent r).
Proof.
  intros Hw Hfuel. unfold runner.findAgentToRun.
  destruct (scan_total r fuel (rev (session.Events s)) Hw Hfuel)
    as (a & Hscan & Hin & Hroot).
  exists a. split; [done|]. split; [done|].
  intros H. apply Hroot. intros e He. apply H.
  apply list_elem_of_In, in_rev. by apply list_elem_of_In.
Qed.

End Resolve.

Module ResolveExamples.

Import agent Fixtures.

(** The three cases of [TestRunner_findAgentToRun]. *)
Example last_event_from_agent_allowing_transfer :
  runner.findAgentToRun 1 (bareRunner root)
    (sessionOf [eventBy "allows_transfer_agent"; eventBy "user"])
  = Some allows_transfer_agent.
Proof. reflexivity. Qed.

Example last_event_from_agent_not_allowing_transfer :
  runner.findAgentToRun 1 (bareRunner root)
    (sessionOf [eventBy "no_transfer_agent"; eventBy "user"])
  = Some root.
Proof. reflexivity. Qed.

Example no_events_from_agents_call_root :
  runner.findAgentToRun 1 (bareRunner root) (sessionOf [eventBy "user"])
  = Some root.
Proof. reflexivity. Qed.

Lemma C5_findAgentToRun_in_tree_witness :
  exists a,
    runner.findAgentToRun 3 (newRunner root)
      (sessionOf [eventBy "stranger"; eventBy "user"]) = Some a /\
    a ∈ agents_of root /\
    ((forall e, e ∈ [eventBy "stranger"; eventBy "user"] ->
        session.Author e = "user" \/
        session.Author e ∉ Name <$> agents_of root) ->
     a = root).
Proof.
  apply (Resolve.C5_findAgentToRun_in_tree (newRunner root)
           (sessionOf [eventBy "stranger"; eventBy "user"]) 3).
  - right. vm_compute. reflexivity.
  - vm_compute. lia.
Defined.

(** [newRunner] is what [New] returns; a tree with a repeated name is
    refused. *)
Example New_top :
  runner.New {| runner.cfg_AppName := "test"; runner.cfg_Agent := top;
                runner.cfg_ArtifactService := false;
                runner.cfg_MemoryService := false |}
  = inr (newRunner top).
Proof. vm_compute. reflexivity. Qed.

Example New_duplicate_name :
  runner.New {| runner.cfg_AppName := "test";
                runner.cfg_Agent := llmAgent "root" false [leaf; leaf];
                runner.cfg_ArtifactService := false;
                runner.cfg_MemoryService := false |}
  = inl "failed to create agent tree: duplicate agent name".
Proof. vm_compute. reflexivity. Qed.

(** C2 (the code departs from the claim): in the chain top > middle > leaf
    the middle agent disallows transfer to its parent, and it is the
    parent of [leaf] in the map [New] builds; yet a session whose last
    agent event is by [leaf] resolves to [leaf]. *)
Theorem C2_ancestor_flag_not_consulted :
  runner.parents (newRunner top) !! "leaf" = Some middle /\
  runner.allowsTransfer middle = false /\
  runner.findAgentToRun 3 (newRunner top)
    (sessionOf [eventBy "leaf"; eventBy "user"]) = Some leaf.
Proof. vm_compute. repeat split; reflexivity. Qed.

End ResolveExamples.

(** ** The drive loop *)

Module Drive.

Import agent runner.

Section WithEnv.

Variable env : Env.

Lemma ext_ext st s1 s2 : ext (ext st s1) s2 = ext st (s1 ++ s2).
Proof. unfold ext. simpl. by rewrite <- app_assoc. Qed.

Lemma ext_nil st : ext st [] = st.
Proof. destruct st. unfold ext. simpl. by rewrite app_nil_r. Qed.

Lemma effects_since_ext st seg : effects_since st (ext st seg) = seg.
Proof. unfold effects_since, ext. simpl. apply drop_app_length. Qed.

Lemma drive_cons item rest st :
  drive env (item :: rest) st =
  let '(seg, more) := segment env (trace st) item in
  if more then drive env rest (ext st seg) else ext st seg.
Proof.
  destruct item as [event|event err]; simpl;
    unfold yield, call_AppendEvent, emit, ext; simpl;
    rewrite <- ?app_assoc; simpl.
  - destruct (isPartial event) eqn:Hp; simpl.
    + by destruct (caller_continues env _).
    + destruct (sessionService_AppendEvent env _ event); simpl;
        rewrite <- ?app_assoc; simpl; [done|].
      by destruct (caller_continues env _).
  - by destruct (caller_continues env _).
Qed.

(** [drive] adds exactly the effects [drive_effects] lists, and leaves the
    heap alone. *)
Lemma drive_eq items st :
  drive env items st = ext st (drive_effects env (trace st) items).
Proof.
  revert st. induction items as [|item rest IH]; intros st.
  { by rewrite ext_nil. }
  rewrite drive_cons. simpl drive_effects.
  destruct (segment env (trace st) item) as [seg more].
  destruct more; [|done]. by rewrite IH, ext_ext.
Qed.

Lemma drive_effects_since items st :
  effects_since st (drive env items st) = drive_effects env (trace st) items.
Proof. by rewrite drive_eq, effects_since_ext. Qed.

Lemma pulled_items_app a b :
  pulled_items (a ++ b) = (pulled_items a ++ pulled_items b)%list.
Proof. apply omap_app. Qed.

(** Every segment starts with the pull of its item and pulls nothing
    else. *)
Lemma segment_shape hist item :
  exists tail, (segment env hist item).1 = Pulled item :: tail /\
               pulled_items tail = [].
Proof.
  destruct item as [event|event err]; simpl; [|by eauto].
  destruct (isPartial event); [by eauto|].
  destruct (sessionService_AppendEvent env _ event); by eauto.
Qed.

Lemma split_after_tail (tail cont pre post : list Effect) item :
  pulled_items tail = [] ->
  (tail ++ cont = pre ++ Pulled item :: post)%list ->
  exists pre', pre = (tail ++ pre')%list /\ cont = (pre' ++ Pulled item :: post)%list.
Proof.
  revert pre. induction tail as [|t tail IH]; intros pre Hnone Heq.
  { by exists pre. }
  assert (pulled_items tail = [] /\ forall i, t <> Pulled i) as [Htail Ht].
  { destruct t; try done. }
  destruct pre as [|p pre]; simpl in Heq.
  { injection Heq as -> _. by destruct (Ht item). }
  injection Heq as -> Heq.
  destruct (IH pre Htail Heq) as (pre' & -> & ->). by exists pre'.
Qed.

(** Wherever an item is pulled, the rest of the trace is the segment of
    that item followed, if the loop goes on, by the drive of the items
    after it. *)
Lemma drive_effects_at hist items pre item post :
  drive_effects env hist items = (pre ++ Pulled item :: post)%list ->
  exists rest,
    items = (pulled_items pre ++ item :: rest)%list /\
    Pulled item :: post =
      let '(seg, more) := segment env (hist ++ pre) item in
      if more then (seg ++ drive_effects env (hist ++ pre ++ seg) rest)%list
      else seg.
Proof.
  revert hist pre. induction items as [|item0 rest0 IH]; intros hist pre Heq.
  { by destruct pre. }
  simpl in Heq.
  destruct (segment_shape hist item0) as (tail & Hseg & Htail).
  destruct (segment env hist item0) as [seg more] eqn:Hsegment.
  simpl in Hseg. subst seg.
  destruct pre as [|p pre].
  - assert (item0 = item) as -> by (destruct more; simpl in Heq; congruence).
    exists rest0. split; [done|]. rewrite app_nil_r, Hsegment.
    simpl in Heq. simpl. by destruct more.
  - assert (p = Pulled item0) as -> by (destruct more; simpl in Heq; congruence).
    assert ((tail ++ (if more then drive_effects env (hist ++ Pulled item0 :: tail) rest0
                      else []) = pre ++ Pulled item :: post)%list) as Heq'.
    { destruct more; simpl in Heq; [congruence|].
      rewrite app_nil_r. congruence. }
    destruct (split_after_tail _ _ _ _ _ Htail Heq') as (pre' & -> & Hcont).
    destruct more; [|by destruct pre'].
    destruct (IH _ _ Hcont) as (rest & -> & Hrest).
    exists rest. split.
    + change (pulled_items (Pulled item0 :: tail ++ pre'))
        with (item0 :: pulled_items (tail ++ pre')).
      by rewrite pulled_items_app, Htail.
    + assert (((hist ++ Pulled item0 :: tail) ++ pre')
              = (hist ++ Pulled item0 :: tail ++ pre'))%list as Hassoc
        by (by rewrite <- app_assoc).
      rewrite Hassoc in Hrest.
      destruct (segment env _ item) as [seg' more'].
      destruct more'; [|done]. rewrite Hrest. do 2 f_equal.
      rewrite <- !app_assoc. simpl. by rewrite <- !app_assoc.
Qed.

Lemma responseAbsentOrFinal_isPartial event :
  responseAbsentOrFinal event = negb (isPartial event).
Proof. unfold responseAbsentOrFinal, isPartial. by destruct (session.LLMResponse event). Qed.

(** The commit policy over a whole drive: the appends requested are the
    pulled events that are not partial, in order; every partial event
    pulled is relayed. *)
Lemma drive_effects_policy hist items :
  let new := drive_effects env hist items in
  append_requests new = List.filter responseAbsentOrFinal (pulled_events new) /\
  List.filter isPartial (relayed_events new) =
    List.filter isPartial (pulled_events new).
Proof.
  revert hist. induction items as [|item rest IH]; intros hist; [done|].
  simpl. destruct item as [event|event err]; simpl.
  - destruct (isPartial event) eqn:Hp.
    + destruct (caller_continues env _).
      * destruct (IH (hist ++ [Pulled (ItemEvent event);
                               Yield (Some event) None])%list) as [IH1 IH2].
        simpl. unfold append_requests, pulled_events, relayed_events in *.
        simpl. rewrite responseAbsentOrFinal_isPartial, Hp. simpl.
        by rewrite IH1, IH2.
      * unfold append_requests, pulled_events, relayed_events. simpl.
        by rewrite responseAbsentOrFinal_isPartial, Hp.
    + destruct (sessionService_AppendEvent env _ event) as [err|].
      * unfold append_requests, pulled_events, relayed_events. simpl.
        by rewrite responseAbsentOrFinal_isPartial, Hp.
      * destruct (caller_continues env _).
        -- destruct (IH (hist ++ [Pulled (ItemEvent event); AppendEvent event None;
                                  Yield (Some event) None])%list) as [IH1 IH2].
           simpl. unfold append_requests, pulled_events, relayed_events in *.
           simpl. rewrite responseAbsentOrFinal_isPartial, Hp. simpl.
           by rewrite IH1, IH2.
        -- unfold append_requests, pulled_events, relayed_events. simpl.
           by rewrite responseAbsentOrFinal_isPartial, Hp.
  - destruct (caller_continues env _); [|by destruct event].
    destruct (IH (hist ++ [Pulled (ItemError event err);
                           Yield event (Some err)])%list) as [IH1 IH2].
    simpl. unfold append_requests, pulled_events, relayed_events in *.
    destruct event; simpl; by rewrite IH1, IH2.
Qed.

(** C4: for every non-partial event the agent produces, the append to
    the session is requested first.  If the session service accepts it, the
    event is relayed right after; if it refuses, a single error is relayed
    in place of the event and the turn ends there. *)
Theorem C4_append_before_relay items st pre event post :
  effects_since st (drive env items st) =
    (pre ++ Pulled (ItemEvent event) :: post)%list ->
  isPartial event = false ->
  match sessionService_AppendEvent env
          (trace st ++ pre ++ [Pulled (ItemEvent event)]) event with
  | None =>
      exists post', post = AppendEvent event None :: Yield (Some event) None :: post'
  | Some err =>
      post = [AppendEvent event (Some err);
              Yield None (Some (Errorf "failed to add event to session: " err))]
  end.
Proof.
  intros Heff Hp. rewrite drive_effects_since in Heff.
  apply drive_effects_at in Heff as (rest & _ & Heq).
  simpl in Heq. rewrite Hp in Heq. rewrite <- !app_assoc in Heq.
  destruct (sessionService_AppendEvent env _ event) as [err|].
  - by injection Heq as ->.
  - destruct (caller_continues env _); injection Heq as ->; by eauto.
Qed.

(** C3, as the code has it: an [(event, err)] pair with [err != nil] is
    relayed to the caller as it is, and nothing is committed for it.  The
    loop ends there only if the caller stops pulling; if the caller pulls
    again, the loop goes on with the items the agent produces next. *)
Theorem C3_error_relayed_caller_decides items st pre event err post :
  effects_since st (drive env items st) =
    (pre ++ Pulled (ItemError event err) :: post)%list ->
  exists rest,
    items = (pulled_items pre ++ ItemError event err :: rest)%list /\
    let st1 := ext st (pre ++ [Pulled (ItemError event err);
                               Yield event (Some err)]) in
    post = Yield event (Some err) ::
           (if caller_continues env (trace st1)
            then effects_since st1 (drive env rest st1)
            else []).
Proof.
  intros Heff. rewrite drive_effects_since in Heff.
  apply drive_effects_at in Heff as (rest & Hitems & Heq).
  exists rest. split; [done|]. simpl in Heq. cbv zeta.
  rewrite drive_effects_since. unfold ext. simpl.
  rewrite <- !app_assoc in Heq.
  destruct (caller_continues env _); by injection Heq as ->.
Qed.


(** The drive loop saves no artifact. *)
Lemma drive_effects_no_save hist items n p res :
  Save n p res ∉ drive_effects env hist items.
Proof.
  revert hist. induction items as [|item rest IH]; intros hist.
  { apply not_elem_of_nil. }
  simpl.
  assert (Save n p res ∉ (segment env hist item).1) as Hseg.
  { destruct item as [event|event err]; simpl.
    - destruct (isPartial event);
        [|destruct (sessionService_AppendEvent env _ event)];
        simpl; rewrite !not_elem_of_cons; repeat split; try done;
        apply not_elem_of_nil.
    - rewrite !not_elem_of_cons; repeat split; try done. apply not_elem_of_nil. }
  destruct (segment env hist item) as [seg more]. simpl in Hseg.
  destruct more; [|done]. rewrite elem_of_app. intros [?|?]; [done|].
  by eapply IH.
Qed.

Lemma effects_since_trace st st' new :
  trace st' = (trace st ++ new)%list -> effects_since st st' = new.
Proof. unfold effects_since. intros ->. apply drop_app_length. Qed.

Lemma elem_of_append_requests tr e res :
  AppendEvent e res ∈ tr -> e ∈ append_requests tr.
Proof.
  intros H. unfold append_requests. apply list_elem_of_omap.
  by exists (AppendEvent e res).
Qed.

(** What the session service accepted is among what was requested. *)
Lemma committed_nil_of_requests tr : append_requests tr = [] -> committed tr = [].
Proof.
  unfold append_requests, committed.
  induction tr as [|ef tr IH]; [done|]. simpl.
  destruct ef; simpl; done.
Qed.

End WithEnv.

End Drive.

(** ** Committing the inbound message *)

Module Inbound.

Import agent runner.

Section WithEnv.

Variable env : Env.


Lemma offloaded_lookup i parts k part :
  parts !! k = Some part ->
  offloaded env i parts !! k =
    Some match genai.InlineData part with
         | Some _ => placeholder (artifactFileName env (i + k))
         | None => part
         end.
Proof.
  revert i k. induction parts as [|p rest IH]; intros i k Hk; [done|].
  destruct k as [|k]; simpl in *.
  - injection Hk as ->. by rewrite Nat.add_0_r.
  - rewrite (IH (S i) k Hk). by rewrite Nat.add_succ_r.
Qed.

Lemma blobs_elem i parts k part :
  parts !! k = Some part -> genai.InlineData part <> None ->
  Save (artifactFileName env (i + k)) part None ∈ blobs env i parts.
Proof.
  revert i k. induction parts as [|p rest IH]; intros i k Hk Hblob; [done|].
  destruct k as [|k]; simpl in *.
  - injection Hk as ->. rewrite Nat.add_0_r.
    destruct (genai.InlineData part); [left | done].
  - rewrite Nat.add_succ_r.
    destruct (genai.InlineData p); [right|]; by apply (IH (S i)).
Qed.

Lemma blobs_inv i parts ef :
  ef ∈ blobs env i parts ->
  exists k part, parts !! k = Some part /\ genai.InlineData part <> None /\
                 ef = Save (artifactFileName env (i + k)) part None.
Proof.
  revert i. induction parts as [|p rest IH]; intros i Hef; simpl in Hef.
  { by apply elem_of_nil in Hef. }
  assert (ef ∈ blobs env (S i) rest ->
          exists k part, (p :: rest) !! k = Some part /\
            genai.InlineData part <> None /\
            ef = Save (artifactFileName env (i + k)) part None) as Hrest.
  { intros (k & part & Hk & Hb & ->)%IH. exists (S k), part.
    by rewrite Nat.add_succ_r. }
  destruct (genai.InlineData p) eqn:Hp; [|by apply Hrest].
  apply elem_of_cons in Hef as [->|Hef]; [|by apply Hrest].
  exists 0, p. rewrite Nat.add_0_r. split; [done|]. split; [congruence | done].
Qed.

(** The save loop, when no save fails: every blob is saved under its name
    and its slot holds the placeholder; the other slots keep their part. *)
Lemma saveInputBlobs_ok msg parts done st st' c :
  heap st !! msg = Some c ->
  genai.Parts c = (done ++ parts)%list ->
  saveInputBlobs env msg (length done) parts st = (None, st') ->
  heap st' =
    <[msg := {| genai.Parts := (done ++ offloaded env (length done) parts)%list;
                genai.Role := genai.Role c |}]> (heap st) /\
  trace st' = (trace st ++ blobs env (length done) parts)%list.
Proof.
  revert done st c. induction parts as [|part rest IH]; intros done st c Hc Hparts Hrun.
  { simpl in *. injection Hrun as <-. rewrite !app_nil_r in *. split; [|done].
    rewrite <- Hparts. destruct c. simpl. by rewrite insert_id. }
  assert (S (length done) = length (done ++ [part])) as Hlen.
  { rewrite length_app. simpl. lia. }
  simpl in Hrun. simpl offloaded. simpl blobs.
  destruct (genai.InlineData part) as [blob|] eqn:Hblob.
  - unfold call_Save in Hrun.
    destruct (artifacts_Save env (trace st) _ part) as [err|] eqn:Hsave; [done|].
    set (ph := placeholder (artifactFileName env (length done))) in *.
    assert (S (length done) = length (done ++ [ph])) as Hlen'.
    { rewrite length_app. simpl. lia. }
    clear Hlen. rename Hlen' into Hlen. rewrite Hlen in Hrun.
    set (c1 := {| genai.Parts := ((done ++ [ph]) ++ rest)%list;
                  genai.Role := genai.Role c |}).
    eapply (IH (done ++ [ph])%list _ c1) in Hrun as [Hheap Htrace].
    + split.
      * rewrite Hheap. simpl. rewrite insert_alter_eq.
        rewrite <- Hlen. by rewrite <- app_assoc.
      * rewrite Htrace. simpl. rewrite <- Hlen. by rewrite <- app_assoc.
    + simpl. rewrite lookup_alter_eq, Hc. simpl. f_equal. unfold c1. f_equal.
      rewrite Hparts. rewrite <- (Nat.add_0_r (length done)) at 1.
      rewrite insert_app_r. simpl. by rewrite <- app_assoc.
    + done.
  - rewrite Hlen in Hrun.
    eapply (IH _ _ c) in Hrun as [Hheap Htrace]; [|done|].
    + rewrite <- Hlen in Hheap, Htrace. rewrite <- app_assoc in Hheap. done.
    + by rewrite <- app_assoc.
Qed.

(** Whatever its outcome, the save loop only asks for saves; it reports
    an error exactly when one of them failed. *)
Lemma saveInputBlobs_only_saves msg i parts st res st' :
  saveInputBlobs env msg i parts st = (res, st') ->
  exists new, trace st' = (trace st ++ new)%list /\
    Forall (fun ef => exists n p r, ef = Save n p r) new /\
    match res with
    | None => Forall (fun ef => exists n p, ef = Save n p None) new
    | Some _ => exists n p e, Save n p (Some e) ∈ new
    end.
Proof.
  revert i st. induction parts as [|part rest IH]; intros i st Hrun; simpl in Hrun.
  { injection Hrun as <- <-. exists []. by rewrite app_nil_r. }
  destruct (genai.InlineData part) as [blob|]; [|by eapply IH].
  unfold call_Save in Hrun.
  destruct (artifacts_Save env (trace st) _ part) as [err|] eqn:Hsave.
  - injection Hrun as <- <-. eexists [_]. split; [done|].
    split; [constructor; by eauto|]. do 3 eexists. left.
  - apply IH in Hrun as (new & Htrace & Hall & Hres). simpl in Htrace.
    eexists (_ :: new). split; [by rewrite Htrace, <- app_assoc|].
    split; [constructor; by eauto|].
    destruct res as [e|].
    + destruct Hres as (n & p & e' & Hin). exists n, p, e'. by right.
    + constructor; by eauto.
Qed.

Lemma only_saves_silent (tr : list Effect) :
  Forall (fun ef => exists n p r, ef = Save n p r) tr ->
  pulled_items tr = [] /\ append_requests tr = [] /\
  forall ev err, Yield ev err ∉ tr.
Proof.
  induction 1 as [|ef tr (n & p & r & ->) _ (IH1 & IH2 & IH3)].
  { split; [done|]. split; [done|]. intros ev err H. by apply elem_of_nil in H. }
  split; [done|]. split; [done|].
  intros ev err [?|?]%elem_of_cons; [done | by eapply IH3].
Qed.

(** The three ways [appendMessageToSession] can go, by what it added to
    the trace: nothing (no message); saves of which one failed; the saves
    of all blobs, then the append of the user event. *)
Lemma appendMessage_trace r msg save st res st1 :
  appendMessageToSession env r msg save st = (res, st1) ->
  match msg with
  | None => res = None /\ st1 = st
  | Some l =>
      exists saves,
        Forall (fun ef => exists n p r, ef = Save n p r) saves /\
        ((exists err, res = Some err /\ trace st1 = (trace st ++ saves)%list /\
                      exists n p e, Save n p (Some e) ∈ saves) \/
         (exists ares,
            trace st1 = (trace st ++ saves ++ [AppendEvent (userEvent env l) ares])%list /\
            res = Errorf "failed to append event to sessionService: " <$> ares /\
            Forall (fun ef => exists n p, ef = Save n p None) saves))
  end.
Proof.
  unfold appendMessageToSession. destruct msg as [l|]; [|by intros [= <- <-]].
  intros H. destruct (artifactService r && save).
  - destruct (saveInputBlobs env l 0 (parts_at l st) st) as [sres st_s] eqn:Hsave.
    apply saveInputBlobs_only_saves in Hsave as (saves & Htrace & Hall & Hres).
    exists saves. split; [done|].
    destruct sres as [err|].
    + injection H as <- <-. left. by eauto.
    + unfold call_AppendEvent in H. right.
      destruct (sessionService_AppendEvent env (trace st_s) _) as [err|] eqn:Happ;
        injection H as <- <-; eexists; simpl;
        (split; [by rewrite Htrace, <- app_assoc|]); done.
  - unfold call_AppendEvent in H. exists []. split; [done|]. right.
    destruct (sessionService_AppendEvent env (trace st) _) as [err|] eqn:Happ;
      injection H as <- <-; eexists; simpl; done.
Qed.

(** The same, for the effects [x] the step added. *)
Lemma appendMessage_effects r msg save st res st1 x :
  appendMessageToSession env r msg save st = (res, st1) ->
  trace st1 = (trace st ++ x)%list ->
  pulled_items x = [] /\
  (forall ev err, Yield ev err ∉ x) /\
  match msg with
  | None => x = []
  | Some l =>
      (append_requests x = [] /\ exists err, res = Some err) \/
      (exists saves ares,
         x = (saves ++ [AppendEvent (userEvent env l) ares])%list /\
         append_requests saves = [] /\
         res = Errorf "failed to append event to sessionService: " <$> ares)
  end.
Proof.
  intros Hrun Hx. apply appendMessage_trace in Hrun. destruct msg as [l|].
  - destruct Hrun as (saves & Hsaves & Hcase).
    destruct (only_saves_silent saves Hsaves) as (Hp & Ha & Hy).
    destruct Hcase as [(err & -> & Ht & _)|(ares & Ht & -> & _)];
      rewrite Hx in Ht; apply app_inv_head in Ht; subst x.
    + split; [done|]. split; [done|]. left. by eauto.
    + split; [by rewrite Drive.pulled_items_app, Hp|]. split.
      * intros ev err [?|Hin]%elem_of_app; [by eapply Hy|].
        by apply list_elem_of_singleton in Hin.
      * right. by eauto.
  - destruct Hrun as [-> ->].
    rewrite <- (app_nil_r (trace st)) in Hx at 1. apply app_inv_head in Hx.
    subst x. split; [done|]. split; [|done]. intros ev err. apply not_elem_of_nil.
Qed.

(** With an artifact service bound and saving enabled: unless a save
    failed, every blob was saved under its name and the content [msg]
    points to was rewritten in place. *)
Lemma appendMessage_offload r l c st res st1 :
  artifactService r = true ->
  heap st !! l = Some c ->
  appendMessageToSession env r (Some l) true st = (res, st1) ->
  (exists err, res = Some err /\ append_requests (effects_since st st1) = [] /\
               exists n p e, Save n p (Some e) ∈ effects_since st st1) \/
  (exists ares,
     effects_since st st1 =
       (blobs env 0 (genai.Parts c) ++ [AppendEvent (userEvent env l) ares])%list /\
     res = Errorf "failed to append event to sessionService: " <$> ares /\
     heap st1 = <[l := {| genai.Parts := offloaded env 0 (genai.Parts c);
                          genai.Role := genai.Role c |}]> (heap st)).
Proof.
  intros Hsvc Hc. unfold appendMessageToSession, parts_at. rewrite Hsvc, Hc. simpl.
  destruct (saveInputBlobs env l 0 (genai.Parts c) st) as [sres st_s] eqn:Hsave.
  destruct sres as [err|].
  - intros [= <- <-]. left.
    apply saveInputBlobs_only_saves in Hsave as (saves & Htrace & Hall & Hres).
    exists err. unfold effects_since. rewrite Htrace, drop_app_length.
    split; [done|]. split; [|done]. by apply only_saves_silent.
  - apply (saveInputBlobs_ok l (genai.Parts c) [] st st_s c Hc eq_refl) in Hsave
      as [Hheap Htrace].
    simpl in Hheap, Htrace. unfold call_AppendEvent, effects_since.
    destruct (sessionService_AppendEvent env (trace st_s) _) as [err|] eqn:Happ;
      intros [= <- <-]; right; eexists; simpl;
      rewrite Htrace, <- app_assoc, drop_app_length; done.
Qed.

End WithEnv.

End Inbound.

Module DriveExamples.

Import agent runner Fixtures.

(** C3 as stated fails: after the error is relayed the caller pulls again,
    and the next event of the agent is pulled, committed and relayed. *)
Lemma C3_counterexample :
  effects_since emptyState
    (drive (quietEnv []) [ItemError None "boom"; ItemEvent finalEvent] emptyState)
  = [Pulled (ItemError None "boom"); Yield None (Some "boom");
     Pulled (ItemEvent finalEvent); AppendEvent finalEvent None;
     Yield (Some finalEvent) None].
Proof. reflexivity. Qed.

Lemma C3_error_relayed_caller_decides_witness :
  exists rest,
    [ItemError None "boom"; ItemEvent finalEvent]
      = (pulled_items [] ++ ItemError None "boom" :: rest)%list /\
    let st1 := ext emptyState ([] ++ [Pulled (ItemError None "boom");
                                      Yield None (Some "boom")]) in
    [Yield None (Some "boom"); Pulled (ItemEvent finalEvent);
     AppendEvent finalEvent None; Yield (Some finalEvent) None]
    = Yield None (Some "boom") ::
      (if caller_continues (quietEnv []) (trace st1)
       then effects_since st1 (drive (quietEnv []) rest st1)
       else []).
Proof.
  apply (Drive.C3_error_relayed_caller_decides (quietEnv [])
           [ItemError None "boom"; ItemEvent finalEvent] emptyState []).
  reflexivity.
Defined.

Lemma C4_append_before_relay_witness :
  match sessionService_AppendEvent (quietEnv [])
          (trace emptyState ++ [] ++ [Pulled (ItemEvent finalEvent)]) finalEvent with
  | None =>
      exists post',
        [AppendEvent finalEvent None; Yield (Some finalEvent) None]
        = AppendEvent finalEvent None :: Yield (Some finalEvent) None :: post'
  | Some err =>
      [AppendEvent finalEvent None; Yield (Some finalEvent) None]
      = [AppendEvent finalEvent (Some err);
         Yield None (Some (Errorf "failed to add event to session: " err))]
  end.
Proof.
  apply (Drive.C4_append_before_relay (quietEnv [])
           [ItemEvent finalEvent] emptyState [] finalEvent); reflexivity.
Defined.

End DriveExamples.

(** ** A whole turn *)

Module Turn.

Import agent runner.

Section WithEnv.

Variable env : Env.

(** The four ways a turn can go: session lookup fails; CFC validation
    fails; the inbound message cannot be committed; the agent is driven. *)
Lemma Run_shape fuel r userID sessionID msg cfg st :
  wired r -> size (rootAgent r) <= fuel ->
  let get := sessionService_Get env (trace st) (appName r) userID sessionID in
  let st0 := ext st [Get (appName r) userID sessionID get] in
  exists st', Run env fuel r userID sessionID msg cfg st = Some st' /\
    ((exists err, get = inl err /\ st' = ext st0 [Yield None (Some err)]) \/
     (exists s a err, get = inr s /\ findAgentToRun fuel r s = Some a /\
        SupportCFC cfg = true /\ setupCFC a = Some err /\
        st' = ext st0 [Yield None (Some (Errorf "failed to setup CFC: " err))]) \/
     (exists s a err st1, get = inr s /\ findAgentToRun fuel r s = Some a /\
        appendMessageToSession env r msg (SaveInputBlobsAsArtifacts cfg) st0
          = (Some err, st1) /\
        st' = ext st1 [Yield None (Some err)]) \/
     (exists s a st1, get = inr s /\ findAgentToRun fuel r s = Some a /\
        appendMessageToSession env r msg (SaveInputBlobsAsArtifacts cfg) st0
          = (None, st1) /\
        st' = drive env (agent_Run env a (trace st1)) st1)).
Proof.
  intros Hw Hfuel get st0. unfold Run, call_Get. fold get.
  change (emit (Get (appName r) userID sessionID get) st) with st0.
  destruct get as [err|s] eqn:Hget.
  { eexists. split; [done|]. left. by eauto. }
  destruct (Resolve.findAgentToRun_total r s fuel Hw Hfuel) as (a & Ha & _).
  rewrite Ha.
  destruct (SupportCFC cfg) eqn:Hcfc.
  - destruct (setupCFC a) as [err|] eqn:Hsetup.
    { eexists. split; [done|]. right. left. by eauto 10. }
    destruct (appendMessageToSession env r msg _ st0) as [[err|] st1] eqn:Hmsg.
    + eexists. split; [done|]. do 2 right. left. by eauto 10.
    + eexists. split; [done|]. do 3 right. by eauto 10.
  - destruct (appendMessageToSession env r msg _ st0) as [[err|] st1] eqn:Hmsg.
    + eexists. split; [done|]. do 2 right. left. by eauto 10.
    + eexists. split; [done|]. do 3 right. by eauto 10.
Qed.

(** The same, by effects: the lookup, what the inbound-message step did,
    an error relayed before driving (if any), and the drive. *)
Lemma Run_anatomy fuel r userID sessionID msg cfg st :
  wired r -> size (rootAgent r) <= fuel ->
  let get := sessionService_Get env (trace st) (appName r) userID sessionID in
  let st0 := ext st [Get (appName r) userID sessionID get] in
  exists st' st1 x tail drv,
    Run env fuel r userID sessionID msg cfg st = Some st' /\
    effects_since st st' =
      (Get (appName r) userID sessionID get :: x ++ tail ++ drv)%list /\
    trace st1 = (trace st0 ++ x)%list /\
    heap st' = heap st1 /\
    ((st1 = st0 /\ drv = [] /\ exists err, tail = [Yield None (Some err)]) \/
     (drv = [] /\ exists err,
        appendMessageToSession env r msg (SaveInputBlobsAsArtifacts cfg) st0
          = (Some err, st1) /\
        tail = [Yield None (Some err)]) \/
     (tail = [] /\
      appendMessageToSession env r msg (SaveInputBlobsAsArtifacts cfg) st0
        = (None, st1) /\
      exists a, drv = drive_effects env (trace st1) (agent_Run env a (trace st1)))).
Proof.
  intros Hw Hfuel get st0.
  destruct (Run_shape fuel r userID sessionID msg cfg st Hw Hfuel)
    as (st' & HRun & Hcases).
  fold get in Hcases. fold st0 in Hcases.
  assert (forall res st1,
    appendMessageToSession env r msg (SaveInputBlobsAsArtifacts cfg) st0
      = (res, st1) ->
    exists x, trace st1 = (trace st0 ++ x)%list) as Hmsg.
  { intros res st1 H. apply Inbound.appendMessage_trace in H.
    destruct msg as [l|].
    - destruct H as (saves & _ & [(err & _ & Ht & _)|(ares & Ht & _)]); by eauto.
    - destruct H as [_ ->]. exists []. by rewrite app_nil_r. }
  destruct Hcases as [(err & Hget & ->)|[(s & a & err & Hget & Ha & Hcfc & Hsetup & ->)|
    [(s & a & err & st1 & Hget & Ha & Happ & ->)|(s & a & st1 & Hget & Ha & Happ & ->)]]].
  - exists (ext st0 [Yield None (Some err)]), st0, [], [Yield None (Some err)], [].
    split; [done|]. split.
    { apply Drive.effects_since_trace. simpl. by rewrite <- app_assoc. }
    split; [by rewrite app_nil_r|]. split; [done|]. left. by eauto.
  - eexists _, st0, [], [Yield None (Some _)], [].
    split; [done|]. split.
    { apply Drive.effects_since_trace. simpl. by rewrite <- app_assoc. }
    split; [by rewrite app_nil_r|]. split; [done|]. left. by eauto.
  - destruct (Hmsg _ _ Happ) as [x Hx].
    exists (ext st1 [Yield None (Some err)]), st1, x, [Yield None (Some err)], [].
    split; [done|]. split.
    { apply Drive.effects_since_trace. simpl. rewrite Hx. simpl.
      by rewrite <- !app_assoc. }
    split; [done|]. split; [done|]. right. left. by eauto.
  - destruct (Hmsg _ _ Happ) as [x Hx].
    exists (drive env (agent_Run env a (trace st1)) st1), st1, x, [],
      (drive_effects env (trace st1) (agent_Run env a (trace st1))).
    split; [done|]. split.
    { apply Drive.effects_since_trace. rewrite Drive.drive_eq. simpl.
      generalize (drive_effects env (trace st1) (agent_Run env a (trace st1))).
      intros d. rewrite Hx. simpl. by rewrite <- !app_assoc. }
    split; [done|]. split; [by rewrite Drive.drive_eq|].
    do 2 right. by eauto.
Qed.

Lemma filter_final_nil (events : list session.Event) :
  (forall e, e ∈ events -> isPartial e = true) ->
  List.filter responseAbsentOrFinal events = [].
Proof.
  induction events as [|e events IH]; intros Hall; [done|]. simpl.
  rewrite Drive.responseAbsentOrFinal_isPartial, (Hall e) by left. simpl.
  apply IH. intros e' He'. apply Hall. by right.
Qed.

(** What is left of the inbound step when no save and no append is
    refused. *)
Lemma saveInputBlobs_quiet msg i parts st :
  (forall tr n p, artifacts_Save env tr n p = None) ->
  (saveInputBlobs env msg i parts st).1 = None.
Proof.
  intros Hsaves. revert i st.
  induction parts as [|part rest IH]; intros i st; simpl; [done|].
  destruct (genai.InlineData part); [|apply IH].
  unfold call_Save. rewrite Hsaves. apply IH.
Qed.

Lemma appendMessage_accepted r msg save st :
  (forall tr n p, artifacts_Save env tr n p = None) ->
  (forall tr e, sessionService_AppendEvent env tr e = None) ->
  exists st1, appendMessageToSession env r msg save st = (None, st1).
Proof.
  intros Hsaves Happends. unfold appendMessageToSession.
  destruct msg as [l|]; [|by eauto].
  destruct (artifactService r && save).
  - pose proof (saveInputBlobs_quiet l 0 (parts_at l st) st Hsaves) as Hq.
    destruct (saveInputBlobs env l 0 (parts_at l st) st) as [sres st_s].
    simpl in Hq. subst sres. unfold call_AppendEvent. rewrite Happends.
    by eauto.
  - unfold call_AppendEvent. rewrite Happends. by eauto.
Qed.

Lemma appendMessage_extends r msg save st res st1 :
  appendMessageToSession env r msg save st = (res, st1) ->
  exists x, trace st1 = (trace st ++ x)%list.
Proof.
  intros Happ. apply Inbound.appendMessage_trace in Happ.
  destruct msg as [l|].
  - destruct Happ as (saves & _ & [(? & _ & -> & _)|(? & -> & _)]); by eexists.
  - destruct Happ as [_ ->]. exists []. by rewrite app_nil_r.
Qed.

Lemma relayed_nil x :
  (forall ev err, Yield ev err ∉ x) -> relayed x = [].
Proof.
  induction x as [|ef x IH]; intros Hx; [done|].
  assert (relayed x = []) as IH'.
  { apply IH. intros ev err Hin. apply (Hx ev err). by right. }
  destruct ef as [| | | |ev err];
    try (change (relayed (?y :: x)) with (relayed x); exact IH').
  exfalso. apply (Hx ev err). by left.
Qed.

Lemma relayed_app a b : relayed (a ++ b) = (relayed a ++ relayed b)%list.
Proof. apply omap_app. Qed.

Lemma committed_app a b : committed (a ++ b) = (committed a ++ committed b)%list.
Proof. apply omap_app. Qed.

Lemma append_requests_app a b :
  append_requests (a ++ b) = (append_requests a ++ append_requests b)%list.
Proof. apply omap_app. Qed.

Lemma item_events_cons item items :
  item_events (item :: items) = (item_events [item] ++ item_events items)%list.
Proof. apply (omap_app _ [item] items). Qed.

(** The drive loop when no append is refused: it goes through the
    agent's output until the caller stops, relays every item it pulls and
    commits those that are events with a response absent or final. *)
Lemma drive_accepting hist items :
  (forall tr e, sessionService_AppendEvent env tr e = None) ->
  let d := drive_effects env hist items in
  pulled_items d `prefix_of` items /\
  (pulled_items d = items \/
   exists pre ev err,
     d = (pre ++ [Yield ev err])%list /\
     caller_continues env (hist ++ pre ++ [Yield ev err]) = false) /\
  relayed d = item_pair <$> pulled_items d /\
  committed d =
    List.filter responseAbsentOrFinal (item_events (pulled_items d)) /\
  append_requests d = committed d.
Proof.
  intros Happends. revert hist.
  induction items as [|item rest IH]; intros hist.
  { simpl. split; [done|]. split; [by left|]. done. }
  simpl. destruct (segment env hist item) as [seg more] eqn:Hseg.
  assert (pulled_items seg = [item] /\
          relayed seg = [item_pair item] /\
          committed seg =
            List.filter responseAbsentOrFinal (item_events [item]) /\
          append_requests seg = committed seg /\
          more = caller_continues env (hist ++ seg) /\
          exists pre ev err, seg = (pre ++ [Yield ev err])%list)
    as (Hpulled & Hrelayed & Hcommitted & Hrequests & Hmore & Hlast).
  { unfold segment in Hseg. destruct item as [e|ev err].
    - destruct (isPartial e) eqn:Hp.
      + injection Hseg as <- <-. split; [done|]. split; [done|].
        split; [|split; [done|split; [done|]]].
        * unfold item_events. simpl.
          by rewrite Drive.responseAbsentOrFinal_isPartial, Hp.
        * by exists [Pulled (ItemEvent e)], (Some e), None.
      + rewrite Happends in Hseg. injection Hseg as <- <-.
        split; [done|]. split; [done|].
        split; [|split; [done|split; [done|]]].
        * unfold item_events. simpl.
          by rewrite Drive.responseAbsentOrFinal_isPartial, Hp.
        * by exists [Pulled (ItemEvent e); AppendEvent e None], (Some e), None.
    - injection Hseg as <- <-. split; [done|]. split; [done|].
      split; [done|]. split; [done|]. split; [done|].
      by exists [Pulled (ItemError ev err)], ev, (Some err). }
  destruct more.
  - destruct (IH (hist ++ seg)%list) as (Hpre & Hprog & Hrel & Hcom & Hreq).
    rewrite Drive.pulled_items_app, Hpulled.
    split; [by apply prefix_cons|]. split; [|split; [|split]].
    + destruct Hprog as [->|(pre & ev & err & -> & Hstop)]; [by left|].
      right. exists (seg ++ pre)%list, ev, err.
      split; [by rewrite <- app_assoc|]. by rewrite <- !app_assoc in *.
    + by rewrite relayed_app, Hrelayed, Hrel.
    + rewrite committed_app, Hcommitted, Hcom.
      change ([item] ++ ?l)%list with (item :: l).
      by rewrite (item_events_cons item (pulled_items _)), List.filter_app.
    + by rewrite append_requests_app, committed_app, Hrequests, Hreq.
  - rewrite Hpulled. split; [apply prefix_cons, prefix_nil|].
    split; [|done]. right. destruct Hlast as (pre & ev & err & ->).
    exists pre, ev, err. split; [done|]. by rewrite <- Hmore.
Qed.

(** C1: take a turn that gets through its setup (the session is found,
    the CFC check is off or passes) and in which no save and no append is
    refused.  Then the items pulled are a prefix of the output of the
    resolved agent, all of it unless the caller stops; every item pulled
    is relayed to the caller as it is; and an event pulled is appended
    (the append is accepted) if and only if its response is absent or its
    partial flag is false.  An event with [partial == true] is relayed
    and no append is even requested for it: the events committed by the
    drive are the pulled ones with a response absent or final, in order. *)
Theorem C1_commit_policy fuel r userID sessionID msg cfg st s :
  wired r -> size (rootAgent r) <= fuel ->
  sessionService_Get env (trace st) (appName r) userID sessionID = inr s ->
  (forall a, findAgentToRun fuel r s = Some a ->
             SupportCFC cfg = true -> setupCFC a = None) ->
  (forall tr n p, artifacts_Save env tr n p = None) ->
  (forall tr e, sessionService_AppendEvent env tr e = None) ->
  exists st' a setup turn,
    Run env fuel r userID sessionID msg cfg st = Some st' /\
    findAgentToRun fuel r s = Some a /\
    effects_since st st' = (setup ++ turn)%list /\
    pulled_items setup = [] /\ relayed setup = [] /\
    let produced := agent_Run env a (trace st ++ setup) in
    pulled_items turn `prefix_of` produced /\
    (pulled_items turn = produced \/
     exists pre ev err,
       turn = (pre ++ [Yield ev err])%list /\
       caller_continues env (trace st ++ setup ++ pre ++ [Yield ev err])
         = false) /\
    relayed turn = item_pair <$> pulled_items turn /\
    committed turn =
      List.filter responseAbsentOrFinal (item_events (pulled_items turn)) /\
    append_requests turn = committed turn /\
    forall e, ItemEvent e ∈ pulled_items turn ->
      (Some e, None) ∈ relayed turn /\
      (e ∈ committed turn <-> responseAbsentOrFinal e = true).
Proof.
  intros Hw Hfuel Hget Hcfc Hsaves Happends.
  destruct (Run_shape fuel r userID sessionID msg cfg st Hw Hfuel)
    as (st' & HRun & Hcases).
  rewrite Hget in Hcases.
  destruct Hcases as [(? & [=] & _)|[(s' & a & err & [= <-] & Ha & Hon & Herr & _)|
    [(s' & a & err & st1 & _ & _ & Happ & _)|
     (s' & a & st1 & [= <-] & Ha & Happ & ->)]]].
  { by rewrite (Hcfc a Ha Hon) in Herr. }
  { destruct (appendMessage_accepted r msg (SaveInputBlobsAsArtifacts cfg)
                (ext st [Get (appName r) userID sessionID (inr s)])
                Hsaves Happends) as [st1' Hacc].
    by rewrite Hacc in Happ. }
  destruct (appendMessage_extends _ _ _ _ _ _ Happ) as [x Hx].
  destruct (Inbound.appendMessage_effects env _ _ _ _ _ _ x Happ Hx)
    as (Hxp & Hxy & _).
  set (setup := Get (appName r) userID sessionID (inr s) :: x).
  assert (trace st1 = (trace st ++ setup)%list) as Htr.
  { rewrite Hx. simpl. by rewrite <- app_assoc. }
  exists (drive env (agent_Run env a (trace st1)) st1), a, setup,
    (drive_effects env (trace st1) (agent_Run env a (trace st1))).
  split; [done|]. split; [done|]. split.
  { apply Drive.effects_since_trace. rewrite Drive.drive_eq. simpl.
    by rewrite Htr, <- app_assoc. }
  split; [done|]. split.
  { apply relayed_nil. intros ev err [Hin|Hin]%elem_of_cons; [done|].
    by apply (Hxy ev err). }
  destruct (drive_accepting (trace st1) (agent_Run env a (trace st1)) Happends)
    as (Hpre & Hprog & Hrel & Hcom & Hreq).
  simpl. rewrite <- Htr. split; [done|]. split.
  { destruct Hprog as [?|(pre & ev & err & Hd & Hstop)]; [by left|].
    right. exists pre, ev, err. split; [done|].
    rewrite <- Hstop, Htr. unfold setup. by rewrite <- app_assoc. }
  split; [done|]. split; [done|]. split; [done|].
  intros e He. split.
  - rewrite Hrel. apply list_elem_of_fmap. by exists (ItemEvent e).
  - rewrite Hcom, list_elem_of_In, filter_In, <- list_elem_of_In.
    split; [by intros [_ ?]|]. intros Hfinal. split; [|done].
    unfold item_events. apply list_elem_of_omap. by exists (ItemEvent e).
Qed.


(** What a turn does to the inbound message when an artifact service is
    bound and saving is enabled: either the append of the user event is
    never requested, or every blob was saved (and nothing else), the user
    event's append follows the saves, and the content was rewritten in
    place. *)
Lemma Run_offload fuel r userID sessionID msg cfg c st :
  wired r -> size (rootAgent r) <= fuel ->
  artifactService r = true -> SaveInputBlobsAsArtifacts cfg = true ->
  heap st !! msg = Some c ->
  exists st',
    Run env fuel r userID sessionID (Some msg) cfg st = Some st' /\
    ((forall ares, AppendEvent (userEvent env msg) ares ∉ effects_since st st') \/
     (exists get ares rest,
        effects_since st st' =
          (get :: blobs env 0 (genai.Parts c)
               ++ AppendEvent (userEvent env msg) ares :: rest)%list /\
        (forall n p res, get <> Save n p res) /\
        (forall n p res, Save n p res ∉ rest) /\
        heap st' = <[msg := {| genai.Parts := offloaded env 0 (genai.Parts c);
                               genai.Role := genai.Role c |}]> (heap st))).
Proof.
  intros Hw Hfuel Hsvc Hsave Hc.
  destruct (Run_anatomy fuel r userID sessionID (Some msg) cfg st Hw Hfuel)
    as (st' & st1 & x & tail & drv & HRun & Heff & Hx & Hheap & Hcases).
  set (get := Get (appName r) userID sessionID
                (sessionService_Get env (trace st) (appName r) userID sessionID)) in *.
  exists st'. split; [done|]. rewrite Hsave in Hcases.
  assert (forall res,
    appendMessageToSession env r (Some msg) true (ext st [get]) = (res, st1) ->
    (append_requests x = [] /\ res <> None) \/
    (exists ares, x = (blobs env 0 (genai.Parts c)
                       ++ [AppendEvent (userEvent env msg) ares])%list /\
       res = Errorf "failed to append event to sessionService: " <$> ares /\
       heap st1 = <[msg := {| genai.Parts := offloaded env 0 (genai.Parts c);
                              genai.Role := genai.Role c |}]> (heap st))) as Hoff.
  { intros res Happ.
    apply (Inbound.appendMessage_offload env r msg c) in Happ; [|done|done].
    rewrite (Drive.effects_since_trace _ _ _ Hx) in Happ.
    destruct Happ as [(err & -> & Hreq & _)|(ares & Hxeq & Hres & Hh)];
      [left | right; exists ares]; done. }
  rewrite Heff.
  destruct Hcases as [(-> & -> & err & ->)|[(-> & err & Happ & ->)|(-> & Happ & a & ->)]].
  - left. rewrite <- (app_nil_r (trace _)) in Hx at 1. apply app_inv_head in Hx.
    subst x. intros ares. simpl. rewrite !not_elem_of_cons.
    repeat split; try done. apply not_elem_of_nil.
  - destruct (Hoff _ Happ) as [[Hreq _]|(ares & -> & Hres & Hh)].
    + left. intros ares Hin. rewrite app_nil_r in Hin.
      apply elem_of_cons in Hin as [?|Hin]; [done|].
      apply elem_of_app in Hin as [Hin|Hin].
      * apply Drive.elem_of_append_requests in Hin. rewrite Hreq in Hin.
        by apply elem_of_nil in Hin.
      * by apply list_elem_of_singleton in Hin.
    + right. destruct ares as [e|]; [|done].
      exists get, (Some e), [Yield None (Some err)].
      split; [by rewrite app_nil_r, <- app_assoc|].
      split; [done|]. split; [|by rewrite Hheap].
      intros n p res Hin. by apply list_elem_of_singleton in Hin.
  - destruct (Hoff _ Happ) as [[_ ?]|(ares & -> & Hres & Hh)]; [done|].
    right. destruct ares as [e|]; [done|].
    eexists get, None, _. split; [by rewrite <- app_assoc|].
    split; [done|]. split; [apply Drive.drive_effects_no_save|].
    by rewrite Hheap.
Qed.

(** The inbound step when no save is refused: every blob is saved and
    replaced, then the append of the user event is requested. *)
Lemma appendMessage_saves_all r l c st :
  (forall tr n p, artifacts_Save env tr n p = None) ->
  artifactService r = true -> heap st !! l = Some c ->
  let st_s :=
    {| heap := <[l := {| genai.Parts := offloaded env 0 (genai.Parts c);
                         genai.Role := genai.Role c |}]> (heap st);
       trace := (trace st ++ blobs env 0 (genai.Parts c))%list |} in
  let ares := sessionService_AppendEvent env (trace st_s) (userEvent env l) in
  appendMessageToSession env r (Some l) true st =
    (Errorf "failed to append event to sessionService: " <$> ares,
     emit (AppendEvent (userEvent env l) ares) st_s).
Proof.
  intros Hsaves Hsvc Hc. unfold appendMessageToSession. rewrite Hsvc. simpl.
  unfold parts_at. rewrite Hc.
  pose proof (saveInputBlobs_quiet l 0 (genai.Parts c) st Hsaves) as Hq.
  destruct (saveInputBlobs env l 0 (genai.Parts c) st) as [sres st1] eqn:Hsave.
  simpl in Hq. subst sres.
  apply (Inbound.saveInputBlobs_ok env l (genai.Parts c) [] st st1 c Hc eq_refl)
    in Hsave as [Hheap Htrace].
  simpl in Hheap, Htrace. destruct st1 as [h1 t1]. simpl in *. subst h1 t1.
  unfold call_AppendEvent. simpl.
  by destruct (sessionService_AppendEvent env _ _).
Qed.

(** A turn that gets through its setup and in which no save is refused:
    what it does up to the append of the user event. *)
Lemma Run_saves_all fuel r userID sessionID msg cfg c st s :
  wired r -> size (rootAgent r) <= fuel ->
  artifactService r = true -> SaveInputBlobsAsArtifacts cfg = true ->
  heap st !! msg = Some c ->
  sessionService_Get env (trace st) (appName r) userID sessionID = inr s ->
  (forall a, findAgentToRun fuel r s = Some a ->
             SupportCFC cfg = true -> setupCFC a = None) ->
  (forall tr n p, artifacts_Save env tr n p = None) ->
  let get := Get (appName r) userID sessionID (inr s) in
  let ares := sessionService_AppendEvent env
                (trace st ++ get :: blobs env 0 (genai.Parts c))
                (userEvent env msg) in
  exists st' rest,
    Run env fuel r userID sessionID (Some msg) cfg st = Some st' /\
    effects_since st st' =
      (get :: blobs env 0 (genai.Parts c)
           ++ AppendEvent (userEvent env msg) ares :: rest)%list /\
    (forall n p res, Save n p res ∉ rest) /\
    heap st' = <[msg := {| genai.Parts := offloaded env 0 (genai.Parts c);
                           genai.Role := genai.Role c |}]> (heap st).
Proof.
  intros Hw Hfuel Hsvc Hsave Hc Hget Hcfc Hsaves get ares.
  destruct (Run_shape fuel r userID sessionID (Some msg) cfg st Hw Hfuel)
    as (st' & HRun & Hcases).
  rewrite Hget, Hsave in Hcases. fold get in Hcases.
  pose proof (appendMessage_saves_all r msg c (ext st [get]) Hsaves Hsvc Hc)
    as Hstep.
  cbv zeta in Hstep.
  assert ((trace (ext st [get]) ++ blobs env 0 (genai.Parts c))%list
          = (trace st ++ get :: blobs env 0 (genai.Parts c))%list) as Hhist.
  { simpl. by rewrite <- app_assoc. }
  rewrite Hhist in Hstep. fold ares in Hstep. clear Hhist.
  destruct Hcases as [(? & [=] & _)|[(s' & a & err & [= <-] & Ha & Hon & Herr & _)|
    [(s' & a & err & st1 & _ & _ & Happ & ->)|
     (s' & a & st1 & _ & _ & Happ & ->)]]].
  { by rewrite (Hcfc a Ha Hon) in Herr. }
  - rewrite Hstep in Happ. injection Happ as Hres <-.
    eexists _, [Yield None (Some err)]. split; [done|]. split; [|split; [|done]].
    + apply Drive.effects_since_trace. simpl. by rewrite <- !app_assoc.
    + intros n p res [[=]|[]%elem_of_nil]%elem_of_cons.
  - rewrite Hstep in Happ. injection Happ as Hres <-.
    eexists _, _. split; [done|]. split; [|split].
    + apply Drive.effects_since_trace. rewrite Drive.drive_eq. simpl.
      rewrite <- !app_assoc. simpl. reflexivity.
    + intros n p res. apply Drive.drive_effects_no_save.
    + by rewrite Drive.drive_eq.
Qed.

(** C7: take a turn with saving of input blobs enabled and an artifact
    service bound that gets through its setup (the session is found, the
    CFC check is off or passes) and in which no save and no append is
    refused.  Then the user event is committed; each part of the inbound
    message that carries inline data at index [i] has been saved under the
    name "artifact_<invocationID>_<i>", and the content the user event
    points to holds the placeholder naming that artifact at index [i]; a
    part without inline data is saved under no name and is still at its
    index. *)
Theorem C7_blobs_saved_and_replaced fuel r userID sessionID msg cfg c st s :
  wired r -> size (rootAgent r) <= fuel ->
  artifactService r = true -> SaveInputBlobsAsArtifacts cfg = true ->
  heap st !! msg = Some c ->
  sessionService_Get env (trace st) (appName r) userID sessionID = inr s ->
  (forall a, findAgentToRun fuel r s = Some a ->
             SupportCFC cfg = true -> setupCFC a = None) ->
  (forall tr n p, artifacts_Save env tr n p = None) ->
  (forall tr e, sessionService_AppendEvent env tr e = None) ->
  exists st',
    Run env fuel r userID sessionID (Some msg) cfg st = Some st' /\
    AppendEvent (userEvent env msg) None ∈ effects_since st st' /\
    session.LLMResponse (userEvent env msg)
      = Some {| model.Content := Some msg; model.Partial := false |} /\
    exists c',
      heap st' !! msg = Some c' /\
      forall i part,
        genai.Parts c !! i = Some part ->
        match genai.InlineData part with
        | Some _ =>
            Save ("artifact_" ++ InvocationID env ++ "_" ++ fmt_d i) part None
              ∈ effects_since st st' /\
            genai.Parts c' !! i =
              Some (genai.NewPartFromText
                      ("Uploaded file: "
                       ++ ("artifact_" ++ InvocationID env ++ "_" ++ fmt_d i)
                       ++ ". It has been saved to the artifacts"))
        | None =>
            (forall n res, Save n part res ∉ effects_since st st') /\
            genai.Parts c' !! i = Some part
        end.
Proof.
  intros Hw Hfuel Hsvc Hsave Hc Hget Hcfc Hsaves Happends.
  destruct (Run_saves_all fuel r userID sessionID msg cfg c st s
              Hw Hfuel Hsvc Hsave Hc Hget Hcfc Hsaves)
    as (st' & rest & HRun & Heff & Hrest & Hheap).
  rewrite Happends in Heff.
  exists st'. split; [done|]. rewrite Heff. split.
  { right. apply elem_of_app. right. by left. }
  split; [done|].
  eexists. split; [rewrite Hheap; apply lookup_insert_eq|].
  intros i part Hi. simpl genai.Parts.
  rewrite (Inbound.offloaded_lookup env 0 _ i part Hi).
  destruct (genai.InlineData part) as [blob|] eqn:Hblob.
  - split; [|done]. right. apply elem_of_app. left.
    apply (Inbound.blobs_elem env 0 _ i part Hi). by rewrite Hblob.
  - split; [|done]. intros n res Hin.
    apply elem_of_cons in Hin as [Hin|Hin]; [done|].
    apply elem_of_app in Hin as [Hin|Hin].
    + apply Inbound.blobs_inv in Hin as (k & part' & _ & Hb & [= _ <-]).
      by rewrite Hblob in Hb.
    + apply elem_of_cons in Hin as [?|Hin]; [done|]. by destruct (Hrest n part res).
Qed.


(** C8: if the session lookup fails, or CFC is requested and the resolved
    agent is not an LLM agent, has no model, or has a model whose name does
    not start with "gemini-2", the turn consists of the lookup and one
    relayed error: no append is requested, no artifact is saved, no
    content is rewritten. *)
Theorem C8_fail_before_mutation fuel r userID sessionID msg cfg st :
  let get := sessionService_Get env (trace st) (appName r) userID sessionID in
  (exists err, get = inl err) \/
  (exists s a, get = inr s /\ findAgentToRun fuel r s = Some a /\
     SupportCFC cfg = true /\
     (llm a = None \/
      exists l, llm a = Some l /\
        (Model l = None \/
         exists m, Model l = Some m /\
                   HasPrefix (model.Name m) "gemini-2" = false))) ->
  exists st' err,
    Run env fuel r userID sessionID msg cfg st = Some st' /\
    effects_since st st' =
      [Get (appName r) userID sessionID get; Yield None (Some err)] /\
    append_requests (effects_since st st') = [] /\
    heap st' = heap st.
Proof.
  intros get Hfail. unfold Run, call_Get. fold get. clearbody get.
  assert (forall err,
    let st' := (yield env None (Some err)
                  (emit (Get (appName r) userID sessionID get) st)).2 in
    effects_since st st' =
      [Get (appName r) userID sessionID get; Yield None (Some err)] /\
    append_requests (effects_since st st') = [] /\
    heap st' = heap st) as Hend.
  { intros err. unfold effects_since. simpl.
    rewrite <- app_assoc, drop_app_length. done. }
  destruct Hfail as [(err & ->)|(s & a & -> & Ha & Hcfc & Hbad)].
  { do 2 eexists. split; [done|]. apply Hend. }
  rewrite Ha, Hcfc.
  assert (exists err, setupCFC a = Some err) as [err Hsetup].
  { unfold setupCFC.
    destruct Hbad as [->|(l & -> & [->|(m & -> & ->)])]; by eauto. }
  rewrite Hsetup. do 2 eexists. split; [done|]. apply Hend.
Qed.

End WithEnv.

End Turn.

Module TurnExamples.

Import agent runner Fixtures.

(** [TestRunner_SaveInputBlobsAsArtifacts]: one artifact is saved, the
    user event is the first event of the session, and the part with inline
    data has become the placeholder. *)
Example save_input_blobs_as_artifacts :
  exists st',
    Run (quietEnv []) 3 (artifactRunner root) "testUser" "testSession"
        (Some 1%positive) saveBlobsConfig (stateWith message) = Some st' /\
    effects_since (stateWith message) st' =
      [Get "testApp" "testUser" "testSession" (inr (sessionOf []));
       Save "artifact_inv_1" blobPart None;
       AppendEvent (userEvent (quietEnv []) 1%positive) None] /\
    heap st' !! 1%positive =
      Some {| genai.Parts :=
                [genai.NewPartFromText "here is a file";
                 genai.NewPartFromText
                   "Uploaded file: artifact_inv_1. It has been saved to the artifacts"];
              genai.Role := genai.RoleUser |}.
Proof. eexists. split; [reflexivity|]. split; reflexivity. Qed.

(** A save that fails ends the turn at once: the blob before it has been
    replaced, the failing one and what follows it have not, and no user
    event is appended. *)
Example failed_save_stops_the_step :
  exists st',
    Run fullDiskEnv 3 (artifactRunner root) "testUser" "testSession"
        (Some 1%positive) saveBlobsConfig (stateWith twoBlobs) = Some st' /\
    effects_since (stateWith twoBlobs) st' =
      [Get "testApp" "testUser" "testSession" (inr (sessionOf []));
       Save "artifact_inv_0" blobPart None;
       Save "artifact_inv_2" blobPart (Some "disk full");
       Yield None (Some "failed to save artifact artifact_inv_2: disk full")] /\
    heap st' !! 1%positive =
      Some {| genai.Parts :=
                [genai.NewPartFromText
                   "Uploaded file: artifact_inv_0. It has been saved to the artifacts";
                 genai.NewPartFromText "and another";
                 blobPart];
              genai.Role := genai.RoleUser |}.
Proof. eexists. split; [reflexivity|]. split; reflexivity. Qed.


Lemma C1_commit_policy_witness :
  let env := quietEnv [ItemEvent partialEvent; ItemEvent finalEvent] in
  exists st' a setup turn,
    Run env 3 (newRunner root) "userID" "sessionID" (Some 1%positive)
        plainConfig (stateWith message) = Some st' /\
    findAgentToRun 3 (newRunner root) (sessionOf []) = Some a /\
    effects_since (stateWith message) st' = (setup ++ turn)%list /\
    pulled_items setup = [] /\ relayed setup = [] /\
    let produced := agent_Run env a (trace (stateWith message) ++ setup) in
    pulled_items turn `prefix_of` produced /\
    (pulled_items turn = produced \/
     exists pre ev err,
       turn = (pre ++ [Yield ev err])%list /\
       caller_continues env
         (trace (stateWith message) ++ setup ++ pre ++ [Yield ev err])
         = false) /\
    relayed turn = item_pair <$> pulled_items turn /\
    committed turn =
      List.filter responseAbsentOrFinal (item_events (pulled_items turn)) /\
    append_requests turn = committed turn /\
    forall e, ItemEvent e ∈ pulled_items turn ->
      (Some e, None) ∈ relayed turn /\
      (e ∈ committed turn <-> responseAbsentOrFinal e = true).
Proof.
  apply (Turn.C1_commit_policy
           (quietEnv [ItemEvent partialEvent; ItemEvent finalEvent]) 3
           (newRunner root) "userID" "sessionID" (Some 1%positive) plainConfig
           (stateWith message) (sessionOf [])).
  - right. vm_compute. reflexivity.
  - vm_compute. lia.
  - reflexivity.
  - discriminate.
  - reflexivity.
  - reflexivity.
Defined.


Lemma C7_blobs_saved_and_replaced_witness :
  exists st',
    Run (quietEnv []) 3 (artifactRunner root) "testUser" "testSession"
        (Some 1%positive) saveBlobsConfig (stateWith message) = Some st' /\
    AppendEvent (userEvent (quietEnv []) 1%positive) None
      ∈ effects_since (stateWith message) st' /\
    session.LLMResponse (userEvent (quietEnv []) 1%positive)
      = Some {| model.Content := Some 1%positive; model.Partial := false |} /\
    exists c',
      heap st' !! 1%positive = Some c' /\
      forall i part,
        genai.Parts message !! i = Some part ->
        match genai.InlineData part with
        | Some _ =>
            Save ("artifact_" ++ InvocationID (quietEnv []) ++ "_" ++ fmt_d i)
                 part None
              ∈ effects_since (stateWith message) st' /\
            genai.Parts c' !! i =
              Some (genai.NewPartFromText
                      ("Uploaded file: "
                       ++ ("artifact_" ++ InvocationID (quietEnv []) ++ "_"
                           ++ fmt_d i)
                       ++ ". It has been saved to the artifacts"))
        | None =>
            (forall n res,
               Save n part res ∉ effects_since (stateWith message) st') /\
            genai.Parts c' !! i = Some part
        end.
Proof.
  apply (Turn.C7_blobs_saved_and_replaced (quietEnv []) 3 (artifactRunner root)
           "testUser" "testSession" 1%positive saveBlobsConfig message
           (stateWith message) (sessionOf [])).
  - right. vm_compute. reflexivity.
  - vm_compute. lia.
  - reflexivity.
  - reflexivity.
  - reflexivity.
  - reflexivity.
  - discriminate.
  - reflexivity.
  - reflexivity.
Defined.



(** The root of the test tree is an LLM agent without a model: with CFC
    requested the turn ends before anything is appended. *)
Lemma C8_fail_before_mutation_witness :
  exists st' err,
    Run (quietEnv [ItemEvent finalEvent]) 3 (newRunner root)
        "userID" "sessionID" (Some 1%positive) cfcConfig (stateWith message)
      = Some st' /\
    effects_since (stateWith message) st' =
      [Get "test" "userID" "sessionID" (inr (sessionOf []));
       Yield None (Some err)] /\
    append_requests (effects_since (stateWith message) st') = [] /\
    heap st' = heap (stateWith message).
Proof.
  apply (Turn.C8_fail_before_mutation (quietEnv [ItemEvent finalEvent]) 3
           (newRunner root) "userID" "sessionID" (Some 1%positive) cfcConfig
           (stateWith message)).
  right. exists (sessionOf []), root. split; [reflexivity|].
  split; [reflexivity|]. split; [reflexivity|].
  right. eexists. split; [reflexivity|]. left. reflexivity.
Defined.

End TurnExamples.

(** ** The agent-as-tool adapter *)

Module AgentTool.

Import agent agenttool.

Lemma HasPrefix_spec (s pre : string) :
  HasPrefix s pre = true <-> exists rest, s = pre ++ rest.
Proof.
  unfold HasPrefix. revert s. induction pre as [|a pre IH]; intros s.
  { split; [|by destruct s]. intros _. by exists s. }
  destruct s as [|b s]; simpl.
  { split; [done|]. by intros [rest [=]]. }
  destruct (Ascii.ascii_dec a b) as [->|Hne].
  - rewrite IH. split; intros [rest Hrest]; exists rest;
      change (String b pre ++ rest) with (String b (pre ++ rest)) in *;
      congruence.
  - split; [done|]. intros [rest Hrest].
    change (String a pre ++ rest) with (String a (pre ++ rest)) in Hrest.
    congruence.
Qed.

(** The copied state holds exactly the caller's entries whose key does
    not start with "_adk". *)
Lemma copyState_lookup (state : gmap string any) k v :
  copyState state !! k = Some v <->
  state !! k = Some v /\ HasPrefix k "_adk" = false.
Proof.
  unfold copyState. revert k v.
  apply (map_fold_weak_ind
           (fun (acc state : gmap string any) =>
              forall k v, acc !! k = Some v <->
                          state !! k = Some v /\ HasPrefix k "_adk" = false)).
  { intros k v. rewrite lookup_empty. split; [done | by intros [? _]]. }
  intros i x m acc Hfresh IH k v.
  destruct (decide (i = k)) as [->|Hne].
  - rewrite lookup_insert_eq.
    destruct (HasPrefix k "_adk") eqn:Hpre; simpl.
    + rewrite IH, Hfresh. split; [by intros [? _] | by intros [_ ?]].
    + rewrite lookup_insert_eq. split; [by intros -> | by intros [-> _]].
  - rewrite (lookup_insert_ne m) by done.
    destruct (HasPrefix i "_adk"); simpl; [apply IH|].
    rewrite lookup_insert_ne by done. apply IH.
Qed.

Section Run.

Variable ValidateMapOnSchema :
  gmap string any -> genai.Schema -> bool -> option error.
Variable json_Marshal : gmap string any -> error + string.
Variable ValidateOutputSchema :
  string -> genai.Schema -> error + gmap string any.
Variable InMemory_Create :
  string -> string -> gmap string any -> error + session.Session.
Variable sub : runner.Env.
Variable contents : gmap loc genai.Content.

(** C9: every invocation of [agentTool.Run] whose arguments are accepted
    (a map that passes the agent's input schema, or that holds "request"
    when there is none) constructs three service instances that did not
    exist before (their numbers start at the count of instances so far),
    one of each kind.  Unless the runner cannot be created, it then
    creates one session, in the new session service, for the wrapped
    agent and the caller's user, with an initial state that holds exactly
    the caller's entries whose key does not start with "_adk"; if the
    session is created, the nested turn runs on the three new services.
    An invocation whose arguments are rejected constructs nothing. *)
Theorem C9_fresh_services_filtered_state fuel t toolCtx args w :
  size (agent t) <= fuel ->
  exists out actions w',
    Run ValidateMapOnSchema json_Marshal ValidateOutputSchema InMemory_Create
        sub contents fuel t toolCtx args w = Some (out, actions, w') /\
    match args with
    | OtherArgs _ => w' = w /\ exists err, out = inl err
    | MapArgs margs =>
        match inputContent ValidateMapOnSchema json_Marshal t margs with
        | inl err => w' = w /\ out = inl err
        | inr _ =>
            let n := instances w in
            let stateMap := copyState (State toolCtx) in
            instances w' = S (S (S n)) /\
            (forall k v,
               stateMap !! k = Some v <->
               State toolCtx !! k = Some v /\ ~ exists rest, k = "_adk" ++ rest) /\
            exists rest,
              trace w' =
                (trace w ++
                 [NewSessionService n; NewArtifactService (S n);
                  NewMemoryService (S (S n))] ++ rest)%list /\
              match parentmap.New (agent t) with
              | None => rest = [] /\ out = inl "failed to create runner"
              | Some _ =>
                  let res := InMemory_Create (Name (agent t)) (UserID toolCtx)
                               stateMap in
                  exists after,
                    rest = Create n (Name (agent t)) (UserID toolCtx)
                                  stateMap res :: after /\
                    match res with
                    | inl err =>
                        after = [] /\
                        out = inl (Errorf
                                     ("failed to create session for sub-agent "
                                      ++ Name (agent t) ++ ": ") err)
                    | inr _ =>
                        exists turn,
                          after = [RunnerRun n (S n) (S (S n)) turn]
                    end
              end
        end
    end.
Proof.
  intros Hfuel.
  assert (forall k v,
    copyState (State toolCtx) !! k = Some v <->
    State toolCtx !! k = Some v /\ ~ exists rest, k = "_adk" ++ rest) as Hcopy.
  { intros k v. rewrite copyState_lookup, <- HasPrefix_spec.
    destruct (HasPrefix k "_adk"); split; intros [? ?]; by split. }
  unfold Run. destruct args as [margs|typeName].
  2:{ do 3 eexists. split; [done|]. split; [done|]. by eexists. }
  destruct (inputContent _ _ t margs) as [err|content].
  { do 3 eexists. by split. }
  unfold InMemoryService. simpl. unfold runner.New. simpl.
  destruct (parentmap.New (agent t)) as [parents|] eqn:Hp.
  2:{ do 3 eexists. split; [done|]. simpl. split; [done|]. split; [done|].
      exists []. split; [by rewrite <- !app_assoc|done]. }
  destruct (InMemory_Create _ _ _) as [err|subSession] eqn:Hcreate.
  { do 3 eexists. split; [done|]. simpl. split; [done|]. split; [done|].
    eexists [_]. split; [by rewrite <- !app_assoc|]. by exists []. }
  set (r := {| runner.appName := _ |}).
  assert (runner.wired r) as Hw by (by right).
  destruct (Turn.Run_shape (as_caller sub) fuel r (session.UserID subSession)
              (session.SessionID subSession) (Some (fresh (dom contents)))
              {| SupportCFC := false; SaveInputBlobsAsArtifacts := false |}
              {| runner.heap := <[fresh (dom contents) := content]> contents;
                 runner.trace := [] |}
              Hw Hfuel) as (st' & -> & _).
  destruct (drainEvents (runner.trace st') None) as [err|lastEvent];
    (do 3 eexists; split; [done|]; simpl; split; [done|]; split; [done|];
     eexists [_; _]; split; [by rewrite <- !app_assoc|];
     eexists [_]; split; [done|]; by eexists).
Qed.

End Run.

End AgentTool.

Module AgentToolExamples.

Import agent agenttool Fixtures.

Example copyState_drops_reserved_keys :
  copyState callerState =
  {[ "city" := AString "Paris"; "adk_like" := AOther "42" ]}.
Proof. vm_compute. reflexivity. Qed.

(** A whole invocation: the nested turn commits the request as a user
    event and the agent's answer; the tool's result is the text of the
    answer, its non-empty parts joined by a line break. *)
Example agentTool_Run_example :
  Run (fun _ _ _ => None) (fun _ => inr "{}") (fun _ _ => inr ∅)
      (fun _ _ _ => inr (sessionOf []))
      (quietEnv [runner.ItemEvent answerEvent]) agentContents 3
      {| agent := root; skipSummarization := false |}
      toolContext (MapArgs requestArgs) freshWorld
  = Some (inr {[ "result" := AString ("sunny" ++ NL ++ "20 degrees") ]},
          Some false,
          {| instances := 3;
             trace :=
               [NewSessionService 0; NewArtifactService 1; NewMemoryService 2;
                Create 0 "root" "userID"
                  {[ "city" := AString "Paris"; "adk_like" := AOther "42" ]}
                  (inr (sessionOf []));
                RunnerRun 0 1 2
                  [runner.Get "root" "userID" "sessionID" (inr (sessionOf []));
                   runner.AppendEvent
                     (runner.userEvent (quietEnv [])
                        (fresh (dom agentContents))) None;
                   runner.Pulled (runner.ItemEvent answerEvent);
                   runner.AppendEvent answerEvent None;
                   runner.Yield (Some answerEvent) None]] |}).
Proof. vm_compute. reflexivity. Qed.

(** An argument that is not a map is rejected with its type. *)
Example agentTool_Run_rejects :
  Run (fun _ _ _ => None) (fun _ => inr "{}") (fun _ _ => inr ∅)
      (fun _ _ _ => inr (sessionOf []))
      (quietEnv [runner.ItemEvent answerEvent]) agentContents 3
      {| agent := root; skipSummarization := true |}
      toolContext (OtherArgs "string") freshWorld
  = Some (inl "agentTool expects map[string]any arguments, got string",
          Some false, freshWorld).
Proof. reflexivity. Qed.

Lemma C9_fresh_services_filtered_state_witness :
  let t := {| agent := root; skipSummarization := false |} in
  exists out actions w',
    Run (fun _ _ _ => None) (fun _ => inr "{}") (fun _ _ => inr ∅)
        (fun _ _ _ => inr (sessionOf []))
        (quietEnv [runner.ItemEvent answerEvent]) agentContents 3
        t toolContext (MapArgs requestArgs) freshWorld
      = Some (out, actions, w') /\
    match inputContent (fun _ _ _ => None) (fun _ => inr "{}") t requestArgs with
    | inl err => w' = freshWorld /\ out = inl err
    | inr _ =>
        let n := instances freshWorld in
        let stateMap := copyState (State toolContext) in
        instances w' = S (S (S n)) /\
        (forall k v,
           stateMap !! k = Some v <->
           State toolContext !! k = Some v /\ ~ exists rest, k = "_adk" ++ rest) /\
        exists rest,
          trace w' =
            (trace freshWorld ++
             [NewSessionService n; NewArtifactService (S n);
              NewMemoryService (S (S n))] ++ rest)%list /\
          match parentmap.New (agent t) with
          | None => rest = [] /\ out = inl "failed to create runner"
          | Some _ =>
              let res := (inr (sessionOf []) : error + session.Session) in
              exists after,
                rest = Create n (Name (agent t)) (UserID toolContext)
                              stateMap res :: after /\
                match res with
                | inl err =>
                    after = [] /\
                    out = inl (Errorf
                                 ("failed to create session for sub-agent "
                                  ++ Name (agent t) ++ ": ") err)
                | inr _ =>
                    exists turn,
                      after = [RunnerRun n (S n) (S (S n)) turn]
                end
          end
    end.
Proof.
  apply (AgentTool.C9_fresh_services_filtered_state
           (fun _ _ _ => None) (fun _ => inr "{}") (fun _ _ => inr ∅)
           (fun _ _ _ => inr (sessionOf []))
           (quietEnv [runner.ItemEvent answerEvent]) agentContents 3
           {| agent := root; skipSummarization := false |}
           toolContext (MapArgs requestArgs) freshWorld).
  vm_compute. lia.
Defined.

End AgentToolExamples.

(** ** More about resolving the agent *)

Module ResolveMore.

Import agent AgentTree.

Lemma head_filter_app {A} (f : A -> bool) (l1 l2 : list A) :
  head (List.filter f (l1 ++ l2)) =
  match head (List.filter f l1) with
  | Some x => Some x
  | None => head (List.filter f l2)
  end.
Proof.
  rewrite List.filter_app. by destruct (List.filter f l1).
Qed.

Lemma findAgentFrom_first a n :
  runner.findAgentFrom a n =
  head (List.filter (fun b => String.eqb (Name b) n) (agents_of a)).
Proof.
  induction a as [name l subs IH] using Agent_ind'.
  rewrite agents_of_unfold. simpl.
  destruct (String.eqb name n); [done|].
  induction subs as [|c subs IHsubs]; [done|].
  apply Forall_cons in IH as [Hc Hsubs].
  change (flat_map agents_of (c :: subs))
    with (agents_of c ++ flat_map agents_of subs)%list.
  rewrite head_filter_app, <- Hc.
  destruct (runner.findAgentFrom c n); [done|]. by apply IHsubs.
Qed.

(** X1: [findAgent] searches the tree depth first, parents before
    children and children in order: it returns the first agent of that
    order whose name is the target (so with a repeated name, the first
    bearer), and nil when no agent has the name or the tree is nil. *)
Theorem X1_findAgent_first_in_preorder (root : Agent) (targetName : string) :
  runner.findAgent (Some root) targetName =
    head (List.filter (fun b => String.eqb (Name b) targetName) (agents_of root)) /\
  (runner.findAgent (Some root) targetName = None <->
   targetName ∉ Name <$> agents_of root) /\
  runner.findAgent None targetName = None.
Proof.
  split; [apply findAgentFrom_first|]. split; [|done]. simpl. split.
  - intros Hnone Hin. apply list_elem_of_fmap in Hin as (b & -> & Hb).
    rewrite findAgentFrom_first in Hnone.
    assert (b ∈ List.filter (fun b0 => String.eqb (Name b0) (Name b)) (agents_of root))
      as Hf.
    { apply list_elem_of_In, List.filter_In. split; [by apply list_elem_of_In|].
      apply String.eqb_refl. }
    destruct (List.filter _ (agents_of root)); [by apply elem_of_nil in Hf | done].
  - apply findAgentFrom_None.
Qed.

(** X2: [setupCFC] accepts an agent exactly when it is an LLM agent with a
    model whose name starts with "gemini-2"; every other agent gets an
    error. *)
Theorem X2_setupCFC_accepts (curAgent : Agent) :
  runner.setupCFC curAgent = None <->
  exists st m rest,
    llm curAgent = Some st /\ Model st = Some m /\
    model.Name m = "gemini-2" ++ rest.
Proof.
  unfold runner.setupCFC. split.
  - destruct (llm curAgent) as [st|]; [|done].
    destruct (Model st) as [m|] eqn:Hm; [|done].
    destruct (HasPrefix (model.Name m) "gemini-2") eqn:Hp; simpl; [|done].
    intros _. apply AgentTool.HasPrefix_spec in Hp as [rest Hrest]. by eauto 10.
  - intros (st & m & rest & -> & -> & Hname).
    assert (HasPrefix (model.Name m) "gemini-2" = true) as ->; [|done].
    apply AgentTool.HasPrefix_spec. by eauto.
Qed.

Section Scan.

Variable r : runner.Runner.
Variable fuel : nat.
Hypothesis Hwired : runner.wired r.
Hypothesis Hfuel : size (runner.rootAgent r) <= fuel.

Lemma scan_cons_passed_over e older :
  runner.passed_over r e ->
  runner.findAgentToRunScan fuel r (e :: older) =
  runner.findAgentToRunScan fuel r older.
Proof.
  intros Hskip. simpl.
  destruct (String.eqb_spec (session.Author e) "user") as [|Hu]; [done|].
  destruct Hskip as [?|[Hnone|(b & Hb & Hno)]]; [done| |].
  - simpl in Hnone. by rewrite Hnone.
  - simpl in Hb. rewrite Hb.
    apply findAgentFrom_Some in Hb as [Hin _].
    by rewrite (Resolve.isTransferable_total r b fuel Hwired Hin Hfuel), Hno.
Qed.

Lemma scan_app_passed_over newer older :
  (forall e, e ∈ newer -> runner.passed_over r e) ->
  runner.findAgentToRunScan fuel r (newer ++ older) =
  runner.findAgentToRunScan fuel r older.
Proof.
  induction newer as [|e newer IH]; intros Hall; [done|].
  change ((e :: newer) ++ older)%list with (e :: (newer ++ older))%list.
  rewrite scan_cons_passed_over by (apply Hall; left).
  apply IH. intros e' He'. apply Hall. by right.
Qed.

Lemma scan_cons_eligible e older a :
  session.Author e <> "user" ->
  runner.findAgent (Some (runner.rootAgent r)) (session.Author e) = Some a ->
  runner.allowsTransfer a = true ->
  runner.findAgentToRunScan fuel r (e :: older) = Some a.
Proof.
  intros Hu Ha Hok. simpl.
  destruct (String.eqb_spec (session.Author e) "user") as [|_]; [done|].
  simpl in Ha. rewrite Ha. apply findAgentFrom_Some in Ha as [Hin _].
  by rewrite (Resolve.isTransferable_total r a fuel Hwired Hin Hfuel), Hok.
Qed.

Lemma scan_sound events a :
  runner.findAgentToRunScan fuel r events = Some a ->
  a = runner.rootAgent r \/
  (runner.allowsTransfer a = true /\
   exists e, e ∈ events /\ session.Author e <> "user" /\
     runner.findAgent (Some (runner.rootAgent r)) (session.Author e) = Some a).
Proof.
  induction events as [|e older IH]; simpl.
  { intros [= <-]. by left. }
  assert (runner.findAgentToRunScan fuel r older = Some a ->
    a = runner.rootAgent r \/
    (runner.allowsTransfer a = true /\
     exists e0, e0 ∈ e :: older /\ session.Author e0 <> "user" /\
       runner.findAgent (Some (runner.rootAgent r)) (session.Author e0) = Some a))
    as IH'.
  { intros [?|(Hok & e0 & Hin & Hrest)]%IH; [by left|]. right.
    split; [done|]. exists e0. split; [by right | done]. }
  destruct (String.eqb_spec (session.Author e) "user") as [|Hu]; [done|].
  destruct (runner.findAgentFrom (runner.rootAgent r) (session.Author e))
    as [b|] eqn:Hb; [|done].
  pose proof (findAgentFrom_Some _ _ _ Hb) as [Hin _].
  rewrite (Resolve.isTransferable_total r b fuel Hwired Hin Hfuel).
  destruct (runner.allowsTransfer b) eqn:Hok; [|done].
  intros [= <-]. right. split; [done|]. exists e. split; [left | done].
Qed.

End Scan.

(** X3: whatever the session holds, the agent [findAgentToRun] returns is
    the root, or an LLM agent that does not disallow transfer to its
    parent and that is found under the author name of some event of the
    session not written by "user". *)
Theorem X3_findAgentToRun_sound
    (r : runner.Runner) (s : session.Session) (fuel : nat) (a : Agent) :
  runner.wired r -> size (runner.rootAgent r) <= fuel ->
  runner.findAgentToRun fuel r s = Some a ->
  a = runner.rootAgent r \/
  (exists st, llm a = Some st /\ DisallowTransferToParent st = false) /\
  exists e, e ∈ session.Events s /\ session.Author e <> "user" /\
    runner.findAgent (Some (runner.rootAgent r)) (session.Author e) = Some a.
Proof.
  intros Hw Hfuel Hrun.
  apply (scan_sound r fuel Hw Hfuel) in Hrun as [?|(Hok & e & Hin & Hu & Ha)];
    [by left|].
  right. split.
  - unfold runner.allowsTransfer in Hok. destruct (llm a) as [st|]; [|done].
    exists st. split; [done|]. by destruct (DisallowTransferToParent st).
  - exists e. split; [|done]. by apply list_elem_of_In, in_rev, list_elem_of_In.
Qed.

(** X4: the most recent eligible event decides.  If the events after [e]
    are all passed over (written by "user", by an unknown name, or by an
    agent that fails the transfer test) and [e] is written by a known LLM
    agent that does not disallow transfer to its parent, that agent is
    returned, whatever the older events are. *)
Theorem X4_findAgentToRun_most_recent
    (r : runner.Runner) (s : session.Session) (fuel : nat)
    (older newer : list session.Event) (e : session.Event) (a : Agent) :
  runner.wired r -> size (runner.rootAgent r) <= fuel ->
  session.Events s = (older ++ e :: newer)%list ->
  (forall e', e' ∈ newer -> runner.passed_over r e') ->
  session.Author e <> "user" ->
  runner.findAgent (Some (runner.rootAgent r)) (session.Author e) = Some a ->
  runner.allowsTransfer a = true ->
  runner.findAgentToRun fuel r s = Some a.
Proof.
  intros Hw Hfuel Hev Hnewer Hu Ha Hok. unfold runner.findAgentToRun.
  rewrite Hev, rev_app_distr. simpl. rewrite <- app_assoc. simpl.
  rewrite (scan_app_passed_over r fuel Hw Hfuel).
  - by apply (scan_cons_eligible r fuel Hw Hfuel).
  - intros e' He'. apply Hnewer.
    by apply list_elem_of_In, in_rev, list_elem_of_In.
Qed.

(** X5: when every event of the session is passed over, the root agent
    handles the turn; in particular an agent that disallows transfer to
    its parent, or that is not an LLM agent, never keeps the
    conversation. *)
Theorem X5_findAgentToRun_fallback
    (r : runner.Runner) (s : session.Session) (fuel : nat) :
  runner.wired r -> size (runner.rootAgent r) <= fuel ->
  (forall e, e ∈ session.Events s -> runner.passed_over r e) ->
  runner.findAgentToRun fuel r s = Some (runner.rootAgent r).
Proof.
  intros Hw Hfuel Hall. unfold runner.findAgentToRun.
  rewrite <- (app_nil_r (rev _)).
  rewrite (scan_app_passed_over r fuel Hw Hfuel); [done|].
  intros e He. apply Hall. by apply list_elem_of_In, in_rev, list_elem_of_In.
Qed.

End ResolveMore.

(** ** More about the drive loop *)

Module DriveMore.

Import agent runner.

Section WithEnv.

Variable env : Env.

(** Induction over the trace of a drive, segment by segment. *)
Lemma drive_effects_segments (P : list Effect -> Prop) hist items :
  P [] ->
  (forall ev err tl,
     P tl -> P (Pulled (ItemError ev err) :: Yield ev (Some err) :: tl)) ->
  (forall e tl, isPartial e = true ->
     P tl -> P (Pulled (ItemEvent e) :: Yield (Some e) None :: tl)) ->
  (forall e tl, isPartial e = false ->
     P tl ->
     P (Pulled (ItemEvent e) :: AppendEvent e None :: Yield (Some e) None :: tl)) ->
  (forall e err, isPartial e = false ->
     P [Pulled (ItemEvent e); AppendEvent e (Some err);
        Yield None (Some (Errorf "failed to add event to session: " err))]) ->
  P (drive_effects env hist items).
Proof.
  intros Hnil Herr Hpart Hfinal Hfail. revert hist.
  induction items as [|item rest IH]; intros hist; [done|].
  simpl. destruct item as [e|ev err]; simpl.
  - destruct (isPartial e) eqn:Hp.
    + destruct (caller_continues env _); simpl; by auto.
    + destruct (sessionService_AppendEvent env _ e); [by auto|].
      destruct (caller_continues env _); simpl; by auto.
  - destruct (caller_continues env _); simpl; by auto.
Qed.

(** X6: the caller receives exactly one pair for every item pulled from
    the agent, whatever the items are and however the turn ends. *)
Theorem X6_one_pair_per_item items st :
  let new := effects_since st (drive env items st) in
  length (relayed new) = length (pulled_items new).
Proof.
  cbv zeta. rewrite Drive.drive_effects_since.
  apply drive_effects_segments; try done; intros; simpl; by f_equal.
Qed.

(** X7: what a drive adds to the session's event log is exactly the
    non-partial events the caller received without an error, in the same
    order: no event is logged without being relayed, and no final event is
    relayed without being logged. *)
Theorem X7_log_matches_relayed items st :
  let new := effects_since st (drive env items st) in
  committed new = List.filter responseAbsentOrFinal (relayed_events new).
Proof.
  cbv zeta. rewrite Drive.drive_effects_since.
  apply drive_effects_segments; try done.
  - intros [e|] err tl IH; done.
  - intros e tl Hp IH.
    change (committed (Pulled (ItemEvent e) :: Yield (Some e) None :: tl))
      with (committed tl).
    change (relayed_events (Pulled (ItemEvent e) :: Yield (Some e) None :: tl))
      with (e :: relayed_events tl).
    simpl. by rewrite Drive.responseAbsentOrFinal_isPartial, Hp.
  - intros e tl Hp IH.
    change (committed (Pulled (ItemEvent e) :: AppendEvent e None
                       :: Yield (Some e) None :: tl))
      with (e :: committed tl).
    change (relayed_events (Pulled (ItemEvent e) :: AppendEvent e None
                            :: Yield (Some e) None :: tl))
      with (e :: relayed_events tl).
    simpl. by rewrite Drive.responseAbsentOrFinal_isPartial, Hp, IH.
Qed.

(** X8: the loop pulls the agent's items in order and never skips one:
    the items pulled are a prefix of the agent's output. *)
Theorem X8_pulled_prefix items st :
  pulled_items (effects_since st (drive env items st)) `prefix_of` items.
Proof.
  rewrite Drive.drive_effects_since. generalize (trace st) as hist.
  induction items as [|item rest IH]; intros hist; [done|].
  simpl. destruct (Drive.segment_shape env hist item) as (tail & Hseg & Htail).
  destruct (segment env hist item) as [seg more]. simpl in Hseg. subst seg.
  destruct more.
  - change (pulled_items ((Pulled item :: tail) ++ ?l))
      with (item :: pulled_items (tail ++ l)).
    rewrite Drive.pulled_items_app, Htail. simpl.
    by apply prefix_cons.
  - change (pulled_items (Pulled item :: tail)) with (item :: pulled_items tail).
    rewrite Htail. apply prefix_cons, prefix_nil.
Qed.

(** Once the caller's [yield] has answered [false], the loop is over. *)
Lemma drive_stop_ends hist items pre ev err post :
  drive_effects env hist items = (pre ++ Yield ev err :: post)%list ->
  caller_continues env (hist ++ pre ++ [Yield ev err]) = false ->
  post = [].
Proof.
  revert pre hist. induction items as [|item rest IH]; intros pre hist Heq Hstop.
  { by destruct pre. }
  simpl in Heq.
  assert (forall seg pre',
    pre = (seg ++ pre')%list ->
    drive_effects env (hist ++ seg) rest = (pre' ++ Yield ev err :: post)%list ->
    post = []) as Hlater.
  { intros seg pre' -> Hrest. apply (IH pre' (hist ++ seg)%list Hrest).
    by rewrite <- !app_assoc in *. }
  destruct item as [e|ev0 err0]; simpl in Heq.
  - destruct (isPartial e).
    + destruct (caller_continues env (hist ++ _)) eqn:Hmore; simpl in Heq.
      * destruct pre as [|? [|? pre]]; simplify_eq/=.
        -- by rewrite Hmore in Hstop.
        -- by eapply (Hlater [_; _]).
      * destruct pre as [|? [|? pre]]; simplify_eq/=; [done|].
        by destruct pre.
    + destruct (sessionService_AppendEvent env _ e) as [aerr|].
      * destruct pre as [|? [|? [|? pre]]]; simplify_eq/=; [done|].
        by destruct pre.
      * destruct (caller_continues env (hist ++ _)) eqn:Hmore; simpl in Heq.
        -- destruct pre as [|? [|? [|? pre]]]; simplify_eq/=.
           ++ by rewrite Hmore in Hstop.
           ++ by eapply (Hlater [_; _; _]).
        -- destruct pre as [|? [|? [|? pre]]]; simplify_eq/=; [done|].
           by destruct pre.
  - destruct (caller_continues env (hist ++ _)) eqn:Hmore; simpl in Heq.
    + destruct pre as [|? [|? pre]]; simplify_eq/=.
      * by rewrite Hmore in Hstop.
      * by eapply (Hlater [_; _]).
    + destruct pre as [|? [|? pre]]; simplify_eq/=; [done|].
      by destruct pre.
Qed.

(** X10: with a caller that pulls to the end and a session service that
    accepts every append, the drive handles every item of the agent: all
    are pulled, and the log gains every non-partial event among them. *)
Theorem X10_drive_to_the_end items st :
  (forall tr, caller_continues env tr = true) ->
  (forall tr e, sessionService_AppendEvent env tr e = None) ->
  let new := effects_since st (drive env items st) in
  pulled_items new = items /\
  committed new = List.filter responseAbsentOrFinal (pulled_events new).
Proof.
  intros Hcaller Hsvc. cbv zeta. rewrite Drive.drive_effects_since.
  generalize (trace st) as hist.
  induction items as [|item rest IH]; intros hist; [done|].
  simpl. destruct item as [e|ev err]; simpl.
  - destruct (isPartial e) eqn:Hp.
    + rewrite Hcaller. destruct (IH (hist ++ [Pulled (ItemEvent e);
                                              Yield (Some e) None])%list) as [IH1 IH2].
      set (tl := drive_effects env _ rest) in *.
      change (pulled_items ([Pulled (ItemEvent e); Yield (Some e) None] ++ tl))
        with (ItemEvent e :: pulled_items tl).
      change (committed ([Pulled (ItemEvent e); Yield (Some e) None] ++ tl))
        with (committed tl).
      change (pulled_events ([Pulled (ItemEvent e); Yield (Some e) None] ++ tl))
        with (e :: pulled_events tl).
      simpl. by rewrite IH1, IH2, Drive.responseAbsentOrFinal_isPartial, Hp.
    + rewrite Hsvc, Hcaller.
      destruct (IH (hist ++ [Pulled (ItemEvent e); AppendEvent e None;
                             Yield (Some e) None])%list) as [IH1 IH2].
      set (tl := drive_effects env _ rest) in *.
      change (pulled_items ([Pulled (ItemEvent e); AppendEvent e None;
                             Yield (Some e) None] ++ tl))
        with (ItemEvent e :: pulled_items tl).
      change (committed ([Pulled (ItemEvent e); AppendEvent e None;
                          Yield (Some e) None] ++ tl))
        with (e :: committed tl).
      change (pulled_events ([Pulled (ItemEvent e); AppendEvent e None;
                              Yield (Some e) None] ++ tl))
        with (e :: pulled_events tl).
      simpl. by rewrite IH1, IH2, Drive.responseAbsentOrFinal_isPartial, Hp.
  - rewrite Hcaller. destruct (IH (hist ++ [Pulled (ItemError ev err);
                                            Yield ev (Some err)])%list) as [IH1 IH2].
    set (tl := drive_effects env _ rest) in *.
    change (pulled_items (Pulled (ItemError ev err) :: Yield ev (Some err) :: tl))
      with (ItemError ev err :: pulled_items tl).
    change (committed (Pulled (ItemError ev err) :: Yield ev (Some err) :: tl))
      with (committed tl).
    change (pulled_events (Pulled (ItemError ev err) :: Yield ev (Some err) :: tl))
      with (pulled_events tl).
    by rewrite IH1, IH2.
Qed.

End WithEnv.

End DriveMore.

(** ** More about the inbound message *)

Module InboundMore.

Import agent runner.

Section WithEnv.

Variable env : Env.





End WithEnv.

End InboundMore.

(** ** More about a whole turn *)

Module TurnMore.

Import agent runner.

Section WithEnv.

Variable env : Env.

Lemma split_at_later {A} (l1 l2 pre post : list A) y :
  (l1 ++ l2 = pre ++ y :: post)%list -> y ∉ l1 ->
  exists pre', pre = (l1 ++ pre')%list /\ l2 = (pre' ++ y :: post)%list.
Proof.
  intros Heq Hy. apply app_eq_inv in Heq as [(k & -> & Hk)|(k & -> & ->)].
  - destruct k as [|z k]; simpl in Hk.
    + exists []. by rewrite !app_nil_r.
    + injection Hk as <- _. exfalso. apply Hy. set_solver.
  - by exists k.
Qed.

(** A turn only adds to the trace. *)
Lemma Run_extends fuel r userID sessionID msg cfg st st' :
  wired r -> size (rootAgent r) <= fuel ->
  Run env fuel r userID sessionID msg cfg st = Some st' ->
  trace st' = (trace st ++ effects_since st st')%list.
Proof.
  intros Hw Hfuel HRun.
  assert (exists new, trace st' = (trace st ++ new)%list) as [new Hnew].
  2:{ unfold effects_since. by rewrite Hnew, drop_app_length. }
  destruct (Turn.Run_shape env fuel r userID sessionID msg cfg st Hw Hfuel)
    as (st'' & HRun' & Hcases).
  rewrite HRun in HRun'. injection HRun' as <-.
  assert (forall res st1,
    appendMessageToSession env r msg (SaveInputBlobsAsArtifacts cfg)
      (ext st [Get (appName r) userID sessionID
                 (sessionService_Get env (trace st) (appName r) userID sessionID)])
      = (res, st1) ->
    exists x, trace st1 = (trace st ++ x)%list) as Hstep.
  { intros res st1 Happ. apply Inbound.appendMessage_trace in Happ.
    destruct msg as [l|].
    - destruct Happ as (saves & _ & [(? & _ & -> & _)|(? & -> & _)]);
        simpl; rewrite <- app_assoc; by eexists.
    - destruct Happ as [_ ->]. simpl. by eexists. }
  destruct Hcases as [(? & _ & ->)|[(? & ? & ? & _ & _ & _ & _ & ->)|
    [(? & ? & ? & st1 & _ & _ & Happ & ->)|(? & ? & st1 & _ & _ & Happ & ->)]]].
  - simpl. rewrite <- app_assoc. by eexists.
  - simpl. rewrite <- app_assoc. by eexists.
  - apply Hstep in Happ as [new1 Hx]. simpl. rewrite Hx, <- app_assoc.
    by eexists.
  - apply Hstep in Happ as [new1 Hx]. rewrite Drive.drive_eq. simpl.
    rewrite Hx, <- app_assoc. by eexists.
Qed.

(** Once the caller's [yield] has answered [false], the turn is over,
    wherever in the turn that happens. *)
Lemma Run_stop_ends fuel r userID sessionID msg cfg st st' pre ev err post :
  wired r -> size (rootAgent r) <= fuel ->
  Run env fuel r userID sessionID msg cfg st = Some st' ->
  effects_since st st' = (pre ++ Yield ev err :: post)%list ->
  caller_continues env (trace st ++ pre ++ [Yield ev err]) = false ->
  post = [].
Proof.
  intros Hw Hfuel HRun Heq Hstop.
  destruct (Turn.Run_anatomy env fuel r userID sessionID msg cfg st Hw Hfuel)
    as (st'' & st1 & x & tail & drv & HRun' & Heff & Htr & _ & Hcases).
  rewrite HRun in HRun'. injection HRun' as <-. rewrite Heff in Heq.
  assert (forall e1 e2, Yield e1 e2 ∉ x) as Hx.
  { destruct Hcases as [(-> & _)|[(_ & err0 & Happ & _)|(_ & Happ & _)]].
    - simpl in Htr. rewrite <- (app_nil_r (_ ++ [_])) in Htr at 1.
      apply app_inv_head in Htr as <-. intros ? ?. apply not_elem_of_nil.
    - by destruct (Inbound.appendMessage_effects env _ _ _ _ _ _ x Happ Htr)
        as (_ & ? & _).
    - by destruct (Inbound.appendMessage_effects env _ _ _ _ _ _ x Happ Htr)
        as (_ & ? & _). }
  change (Get (appName r) userID sessionID
            (sessionService_Get env (trace st) (appName r) userID sessionID)
          :: x ++ tail ++ drv)%list
    with (([Get (appName r) userID sessionID
             (sessionService_Get env (trace st) (appName r) userID sessionID)]
           ++ x) ++ tail ++ drv)%list in Heq.
  apply split_at_later in Heq as (pre' & -> & Heq).
  2:{ intros [Hin|Hin]%elem_of_app; [|by apply Hx in Hin].
      by apply list_elem_of_singleton in Hin. }
  destruct Hcases as [(_ & -> & err0 & ->)|[(-> & err0 & _ & ->)|(-> & _ & a & ->)]].
  - simpl in Heq. destruct pre' as [|? [|]]; simplify_eq/=. done.
  - simpl in Heq. destruct pre' as [|? [|]]; simplify_eq/=. done.
  - simpl in Heq. apply (DriveMore.drive_stop_ends env _ _ _ _ _ _ Heq).
    rewrite Htr. simpl. by rewrite <- !app_assoc in *.
Qed.

(** X9: once the caller answers a pair by not asking for more, the turn
    is over: nothing is pulled, saved, appended or relayed after that
    pair, whether it came from the agent or from the runner itself. *)
Theorem X9_caller_stop_ends_turn fuel r userID sessionID msg cfg st st'
    pre ev err post :
  wired r -> size (rootAgent r) <= fuel ->
  Run env fuel r userID sessionID msg cfg st = Some st' ->
  effects_since st st' = (pre ++ Yield ev err :: post)%list ->
  caller_continues env (trace st ++ pre ++ [Yield ev err]) = false ->
  post = [].
Proof. apply Run_stop_ends. Qed.

End WithEnv.

End TurnMore.

(** ** More about the agent tool *)

Module AgentToolMore.

Import agent agenttool.

Lemma drainEvents_error pre ev err post lastEvent :
  (forall ev' err', runner.Yield ev' (Some err') ∉ pre) ->
  drainEvents (pre ++ runner.Yield ev (Some err) :: post) lastEvent = inl err.
Proof.
  revert lastEvent. induction pre as [|ef pre IH]; intros lastEvent Hpre.
  { by destruct ev. }
  assert (forall l, drainEvents (pre ++ runner.Yield ev (Some err) :: post) l
                    = inl err) as IH'.
  { intros l. apply IH. intros ev' err' Hin. apply (Hpre ev' err'). by right. }
  destruct ef as [| | | |[e|] [err0|]]; simpl; try apply IH'.
  - exfalso. apply (Hpre (Some e) err0). by left.
  - destruct (session.LLMResponse e) as [resp|]; [|apply IH'].
    destruct (model.Content resp); apply IH'.
  - exfalso. apply (Hpre None err0). by left.
Qed.

Lemma drainEvents_clean tr lastEvent :
  (forall ev err, runner.Yield ev (Some err) ∉ tr) ->
  drainEvents tr lastEvent =
    inr (match last (List.filter hasContent (runner.relayed_events tr)) with
         | Some e => Some e
         | None => lastEvent
         end).
Proof.
  revert lastEvent. induction tr as [|ef tr IH]; intros lastEvent Htr.
  { done. }
  assert (forall l, drainEvents tr l =
    inr (match last (List.filter hasContent (runner.relayed_events tr)) with
         | Some e => Some e
         | None => l
         end)) as IH'.
  { intros l. apply IH. intros ev err Hin. apply (Htr ev err). by right. }
  destruct ef as [| | | |[e|] [err0|]];
    try (change (runner.relayed_events (?x :: tr))
           with (runner.relayed_events tr); simpl; apply IH').
  - exfalso. apply (Htr (Some e) err0). by left.
  - change (runner.relayed_events (runner.Yield (Some e) None :: tr))
      with (e :: runner.relayed_events tr).
    simpl. unfold hasContent.
    destruct (session.LLMResponse e) as [resp|]; [|apply IH'].
    destruct (model.Content resp); [|apply IH'].
    rewrite IH'. rewrite last_cons.
    by destruct (last (List.filter _ _)).
  - exfalso. apply (Htr None err0). by left.
Qed.

(** X12: the loop over the nested turn's output returns the first error
    relayed, whatever follows it; when no error is relayed it returns the
    last relayed event that carries content, or what it started with if
    there is none. *)
Theorem X12_drainEvents_first_error_or_last_content tr lastEvent :
  (forall pre ev err post,
     tr = (pre ++ runner.Yield ev (Some err) :: post)%list ->
     (forall ev' err', runner.Yield ev' (Some err') ∉ pre) ->
     drainEvents tr lastEvent = inl err) /\
  ((forall ev err, runner.Yield ev (Some err) ∉ tr) ->
   drainEvents tr lastEvent =
     inr (match last (List.filter hasContent (runner.relayed_events tr)) with
          | Some e => Some e
          | None => lastEvent
          end)).
Proof.
  split.
  - intros pre ev err post -> Hpre. by apply drainEvents_error.
  - apply drainEvents_clean.
Qed.

Section Run.

Variable ValidateMapOnSchema :
  gmap string any -> genai.Schema -> bool -> option error.
Variable json_Marshal : gmap string any -> error + string.
Variable ValidateOutputSchema :
  string -> genai.Schema -> error + gmap string any.
Variable InMemory_Create :
  string -> string -> gmap string any -> error + session.Session.
Variable sub : runner.Env.
Variable contents : gmap loc genai.Content.

(** X13: a sub-agent is abandoned at the first error its turn relays:
    that pair is the last effect of the nested turn (nothing more is
    pulled, appended or relayed), no pair before it carried an error, and
    the tool call fails with that error, wrapped. *)
Theorem X13_sub_agent_abandoned_at_first_error fuel t toolCtx args w
    out actions w' sessions artifacts memories turn pre ev err post :
  size (agent t) <= fuel ->
  Run ValidateMapOnSchema json_Marshal ValidateOutputSchema InMemory_Create
      sub contents fuel t toolCtx args w = Some (out, actions, w') ->
  RunnerRun sessions artifacts memories turn
    ∈ drop (length (trace w)) (trace w') ->
  turn = (pre ++ runner.Yield ev (Some err) :: post)%list ->
  post = [] /\
  (forall ev' err', runner.Yield ev' (Some err') ∉ pre) /\
  out = inl (Errorf ("error during execution of sub-agent "
                     ++ Name (agent t) ++ ": ") err).
Proof.
  intros Hfuel HRun Hin Hturn. unfold Run in HRun.
  destruct args as [margs|typeName].
  2:{ injection HRun as <- <- <-. by rewrite drop_all in Hin;
        apply elem_of_nil in Hin. }
  destruct (inputContent _ _ t margs) as [err0|content].
  { injection HRun as <- <- <-. by rewrite drop_all in Hin;
      apply elem_of_nil in Hin. }
  unfold InMemoryService in HRun. simpl in HRun.
  destruct (runner.New _) as [err0|r] eqn:Hnew.
  { injection HRun as <- <- <-. simpl in Hin.
    rewrite <- !app_assoc, drop_app_length in Hin.
    apply list_elem_of_In in Hin. simpl in Hin. intuition congruence. }
  destruct (InMemory_Create _ _ _) as [err0|subSession] eqn:Hcreate.
  { injection HRun as <- <- <-. simpl in Hin.
    rewrite <- !app_assoc, drop_app_length in Hin.
    apply list_elem_of_In in Hin. simpl in Hin. intuition congruence. }
  assert (runner.wired r /\ runner.rootAgent r = agent t) as [Hw Hroot].
  { unfold runner.New in Hnew. simpl in Hnew.
    destruct (parentmap.New (agent t)) as [parents|] eqn:Hp; [|done].
    injection Hnew as <-. split; [by right | done]. }
  rewrite <- Hroot in Hfuel.
  destruct (runner.Run (as_caller sub) fuel r _ _ _ _ _) as [st|] eqn:Hsub;
    [|done].
  assert (turn = runner.trace st) as Htr.
  { destruct (drainEvents (runner.trace st) None);
      injection HRun as <- <- <-; simpl in Hin;
      rewrite <- !app_assoc, drop_app_length in Hin;
      apply list_elem_of_In in Hin; simpl in Hin;
      destruct Hin as [?|[?|[?|[?|[Heq|[]]]]]]; try discriminate;
      by injection Heq. }
  assert (forall pre0 ev0 err0 post0,
    runner.trace st = (pre0 ++ runner.Yield ev0 (Some err0) :: post0)%list ->
    post0 = []) as Hstop.
  { intros pre0 ev0 err0 post0 Hsplit.
    apply (TurnMore.Run_stop_ends (as_caller sub) fuel r _ _ _ _ _ st
             pre0 ev0 (Some err0) post0 Hw Hfuel Hsub).
    - unfold runner.effects_since. simpl. by rewrite drop_0.
    - simpl. by rewrite last_snoc. }
  rewrite Htr in Hturn.
  assert (forall ev' err', runner.Yield ev' (Some err') ∉ pre) as Hpre.
  { intros ev' err' (p1 & p2 & ->)%list_elem_of_split.
    rewrite <- app_assoc in Hturn. simpl in Hturn.
    apply Hstop in Hturn. by destruct p2. }
  split; [by eapply Hstop|]. split; [done|].
  rewrite Hturn, (drainEvents_error pre ev err post None Hpre) in HRun.
  by injection HRun as <- <- <-.
Qed.

End Run.

Section Request.

Variable Description : Agent -> string.
Variable Quote : string -> string.

(** The [return nil] of [Declaration] cannot be reached. *)
Lemma Declaration_Some t :
  Declaration Description t =
    Some {| genai.Name := Name (agent t);
            genai.Description := Description (agent t);
            genai.Parameters :=
              Some match llm (agent t) with
                   | Some st => default requestSchema (InputSchema st)
                   | None => requestSchema
                   end |}.
Proof.
  unfold Declaration, toolName. destruct (llm (agent t)) as [st|]; [|done].
  by destruct (InputSchema st).
Qed.

Lemma funcTool_declares configTools tools l :
  funcTool configTools tools = Some l ->
  exists pre post fds,
    configTools = (pre ++ Some l :: post)%list /\
    Forall (fun x => ~ declares tools x) pre /\
    tools !! l = Some {| genai.FunctionDeclarations := Some fds |}.
Proof.
  induction configTools as [|x rest IH]; [done|]. simpl.
  destruct x as [l0|].
  - destruct (tools !! l0) as [[[fds|]]|] eqn:Hl0.
    + intros [= <-]. exists [], rest, fds. by split; [|split].
    + intros (pre & post & fds & -> & Hpre & Hl)%IH.
      exists (Some l0 :: pre), post, fds. split; [done|]. split; [|done].
      constructor; [|done]. intros (l1 & fds1 & [= <-] & Hl1). congruence.
    + intros (pre & post & fds & -> & Hpre & Hl)%IH.
      exists (Some l0 :: pre), post, fds. split; [done|]. split; [|done].
      constructor; [|done]. intros (l1 & fds1 & [= <-] & Hl1). congruence.
  - intros (pre & post & fds & -> & Hpre & Hl)%IH.
    exists (None :: pre), post, fds. split; [done|]. split; [|done].
    constructor; [|done]. by intros (l1 & fds1 & [=] & _).
Qed.

Lemma funcTool_None configTools tools :
  funcTool configTools tools = None ->
  Forall (fun x => ~ declares tools x) configTools.
Proof.
  induction configTools as [|x rest IH]; [done|]. simpl.
  destruct x as [l0|].
  - destruct (tools !! l0) as [[[fds|]]|] eqn:Hl0; [done|..];
      intros Hrest%IH; constructor; try done;
      intros (l1 & fds1 & [= <-] & Hl1); congruence.
  - intros Hrest%IH. constructor; [|done]. by intros (l1 & fds1 & [=] & _).
Qed.

(** Once a tool object holds declarations it stays the one found. *)
Lemma funcTool_same configTools tools l fds :
  funcTool configTools tools = Some l ->
  funcTool configTools
    (<[l := {| genai.FunctionDeclarations := Some fds |}]> tools) = Some l.
Proof.
  induction configTools as [|x rest IH]; [done|]. simpl.
  destruct x as [l0|]; [|done].
  destruct (decide (l0 = l)) as [->|Hne].
  { by rewrite lookup_insert_eq. }
  rewrite lookup_insert_ne by done.
  destruct (tools !! l0) as [[[fds0|]]|]; [congruence|done..].
Qed.

Lemma funcTool_appended configTools tools l fds :
  funcTool configTools tools = None ->
  funcTool (configTools ++ [Some l])
    (<[l := {| genai.FunctionDeclarations := Some fds |}]> tools) = Some l.
Proof.
  induction configTools as [|x rest IH]; simpl.
  { by rewrite lookup_insert_eq. }
  destruct x as [l0|]; [|done].
  destruct (decide (l0 = l)) as [->|Hne].
  { by rewrite lookup_insert_eq. }
  rewrite lookup_insert_ne by done.
  destruct (tools !! l0) as [[[fds0|]]|]; [done|done..].
Qed.

(** What a call does when the name is free. *)
Lemma ProcessRequest_free t req tools :
  default ∅ (Tools req) !! toolName t = None ->
  exists decl l cfg',
    Declaration Description t = Some decl /\
    ProcessRequest Description Quote t req tools =
      (None,
       {| Tools := Some (<[toolName t := AgentTool t]> (default ∅ (Tools req)));
          Config := Some cfg' |},
       <[l := {| genai.FunctionDeclarations :=
                   Some (decls_of tools l ++ [decl])%list |}]> tools) /\
    funcTool (genai.Tools cfg')
      (<[l := {| genai.FunctionDeclarations :=
                   Some (decls_of tools l ++ [decl])%list |}]> tools) = Some l /\
    let old := genai.Tools (default {| genai.Tools := [] |} (Config req)) in
    ((exists pre post,
        old = (pre ++ Some l :: post)%list /\
        Forall (fun x => ~ declares tools x) pre /\
        declares tools (Some l) /\
        genai.Tools cfg' = old) \/
     (Forall (fun x => ~ declares tools x) old /\
      tools !! l = None /\
      genai.Tools cfg' = (old ++ [Some l])%list)).
Proof.
  intros Hfree. unfold ProcessRequest. rewrite Hfree.
  rewrite Declaration_Some. eexists. 
  destruct (funcTool _ tools) as [l|] eqn:Hfind.
  - exists l. eexists. split; [done|]. split; [done|].
    split; [by apply funcTool_same|]. left.
    apply funcTool_declares in Hfind as (pre & post & fds & Hold & Hpre & Hl).
    exists pre, post. split; [done|]. split; [done|]. split; [|done].
    by exists l, fds.
  - exists (fresh (dom tools)). eexists.
    assert (tools !! fresh (dom tools) = None) as Hnew.
    { apply not_elem_of_dom, is_fresh. }
    split; [done|]. split.
    { unfold decls_of. by rewrite Hnew. }
    split.
    { unfold decls_of. rewrite Hnew. simpl. by apply funcTool_appended. }
    right. split; [by apply funcTool_None|]. done.
Qed.

(** X14: [ProcessRequest] fails exactly when the request already holds a
    tool under this tool's name, and then it leaves the request and the
    tool objects as they were.  After any call the name is taken, so that
    a second call for the same tool fails and changes nothing. *)
Theorem X14_ProcessRequest_duplicate t req tools :
  let '(err, req', tools') := ProcessRequest Description Quote t req tools in
  (err <> None <->
   exists m, Tools req = Some m /\ is_Some (m !! toolName t)) /\
  (err <> None ->
   err = Some ("duplicate tool: " ++ Quote (toolName t)) /\
   req' = req /\ tools' = tools) /\
  ProcessRequest Description Quote t req' tools' =
    (Some ("duplicate tool: " ++ Quote (toolName t)), req', tools').
Proof.
  destruct (default ∅ (Tools req) !! toolName t) as [x|] eqn:Hlook.
  - unfold ProcessRequest at 1. rewrite Hlook.
    destruct req as [[m|] cfg]; simpl in Hlook; [|by rewrite lookup_empty in Hlook].
    simpl. split; [|split].
    + split; [|done]. intros _. exists m. by split; [|exists x].
    + done.
    + unfold ProcessRequest. simpl. by rewrite Hlook.
  - destruct (ProcessRequest_free t req tools Hlook)
      as (decl & l & cfg' & _ & -> & _).
    split; [|split].
    + split; [done|]. intros (m & Hm & x & Hx). rewrite Hm in Hlook.
      simpl in Hlook. congruence.
    + done.
    + unfold ProcessRequest. simpl. by rewrite lookup_insert_eq.
Qed.

(** X15: when the name is free the call succeeds; it registers the tool
    under its name, keeping the other entries, and adds one declaration,
    carrying the tool's name, at the end of the declarations of one tool
    object: the first entry of [Config.Tools] that is not nil and has
    non-nil declarations, or else a new object appended to
    [Config.Tools].  No other tool object is touched. *)
Theorem X15_ProcessRequest_registers t req tools :
  default ∅ (Tools req) !! toolName t = None ->
  exists decl l cfg' tools',
    genai.Name decl = Name (agent t) /\
    ProcessRequest Description Quote t req tools =
      (None,
       {| Tools := Some (<[toolName t := AgentTool t]> (default ∅ (Tools req)));
          Config := Some cfg' |},
       tools') /\
    decls_of tools' l = (decls_of tools l ++ [decl])%list /\
    (forall l', l' <> l -> tools' !! l' = tools !! l') /\
    let old := genai.Tools (default {| genai.Tools := [] |} (Config req)) in
    ((exists pre post,
        old = (pre ++ Some l :: post)%list /\
        Forall (fun x => ~ declares tools x) pre /\
        declares tools (Some l) /\
        genai.Tools cfg' = old) \/
     (Forall (fun x => ~ declares tools x) old /\
      tools !! l = None /\
      genai.Tools cfg' = (old ++ [Some l])%list)).
Proof.
  intros Hfree.
  destruct (ProcessRequest_free t req tools Hfree)
    as (decl & l & cfg' & Hdecl & HPR & _ & Hwhere).
  exists decl, l, cfg'. eexists. split; [|split; [exact HPR|]].
  { rewrite Declaration_Some in Hdecl. by injection Hdecl as <-. }
  split; [|split; [|done]].
  - unfold decls_of at 1. by rewrite lookup_insert_eq.
  - intros l' Hne. by rewrite lookup_insert_ne.
Qed.

(** X16: two tools with different names, processed one after the other
    on a request that holds neither, both succeed, both end up
    registered, and their declarations are added, in call order, to one
    and the same tool object, while all other tool objects stay as they
    were. *)
Theorem X16_ProcessRequest_gathers t1 t2 req tools :
  toolName t1 <> toolName t2 ->
  default ∅ (Tools req) !! toolName t1 = None ->
  default ∅ (Tools req) !! toolName t2 = None ->
  exists d1 d2 l req1 tools1 req2 tools2 m,
    ProcessRequest Description Quote t1 req tools = (None, req1, tools1) /\
    ProcessRequest Description Quote t2 req1 tools1 = (None, req2, tools2) /\
    genai.Name d1 = Name (agent t1) /\ genai.Name d2 = Name (agent t2) /\
    decls_of tools2 l = (decls_of tools l ++ [d1; d2])%list /\
    (forall l', l' <> l -> tools2 !! l' = tools !! l') /\
    Tools req2 = Some m /\
    m !! toolName t1 = Some (AgentTool t1) /\
    m !! toolName t2 = Some (AgentTool t2).
Proof.
  intros Hne Hfree1 Hfree2.
  destruct (ProcessRequest_free t1 req tools Hfree1)
    as (d1 & l & cfg1 & Hd1 & HPR1 & Hfind & _).
  set (req1 := {| Tools := Some (<[toolName t1 := AgentTool t1]>
                                   (default ∅ (Tools req)));
                  Config := Some cfg1 |}) in *.
  set (tools1 := <[l := {| genai.FunctionDeclarations :=
                             Some (decls_of tools l ++ [d1])%list |}]> tools) in *.
  destruct (ProcessRequest_free t2 req1 tools1) as
    (d2 & l2 & cfg2 & Hd2 & HPR2 & _ & _).
  { simpl. by rewrite lookup_insert_ne. }
  assert (l2 = l /\ cfg2 = cfg1) as [-> ->].
  { revert HPR2. unfold ProcessRequest.
    replace (default ∅ (Tools req1) !! toolName t2) with (@None registered)
      by (simpl; by rewrite lookup_insert_ne).
    rewrite Hd2. simpl. rewrite Hfind. intros [= -> Hins].
    split; [|done].
    apply (f_equal (fun m => m !! l)) in Hins.
    destruct (decide (l2 = l)) as [|Hl2]; [done|].
    rewrite lookup_insert_eq, lookup_insert_ne in Hins by done.
    assert (tools1 !! l = Some {| genai.FunctionDeclarations :=
                                    Some (decls_of tools l ++ [d1])%list |})
      as Hl by (unfold tools1; by rewrite lookup_insert_eq).
    unfold decls_of at 1 in Hins. rewrite Hl in Hins. simpl in Hins.
    injection Hins as Hins. apply (f_equal length) in Hins.
    rewrite !length_app in Hins. simpl in Hins. lia. }
  rewrite Declaration_Some in Hd1, Hd2.
  exists d1, d2, l. do 5 eexists.
  split; [exact HPR1|]. split; [exact HPR2|].
  split; [by injection Hd1 as <-|]. split; [by injection Hd2 as <-|].
  split; [|split; [|split; [done|split]]].
  - unfold decls_of at 1. rewrite lookup_insert_eq. simpl.
    unfold decls_of at 1. unfold tools1. rewrite lookup_insert_eq. simpl.
    by rewrite <- app_assoc.
  - intros l' Hl'. unfold tools1. by rewrite !lookup_insert_ne.
  - simpl. rewrite lookup_insert_ne by done. by rewrite lookup_insert_eq.
  - by rewrite lookup_insert_eq.
Qed.

End Request.

End AgentToolMore.

Module MoreExamples.

Import agent runner Fixtures.

Lemma X3_findAgentToRun_sound_witness :
  allows_transfer_agent = rootAgent (newRunner root) \/
  (exists st, llm allows_transfer_agent = Some st /\
              DisallowTransferToParent st = false) /\
  exists e, e ∈ session.Events (sessionOf [eventBy "no_transfer_agent";
                                           eventBy "allows_transfer_agent";
                                           eventBy "user"]) /\
    session.Author e <> "user" /\
    findAgent (Some (rootAgent (newRunner root))) (session.Author e)
      = Some allows_transfer_agent.
Proof.
  apply (ResolveMore.X3_findAgentToRun_sound (newRunner root)
           (sessionOf [eventBy "no_transfer_agent";
                       eventBy "allows_transfer_agent"; eventBy "user"]) 3).
  - right. vm_compute. reflexivity.
  - vm_compute. lia.
  - vm_compute. reflexivity.
Defined.

Lemma X4_findAgentToRun_most_recent_witness :
  findAgentToRun 3 (newRunner root)
    (sessionOf [eventBy "allows_transfer_agent";
                eventBy "no_transfer_agent"; eventBy "user"])
  = Some allows_transfer_agent.
Proof.
  apply (ResolveMore.X4_findAgentToRun_most_recent (newRunner root)
           (sessionOf [eventBy "allows_transfer_agent";
                       eventBy "no_transfer_agent"; eventBy "user"]) 3
           [] [eventBy "no_transfer_agent"; eventBy "user"]
           (eventBy "allows_transfer_agent") allows_transfer_agent).
  - right. vm_compute. reflexivity.
  - vm_compute. lia.
  - reflexivity.
  - intros e' He'. apply list_elem_of_In in He'.
    destruct He' as [<-|[<-|[]]].
    + right. right. exists no_transfer_agent. split; reflexivity.
    + left. reflexivity.
  - discriminate.
  - reflexivity.
  - reflexivity.
Defined.

Lemma X5_findAgentToRun_fallback_witness :
  findAgentToRun 3 (newRunner root)
    (sessionOf [eventBy "no_transfer_agent"; eventBy "stranger"; eventBy "user"])
  = Some (rootAgent (newRunner root)).
Proof.
  apply (ResolveMore.X5_findAgentToRun_fallback (newRunner root)
           (sessionOf [eventBy "no_transfer_agent"; eventBy "stranger";
                       eventBy "user"]) 3).
  - right. vm_compute. reflexivity.
  - vm_compute. lia.
  - intros e He. apply list_elem_of_In in He.
    destruct He as [<-|[<-|[<-|[]]]].
    + right. right. exists no_transfer_agent. split; reflexivity.
    + right. left. reflexivity.
    + left. reflexivity.
Defined.

Lemma X9_caller_stop_ends_turn_witness :
  drop 3 (effects_since emptyState
            (drive (impatientEnv [ItemEvent partialEvent; ItemEvent finalEvent])
               [ItemEvent partialEvent; ItemEvent finalEvent]
               (ext emptyState [Get "test" "userID" "sessionID"
                                  (inr (sessionOf []))]))) = [].
Proof.
  apply (TurnMore.X9_caller_stop_ends_turn
           (impatientEnv [ItemEvent partialEvent; ItemEvent finalEvent]) 3
           (newRunner root) "userID" "sessionID" None plainConfig emptyState
           (drive (impatientEnv [ItemEvent partialEvent; ItemEvent finalEvent])
              [ItemEvent partialEvent; ItemEvent finalEvent]
              (ext emptyState [Get "test" "userID" "sessionID"
                                 (inr (sessionOf []))]))
           [Get "test" "userID" "sessionID" (inr (sessionOf []));
            Pulled (ItemEvent partialEvent)]
           (Some partialEvent) None).
  - right. vm_compute. reflexivity.
  - vm_compute. lia.
  - vm_compute. reflexivity.
  - reflexivity.
  - reflexivity.
Defined.

Lemma X10_drive_to_the_end_witness :
  let new := effects_since emptyState
               (drive (quietEnv [])
                  [ItemEvent partialEvent; ItemError None "boom";
                   ItemEvent finalEvent] emptyState) in
  pulled_items new = [ItemEvent partialEvent; ItemError None "boom";
                      ItemEvent finalEvent] /\
  committed new = List.filter responseAbsentOrFinal (pulled_events new).
Proof.
  apply (DriveMore.X10_drive_to_the_end (quietEnv [])
           [ItemEvent partialEvent; ItemError None "boom"; ItemEvent finalEvent]
           emptyState).
  - reflexivity.
  - reflexivity.
Defined.


End MoreExamples.

Module AgentToolMoreExamples.

Import agent agenttool Fixtures.

Lemma X13_sub_agent_abandoned_at_first_error_witness :
  ([] : list runner.Effect) = [] /\
  (forall ev' err',
     runner.Yield ev' (Some err')
     ∉ [runner.Get "root" "userID" "sessionID" (inr (sessionOf []));
        runner.AppendEvent (runner.userEvent (quietEnv []) (fresh (dom agentContents))) None;
        runner.Pulled (runner.ItemEvent finalEvent);
        runner.AppendEvent finalEvent None;
        runner.Yield (Some finalEvent) None;
        runner.Pulled (runner.ItemError None "boom")]) /\
  (inl (Errorf ("error during execution of sub-agent " ++ Name root ++ ": ")
          "boom") : error + gmap string any)
  = inl (Errorf ("error during execution of sub-agent " ++ Name root ++ ": ")
           "boom").
Proof.
  eapply (AgentToolMore.X13_sub_agent_abandoned_at_first_error
            (fun _ _ _ => None) (fun _ => inr "{}") (fun _ _ => inr ∅)
            (fun _ _ _ => inr (sessionOf []))
            (quietEnv [runner.ItemEvent finalEvent;
                       runner.ItemError None "boom";
                       runner.ItemEvent finalEvent]) agentContents 3
            {| agent := root; skipSummarization := false |}
            toolContext (MapArgs requestArgs) freshWorld
            _ _ _ 0 1 2
            ([runner.Get "root" "userID" "sessionID" (inr (sessionOf []));
              runner.AppendEvent (runner.userEvent (quietEnv []) (fresh (dom agentContents))) None;
              runner.Pulled (runner.ItemEvent finalEvent);
              runner.AppendEvent finalEvent None;
              runner.Yield (Some finalEvent) None;
              runner.Pulled (runner.ItemError None "boom")]
             ++ runner.Yield None (Some "boom") :: [])%list).
  - vm_compute. lia.
  - vm_compute. reflexivity.
  - apply list_elem_of_In. vm_compute. tauto.
  - reflexivity.
Defined.

Lemma X15_ProcessRequest_registers_witness :
  let t := {| agent := root; skipSummarization := false |} in
  let req := {| Tools := None; Config := None |} in
  exists decl l cfg' tools',
    genai.Name decl = Name (agent t) /\
    ProcessRequest (fun _ => "the root agent") (fun name => name) t req ∅ =
      (None,
       {| Tools := Some (<[toolName t := AgentTool t]> (default ∅ (Tools req)));
          Config := Some cfg' |},
       tools') /\
    decls_of tools' l = (decls_of ∅ l ++ [decl])%list /\
    (forall l', l' <> l -> tools' !! l' = (∅ : gmap loc genai.Tool) !! l') /\
    let old := genai.Tools (default {| genai.Tools := [] |} (Config req)) in
    ((exists pre post,
        old = (pre ++ Some l :: post)%list /\
        Forall (fun x => ~ declares ∅ x) pre /\
        declares ∅ (Some l) /\
        genai.Tools cfg' = old) \/
     (Forall (fun x => ~ declares ∅ x) old /\
      (∅ : gmap loc genai.Tool) !! l = None /\
      genai.Tools cfg' = (old ++ [Some l])%list)).
Proof.
  apply (AgentToolMore.X15_ProcessRequest_registers
           (fun _ => "the root agent") (fun name => name)
           {| agent := root; skipSummarization := false |}
           {| Tools := None; Config := None |} ∅).
  reflexivity.
Defined.

Lemma X16_ProcessRequest_gathers_witness :
  let t1 := {| agent := root; skipSummarization := false |} in
  let t2 := {| agent := leaf; skipSummarization := true |} in
  let req := {| Tools := None; Config := None |} in
  exists d1 d2 l req1 tools1 req2 tools2 m,
    ProcessRequest (fun _ => "an agent") (fun name => name) t1 req ∅
      = (None, req1, tools1) /\
    ProcessRequest (fun _ => "an agent") (fun name => name) t2 req1 tools1
      = (None, req2, tools2) /\
    genai.Name d1 = Name (agent t1) /\ genai.Name d2 = Name (agent t2) /\
    decls_of tools2 l = (decls_of ∅ l ++ [d1; d2])%list /\
    (forall l', l' <> l -> tools2 !! l' = (∅ : gmap loc genai.Tool) !! l') /\
    Tools req2 = Some m /\
    m !! toolName t1 = Some (AgentTool t1) /\
    m !! toolName t2 = Some (AgentTool t2).
Proof.
  apply (AgentToolMore.X16_ProcessRequest_gathers
           (fun _ => "an agent") (fun name => name)
           {| agent := root; skipSummarization := false |}
           {| agent := leaf; skipSummarization := true |}
           {| Tools := None; Config := None |} ∅).
  - discriminate.
  - reflexivity.
  - reflexivity.
Defined.

End AgentToolMoreExamples.

(** ** The fake session service *)

Module FakeSessions.

Import fakes.

Lemma Get_stored k s :
  Get k s = match stored s k with Some sess => inr sess | None => inl "not found" end.
Proof. done. Qed.

Lemma stored_insert k sess m k' :
  stored {| Sessions := Some (<[k := sess]> m) |} k' =
    if decide (k = k') then Some sess else stored {| Sessions := Some m |} k'.
Proof.
  unfold stored. simpl. destruct (decide (k = k')) as [->|Hne].
  - by rewrite lookup_insert_eq.
  - by rewrite lookup_insert_ne.
Qed.

(** X17: [Create] with a session id that is not empty and not taken
    stores a session without events under the requested key, with the
    requested state and the current time, and hands back a copy of it;
    [Get] for that key then returns the same session, and every other
    key is answered as before.  The request is left as it was. *)
Theorem X17_Create_then_Get now req m :
  req_SessionID req <> "" ->
  m !! key_of req = None ->
  exists sess s',
    Create now req {| Sessions := Some m |} = Returned (inr sess, req, s') /\
    sess = {| Id := key_of req; SessionState := req_State req;
              SessionEvents := []; UpdatedAt := now |} /\
    Get (key_of req) s' = inr sess /\
    forall k, k <> key_of req -> Get k s' = Get k {| Sessions := Some m |}.
Proof.
  intros Hid Hfree. unfold Create. fold (key_of req).
  unfold stored at 1. simpl. rewrite Hfree.
  apply String.eqb_neq in Hid. rewrite Hid. fold (key_of req).
  do 2 eexists. split; [done|]. split; [done|]. split.
  - rewrite Get_stored, stored_insert. by rewrite decide_True.
  - intros k Hk. rewrite !Get_stored, stored_insert. by rewrite decide_False.
Qed.

(** X18: [Create] answers "session already exists" exactly when a
    session is stored under the key as the request spells it, and then
    neither the service nor the request changes. *)
Theorem X18_Create_existing now req s :
  (exists sess, stored s (key_of req) = Some sess) <->
  Create now req s = Returned (inl "session already exists", req, s).
Proof.
  unfold Create. fold (key_of req).
  destruct (stored s (key_of req)) as [sess|] eqn:Hs.
  - split; [done|]. by exists sess.
  - split; [by intros [? ?]|]. by destruct (Sessions s).
Qed.

(** X19: the existence check is made with the session id as the request
    spells it, before an empty id is replaced by "testID".  So a request
    with an empty id succeeds whenever nothing is stored under the empty
    id: it is rewritten to "testID", and the new session, which has no
    events, replaces whatever was stored under "testID".  The same request
    succeeds again on the resulting service. *)
Theorem X19_Create_empty_id now req m :
  req_SessionID req = "" ->
  m !! key_of req = None ->
  let testKey := {| AppName := req_AppName req; UserID := req_UserID req;
                    SessionID := "testID" |} in
  exists req' sess s',
    Create now req {| Sessions := Some m |} = Returned (inr sess, req', s') /\
    key_of req' = testKey /\ req_State req' = req_State req /\
    sess = {| Id := testKey; SessionState := req_State req;
              SessionEvents := []; UpdatedAt := now |} /\
    Get testKey s' = inr sess /\
    (forall k, k <> testKey -> Get k s' = Get k {| Sessions := Some m |}) /\
    forall now', exists sess' s'',
      Create now' req s' = Returned (inr sess', req', s'') /\
      Get testKey s'' = inr sess' /\ SessionEvents sess' = [].
Proof.
  intros Hid Hfree testKey.
  assert (key_of req <> testKey) as Hne.
  { unfold key_of, testKey. rewrite Hid. by intros [=]. }
  unfold Create. fold (key_of req). unfold stored at 1. simpl. rewrite Hfree, Hid.
  simpl. fold testKey. do 3 eexists. split; [done|]. split; [done|].
  split; [done|]. split; [done|]. split; [|split].
  - rewrite Get_stored, stored_insert. by rewrite decide_True.
  - intros k Hk. rewrite !Get_stored, stored_insert. by rewrite decide_False.
  - intros now'. rewrite stored_insert, decide_False by done.
    unfold stored. simpl. rewrite Hfree. do 2 eexists. split; [done|].
    split; [|done]. rewrite Get_stored, stored_insert. by rewrite decide_True.
Qed.

(** X20: [Delete] of a stored key succeeds, after which [Get] for that
    key answers "not found" and every other key is answered as before;
    [Delete] of a key that is not stored answers "not found" and changes
    nothing. *)
Theorem X20_Delete id s :
  match stored s id with
  | Some _ =>
      exists s', Delete id s = (None, s') /\
                 Get id s' = inl "not found" /\
                 Delete id s' = (Some "not found", s') /\
                 forall k, k <> id -> Get k s' = Get k s
  | None => Delete id s = (Some "not found", s)
  end.
Proof.
  unfold Delete. destruct (stored s id) as [sess|] eqn:Hs; [|done].
  eexists. split; [done|]. destruct s as [[m|]]; [|done]. simpl.
  assert (stored {| Sessions := Some (delete id m) |} id = None) as Hgone.
  { unfold stored. simpl. by rewrite lookup_delete_eq. }
  split; [by rewrite Get_stored, Hgone|]. split; [by rewrite Hgone|].
  intros k Hk. rewrite !Get_stored. unfold stored. simpl.
  by rewrite lookup_delete_ne.
Qed.

(** X21: [AppendEvent] through a [*TestSession] never checks that the
    session is stored: it appends the event to the handle's own list of
    events, sets the update time to the event's timestamp, and stores the
    result under the handle's [Id], replacing what was there or adding it.
    [Get] for that [Id] then returns the handle's session; other keys are
    answered as before. *)
Theorem X21_AppendEvent_stores_handle testSession ev m :
  exists testSession' s',
    AppendEvent (TestSessionPtr testSession) ev {| Sessions := Some m |}
      = Returned (None, TestSessionPtr testSession', s') /\
    testSession' = {| Id := Id testSession;
                      SessionState := SessionState testSession;
                      SessionEvents := (SessionEvents testSession ++ [ev])%list;
                      UpdatedAt := Timestamp ev |} /\
    Get (Id testSession) s' = inr testSession' /\
    forall k, k <> Id testSession ->
      Get k s' = Get k {| Sessions := Some m |}.
Proof.
  do 2 eexists. split; [done|]. split; [done|]. simpl. split.
  - rewrite Get_stored, stored_insert. by rewrite decide_True.
  - intros k Hk. rewrite !Get_stored, stored_insert. by rewrite decide_False.
Qed.

(** X22: the handles [Get] returns are copies.  When two events are
    appended through the same handle, one call after the other on the
    object it points to, the stored session gains both; when the second
    event is appended through another copy taken before the first call,
    the stored session ends up with the second event only. *)
Theorem X22_handles_are_copies k m sess e1 e2 :
  Get k {| Sessions := Some m |} = inr sess ->
  Id sess = k ->
  exists h1 s1,
    AppendEvent (TestSessionPtr sess) e1 {| Sessions := Some m |}
      = Returned (None, h1, s1) /\
    (exists h2 s2 sess2,
       AppendEvent h1 e2 s1 = Returned (None, h2, s2) /\
       Get k s2 = inr sess2 /\
       SessionEvents sess2 = (SessionEvents sess ++ [e1; e2])%list) /\
    (exists h2 s2 sess2,
       AppendEvent (TestSessionPtr sess) e2 s1 = Returned (None, h2, s2) /\
       Get k s2 = inr sess2 /\
       SessionEvents sess2 = (SessionEvents sess ++ [e2])%list).
Proof.
  intros _ <-. do 2 eexists. split; [done|]. split.
  - do 3 eexists. split; [done|]. simpl. split.
    + rewrite Get_stored, stored_insert. by rewrite decide_True.
    + simpl. by rewrite <- app_assoc.
  - do 3 eexists. split; [done|]. simpl. split.
    + rewrite Get_stored, stored_insert. by rewrite decide_True.
    + done.
Qed.

(** X23: [List] returns exactly the stored sessions whose own [Id]
    carries the requested application and user. *)
Theorem X23_List_membership appName userID s sess :
  sess ∈ List_ appName userID s <->
  (exists k, stored s k = Some sess) /\
  AppName (Id sess) = appName /\ UserID (Id sess) = userID.
Proof.
  unfold List_. rewrite list_elem_of_In, filter_In, <- list_elem_of_In.
  rewrite list_elem_of_fmap, negb_true_iff, orb_false_iff, !negb_false_iff.
  rewrite !String.eqb_eq.
  assert ((exists y : SessionKey * TestSession,
             sess = y.2 /\ y ∈ map_to_list (default ∅ (Sessions s)))
          <-> exists k, stored s k = Some sess) as ->; [|done].
  split.
  - intros ([k x] & -> & Hin%elem_of_map_to_list). exists k. unfold stored.
    destruct (Sessions s); [done|]. simpl in Hin. by rewrite lookup_empty in Hin.
  - intros (k & Hk). exists (k, sess). split; [done|].
    apply elem_of_map_to_list. unfold stored in Hk.
    by destruct (Sessions s).
Qed.

(** On a service whose map is nil, the calls that write ([Create],
    and [AppendEvent] through a [*TestSession]) panic, while the calls
    that only read find nothing: [Get] and [Delete] answer "not found"
    and [List] is empty. *)
Example nil_map_reads_and_writes now req testSession ev k appName userID :
  let s := {| Sessions := None |} in
  Create now req s = Panicked /\
  AppendEvent (TestSessionPtr testSession) ev s = Panicked /\
  AppendEvent OtherSession ev s
    = Returned (Some "invalid session type", OtherSession, s) /\
  Get k s = inl "not found" /\
  Delete k s = (Some "not found", s) /\
  List_ appName userID s = [].
Proof. done. Qed.

(** X24: if every session is stored under its own [Id], this is still so
    after [Create], [Delete] and [AppendEvent], however they end. *)
Theorem X24_keyed_invariant s :
  keyed s ->
  (forall now req res req' s',
     Create now req s = Returned (res, req', s') -> keyed s') /\
  (forall id err s', Delete id s = (err, s') -> keyed s') /\
  (forall curSession ev err curSession' s',
     AppendEvent curSession ev s = Returned (err, curSession', s') -> keyed s').
Proof.
  intros Hkeyed. split; [|split].
  - intros now req res req' s'. unfold Create.
    destruct (stored s _); [by intros [= _ _ <-]|].
    destruct (Sessions s) as [m|] eqn:Hm; [|done]. intros [= _ _ <-].
    intros k sess. rewrite stored_insert. case_decide as Hk.
    + by intros [= <-].
    + intros Hs. apply Hkeyed. unfold stored. by rewrite Hm.
  - intros id err s'. unfold Delete.
    destruct (stored s id); intros [= _ <-]; [|done].
    intros k sess Hs. apply Hkeyed. unfold stored in *.
    destruct (Sessions s) as [m|]; [|done]. simpl in Hs.
    by apply lookup_delete_Some in Hs as [_ ?].
  - intros curSession ev err curSession' s'. unfold AppendEvent.
    destruct curSession as [testSession|]; [|by intros [= _ _ <-]].
    destruct (Sessions s) as [m|] eqn:Hm; [|done]. intros [= _ _ <-].
    intros k sess. rewrite stored_insert. simpl. case_decide as Hk.
    + by intros [= <-].
    + intros Hs. apply Hkeyed. unfold stored. by rewrite Hm.
Qed.

End FakeSessions.

Module FakeSessionsExamples.

Import fakes Fixtures.

Lemma X17_Create_then_Get_witness :
  exists sess s',
    Create 7 (createRequest "s1") {| Sessions := Some oneSession |}
      = Returned (inr sess, createRequest "s1", s') /\
    sess = {| Id := key_of (createRequest "s1");
              SessionState := req_State (createRequest "s1");
              SessionEvents := []; UpdatedAt := 7 |} /\
    Get (key_of (createRequest "s1")) s' = inr sess /\
    forall k, k <> key_of (createRequest "s1") ->
      Get k s' = Get k {| Sessions := Some oneSession |}.
Proof.
  apply (FakeSessions.X17_Create_then_Get 7 (createRequest "s1") oneSession).
  - discriminate.
  - vm_compute. reflexivity.
Defined.

(** A request with an empty id replaces the stored session "testID",
    events and all. *)
Lemma X19_Create_empty_id_witness :
  let testKey := {| AppName := req_AppName (createRequest "");
                    UserID := req_UserID (createRequest "");
                    SessionID := "testID" |} in
  exists req' sess s',
    Create 7 (createRequest "") {| Sessions := Some oneSession |}
      = Returned (inr sess, req', s') /\
    key_of req' = testKey /\ req_State req' = req_State (createRequest "") /\
    sess = {| Id := testKey; SessionState := req_State (createRequest "");
              SessionEvents := []; UpdatedAt := 7 |} /\
    Get testKey s' = inr sess /\
    (forall k, k <> testKey ->
       Get k s' = Get k {| Sessions := Some oneSession |}) /\
    forall now', exists sess' s'',
      Create now' (createRequest "") s' = Returned (inr sess', req', s'') /\
      Get testKey s'' = inr sess' /\ SessionEvents sess' = [].
Proof.
  apply (FakeSessions.X19_Create_empty_id 7 (createRequest "") oneSession).
  - reflexivity.
  - vm_compute. reflexivity.
Defined.

Lemma X22_handles_are_copies_witness :
  exists h1 s1,
    AppendEvent (TestSessionPtr testSession) (timed partialEvent 8)
      {| Sessions := Some oneSession |} = Returned (None, h1, s1) /\
    (exists h2 s2 sess2,
       AppendEvent h1 (timed finalEvent 9) s1 = Returned (None, h2, s2) /\
       Get (Id testSession) s2 = inr sess2 /\
       SessionEvents sess2 =
         (SessionEvents testSession
          ++ [timed partialEvent 8; timed finalEvent 9])%list) /\
    (exists h2 s2 sess2,
       AppendEvent (TestSessionPtr testSession) (timed finalEvent 9) s1
         = Returned (None, h2, s2) /\
       Get (Id testSession) s2 = inr sess2 /\
       SessionEvents sess2 =
         (SessionEvents testSession ++ [timed finalEvent 9])%list).
Proof.
  apply (FakeSessions.X22_handles_are_copies (Id testSession) oneSession
           testSession (timed partialEvent 8) (timed finalEvent 9)).
  - vm_compute. reflexivity.
  - reflexivity.
Defined.

Lemma X24_keyed_invariant_witness :
  (forall now req res req' s',
     Create now req {| Sessions := Some oneSession |}
       = Returned (res, req', s') -> keyed s') /\
  (forall id err s',
     Delete id {| Sessions := Some oneSession |} = (err, s') -> keyed s') /\
  (forall curSession ev err curSession' s',
     AppendEvent curSession ev {| Sessions := Some oneSession |}
       = Returned (err, curSession', s') -> keyed s').
Proof.
  apply (FakeSessions.X24_keyed_invariant {| Sessions := Some oneSession |}).
  intros k sess. unfold stored, oneSession. simpl.
  intros [<- <-]%lookup_singleton_Some. reflexivity.
Defined.

End FakeSessionsExamples.

(** ** The REST handler *)

Module Handlers.

Import agent handlers.

Lemma collect_inr pairs events out :
  collect pairs events = inr out ->
  out = (events ++ (fst <$> pairs))%list /\
  forall ev err, (ev, Some err) ∉ pairs.
Proof.
  revert events. induction pairs as [|[ev [err|]] rest IH]; intros events; simpl.
  - intros [= <-]. split; [by rewrite app_nil_r|]. intros ? ?. apply not_elem_of_nil.
  - done.
  - intros [-> Hrest]%IH. split; [by rewrite <- app_assoc|].
    intros ev' err' [[=]|Hin]%elem_of_cons. by apply (Hrest ev' err').
Qed.

Lemma collect_inl pairs events err :
  collect pairs events = inl err ->
  exists pre ev post,
    pairs = (pre ++ (ev, Some err) :: post)%list /\
    forall ev' err', (ev', Some err') ∉ pre.
Proof.
  revert events. induction pairs as [|[ev [err0|]] rest IH]; intros events; simpl.
  - done.
  - intros [= ->]. exists [], ev, rest. split; [done|].
    intros ? ?. apply not_elem_of_nil.
  - intros (pre & ev' & post & -> & Hpre)%IH.
    exists ((ev, None) :: pre), ev', post. split; [done|].
    intros ev'' err'' [[=]|Hin]%elem_of_cons. by apply (Hpre ev'' err'').
Qed.

(** A pair among those relayed sits at a [Yield] of the trace. *)
Lemma relayed_split tr pre ev err post :
  runner.relayed tr = (pre ++ (ev, err) :: post)%list ->
  exists tpre tpost,
    tr = (tpre ++ runner.Yield ev err :: tpost)%list /\
    runner.relayed tpre = pre /\ runner.relayed tpost = post.
Proof.
  revert pre. induction tr as [|ef tr IH]; intros pre Heq.
  { by destruct pre. }
  destruct ef as [| | | |ev0 err0];
    try (change (runner.relayed (?x :: tr)) with (runner.relayed tr) in Heq;
         apply IH in Heq as (tpre & tpost & -> & <- & <-);
         by eexists (_ :: tpre), tpost).
  change (runner.relayed (runner.Yield ev0 err0 :: tr))
    with ((ev0, err0) :: runner.relayed tr) in Heq.
  destruct pre as [|p pre]; simpl in Heq.
  - injection Heq as -> -> <-. by exists [], tr.
  - injection Heq as <- Heq. apply IH in Heq as (tpre & tpost & -> & <- & <-).
    by exists (runner.Yield ev0 err0 :: tpre), tpost.
Qed.

Lemma elem_of_relayed tr ev err :
  (ev, err) ∈ runner.relayed tr <-> runner.Yield ev err ∈ tr.
Proof.
  unfold runner.relayed. rewrite list_elem_of_omap. split.
  - by intros ([] & Hin & [= <- <-]).
  - intros Hin. by exists (runner.Yield ev err).
Qed.

Section Controller.

Variable env : runner.Env.
Variable LoadAgent : string -> error + Agent.
Variable artifactService : bool.

(** X25: [runAgent] answers with the turn's events or with an error,
    never with both.  It answers 404 exactly when its own session lookup
    fails, and then nothing else happens.  When it returns events, the
    turn relayed no error and the events are all the turn relayed, in
    order.  When the turn relays an error, that pair is the last effect
    of the turn (the handler stops pulling), the events relayed before
    it are left out of the answer, and the status is 500. *)
Theorem X25_runAgent_events_or_error fuel req st :
  (forall a, LoadAgent (AppName req) = inr a -> size a <= fuel) ->
  let get := runner.sessionService_Get env (runner.trace st)
               (AppName req) (UserId req) (SessionId req) in
  exists res st' turn,
    runAgent env LoadAgent artifactService fuel req st = Some (res, st') /\
    runner.effects_since st st' =
      runner.Get (AppName req) (UserId req) (SessionId req) get :: turn /\
    match res with
    | inr events =>
        (exists s, get = inr s) /\
        events = fst <$> runner.relayed turn /\
        forall ev err, runner.Yield ev (Some err) ∉ turn
    | inl se =>
        match get with
        | inl err =>
            se = {| Err := Errorf "get session: " err; Status := 404 |} /\
            turn = [] /\ st' = runner.emit
                              (runner.Get (AppName req) (UserId req)
                                 (SessionId req) get) st
        | inr _ =>
            Status se = 500 /\
            (turn = [] \/
             exists pre ev err,
               turn = (pre ++ [runner.Yield ev (Some err)])%list /\
               (forall ev' err', runner.Yield ev' (Some err') ∉ pre) /\
               Err se = Errorf "run agent: " err)
        end
    end.
Proof.
  intros Hfuel get. unfold runAgent, validateSessionExists, runner.call_Get.
  fold get. destruct get as [gerr|s] eqn:Hget.
  { do 3 eexists. split; [done|]. split.
    - unfold runner.effects_since. simpl. by rewrite drop_app_length.
    - done. }
  unfold getRunner. destruct (LoadAgent (AppName req)) as [lerr|curAgent] eqn:Hload.
  { do 3 eexists. split; [done|]. split.
    - unfold runner.effects_since. simpl. by rewrite drop_app_length.
    - split; [done|]. by left. }
  destruct (runner.New _) as [nerr|r] eqn:Hnew.
  { do 3 eexists. split; [done|]. split.
    - unfold runner.effects_since. simpl. by rewrite drop_app_length.
    - split; [done|]. by left. }
  assert (runner.wired r /\ runner.rootAgent r = curAgent) as [Hw Hroot].
  { unfold runner.New in Hnew. simpl in Hnew.
    destruct (parentmap.New curAgent) as [parents|] eqn:Hp; [|done].
    injection Hnew as <-. split; [by right | done]. }
  specialize (Hfuel curAgent eq_refl). rewrite <- Hroot in Hfuel.
  set (st1 := {| runner.heap := _; runner.trace := _ |}).
  destruct (Turn.Run_shape (as_caller env) fuel r (UserId req) (SessionId req)
              (Some (fresh (dom (runner.heap
                 (runner.emit (runner.Get (AppName req) (UserId req)
                                 (SessionId req) (inr s)) st)))))
              {| SupportCFC := false; SaveInputBlobsAsArtifacts := false |}
              st1 Hw Hfuel) as (st' & HRun & _).
  rewrite HRun.
  assert (exists turn, runner.trace st' = (runner.trace st1 ++ turn)%list)
    as [turn Htrace].
  { exists (runner.effects_since st1 st').
    by apply (TurnMore.Run_extends (as_caller env) fuel r _ _ _ _ st1 st'
                Hw Hfuel HRun). }
  assert (runner.effects_since st1 st' = turn) as Hturn.
  { unfold runner.effects_since. by rewrite Htrace, drop_app_length. }
  assert (runner.effects_since st st' =
          runner.Get (AppName req) (UserId req) (SessionId req) (inr s) :: turn)
    as Hnew'.
  { unfold runner.effects_since. rewrite Htrace. simpl.
    by rewrite <- app_assoc, drop_app_length. }
  assert (forall pre ev err post,
    turn = (pre ++ runner.Yield ev (Some err) :: post)%list -> post = [])
    as Hstop.
  { intros pre ev err post Hsplit.
    apply (TurnMore.Run_stop_ends (as_caller env) fuel r _ _ _ _ st1 st'
             pre ev (Some err) post Hw Hfuel HRun).
    - by rewrite Hturn.
    - simpl. by rewrite !app_assoc, last_snoc. }
  rewrite Hturn.
  destruct (collect (runner.relayed turn) []) as [err|events] eqn:Hcollect.
  - exists (inl {| Err := Errorf "run agent: " err; Status := 500 |}), st', turn.
    split; [done|]. split; [done|]. split; [done|]. right.
    apply collect_inl in Hcollect as (pre & ev & post & Hrel & Hpre).
    apply relayed_split in Hrel as (tpre & tpost & -> & <- & <-).
    rewrite (Hstop tpre ev err tpost eq_refl).
    exists tpre, ev, err. split; [done|]. split; [|done].
    intros ev' err' Hin. apply (Hpre ev' err'). by apply elem_of_relayed.
  - exists (inr events), st', turn. split; [done|]. split; [done|].
    apply collect_inr in Hcollect as [-> Hclean].
    split; [by exists s|]. split; [done|].
    intros ev err Hin. apply (Hclean ev err). by apply elem_of_relayed.
Qed.

End Controller.

End Handlers.

(** ** The test helpers *)

Module TestUtil.

Import testutil.

Section Collect.

Variable Sprint : option session.Event -> string.
Variable heap : gmap loc genai.Content.

Lemma nonEmptyTexts_app parts1 parts2 :
  nonEmptyTexts (parts1 ++ parts2) = (nonEmptyTexts parts1 ++ nonEmptyTexts parts2)%list.
Proof. unfold nonEmptyTexts. by rewrite fmap_app, List.filter_app. Qed.

Lemma CollectParts_events stream events :
  CollectParts Sprint heap stream (flat_map (parts_of heap) events) =
    (flat_map (parts_of heap) (CollectEvents Sprint stream events).1,
     (CollectEvents Sprint stream events).2).
Proof.
  revert events. induction stream as [|[ev [err|]] rest IH]; intros events;
    simpl; [done..|].
  destruct ev as [e|]; [|done]. destruct (empty (Some e)); [done|].
  rewrite <- IH. f_equal. rewrite flat_map_app. simpl. by rewrite app_nil_r.
Qed.

Lemma CollectTextParts_events stream events :
  CollectTextParts Sprint heap stream
    (nonEmptyTexts (flat_map (parts_of heap) events)) =
    (nonEmptyTexts (flat_map (parts_of heap)
                      (CollectEvents Sprint stream events).1),
     (CollectEvents Sprint stream events).2).
Proof.
  revert events. induction stream as [|[ev [err|]] rest IH]; intros events;
    simpl; [done..|].
  destruct ev as [e|]; [|done]. destruct (empty (Some e)); [done|].
  rewrite <- IH. f_equal. rewrite flat_map_app, nonEmptyTexts_app. simpl.
  by rewrite app_nil_r.
Qed.

(** X26: the three collectors stop at the same place with the same
    error, and what they gather fits together: [CollectParts] returns the
    parts of the events [CollectEvents] returns, in order, and
    [CollectTextParts] the non-empty texts of those parts. *)
Theorem X26_collectors_agree stream :
  let '(events, err) := CollectEvents Sprint stream [] in
  CollectParts Sprint heap stream [] =
    (flat_map (parts_of heap) events, err) /\
  CollectTextParts Sprint heap stream [] =
    (List.filter (fun text => negb (String.eqb text ""))
       (genai.Text <$> flat_map (parts_of heap) events), err).
Proof.
  pose proof (CollectParts_events stream []) as Hparts.
  pose proof (CollectTextParts_events stream []) as Htexts.
  destruct (CollectEvents Sprint stream []) as [events err]. by split.
Qed.

Lemma CollectEvents_prefix stream events0 :
  exists clean rest,
    stream = (clean ++ rest)%list /\
    Forall (fun p => p.2 = None /\ empty p.1 = false) clean /\
    (CollectEvents Sprint stream events0).1 = (events0 ++ omap fst clean)%list /\
    (CollectEvents Sprint stream events0).2 =
      match rest with
      | [] => None
      | (_, Some err) :: _ => Some err
      | (ev, None) :: _ => Some ("unexpected empty event: " ++ Sprint ev)
      end /\
    match rest with
    | (ev, None) :: _ => empty ev = true
    | _ => True
    end.
Proof.
  revert events0. induction stream as [|[ev [err|]] rest IH]; intros events0.
  - exists [], []. simpl. by rewrite app_nil_r.
  - exists [], ((ev, Some err) :: rest). simpl. by rewrite app_nil_r.
  - simpl. destruct ev as [e|].
    + destruct (empty (Some e)) eqn:Hempty.
      * exists [], ((Some e, None) :: rest). simpl. by rewrite app_nil_r.
      * destruct (IH (events0 ++ [e])%list)
          as (clean & rest' & -> & Hclean & Hev & Herr & Hrest).
        exists ((Some e, None) :: clean), rest'. split; [done|].
        split; [by constructor|]. split; [|done].
        rewrite Hev. change (omap fst ((Some e, None) :: clean))
          with (e :: omap fst clean). by rewrite <- app_assoc.
    + exists [], ((None, None) :: rest). simpl. by rewrite app_nil_r.
Qed.

(** X27: [CollectEvents] returns the events of the longest prefix of the
    stream whose pairs carry no error and an event with content.  The
    error is nil exactly when that prefix is the whole stream; otherwise
    it is the error of the first pair left out or, if that pair has none,
    the complaint about an empty event. *)
Theorem X27_CollectEvents_longest_clean_prefix stream :
  exists clean rest,
    stream = (clean ++ rest)%list /\
    Forall (fun p => p.2 = None /\ empty p.1 = false) clean /\
    (CollectEvents Sprint stream []).1 = omap fst clean /\
    (CollectEvents Sprint stream []).2 =
      match rest with
      | [] => None
      | (_, Some err) :: _ => Some err
      | (ev, None) :: _ => Some ("unexpected empty event: " ++ Sprint ev)
      end /\
    match rest with
    | (ev, None) :: _ => empty ev = true
    | _ => True
    end.
Proof. apply (CollectEvents_prefix stream []). Qed.

End Collect.

Section Mock.

Context {LLMRequest : Type}.

Lemma after_state (m : MockModel LLMRequest) reqs :
  Requests (after m reqs) = (Requests m ++ reqs)%list /\
  Responses (after m reqs) = drop (length reqs) (Responses m) /\
  StreamResponsesCount (after m reqs) = StreamResponsesCount m.
Proof.
  unfold after. revert m. induction reqs as [|req reqs IH]; intros m; simpl.
  { by rewrite app_nil_r. }
  destruct (IH (Generate req m).2) as (-> & -> & ->).
  unfold Generate. destruct m as [rq rs n]. simpl.
  destruct rs as [|content rs]; simpl.
  - rewrite <- app_assoc. by rewrite drop_nil.
  - by rewrite <- app_assoc.
Qed.

(** X28: the mock model replays its responses in order.  The call number
    [k] (from 0) answers with the [k]-th response it was loaded with, and
    with the error "no data" once they are used up; every request is
    recorded, in call order, whether or not the call was answered. *)
Theorem X28_Generate_replays (m : MockModel LLMRequest) reqs :
  (forall k req, reqs !! k = Some req ->
     (Generate req (after m (take k reqs))).1 =
       match Responses m !! k with
       | Some content =>
           inr {| model.Content := content; model.Partial := false |}
       | None => inl errNoModelData
       end) /\
  Requests (after m reqs) = (Requests m ++ reqs)%list /\
  Responses (after m reqs) = drop (length reqs) (Responses m).
Proof.
  split; [|by destruct (after_state m reqs) as (? & ? & _)].
  intros k req Hk.
  destruct (after_state m (take k reqs)) as (_ & Hrs & _).
  rewrite length_take_le in Hrs by (apply lookup_lt_Some in Hk; lia).
  unfold Generate. simpl. rewrite Hrs.
  pose proof (lookup_drop (Responses m) k 0) as Hlook.
  rewrite Nat.add_0_r in Hlook. rewrite <- Hlook.
  by destruct (drop k (Responses m)).
Qed.

End Mock.

End TestUtil.

Module HandlersExamples.

Import agent handlers Fixtures.

Lemma X25_runAgent_events_or_error_witness :
  let env := quietEnv [runner.ItemEvent partialEvent;
                       runner.ItemEvent finalEvent] in
  let get := runner.sessionService_Get env (runner.trace emptyState)
               (AppName runRequest) (UserId runRequest)
               (SessionId runRequest) in
  exists res st' turn,
    runAgent env (fun _ => inr root) false 3 runRequest emptyState
      = Some (res, st') /\
    runner.effects_since emptyState st' =
      runner.Get (AppName runRequest) (UserId runRequest)
        (SessionId runRequest) get :: turn /\
    match res with
    | inr events =>
        (exists s, get = inr s) /\
        events = fst <$> runner.relayed turn /\
        forall ev err, runner.Yield ev (Some err) ∉ turn
    | inl se =>
        match get with
        | inl err =>
            se = {| Err := Errorf "get session: " err; Status := 404 |} /\
            turn = [] /\
            st' = runner.emit
                    (runner.Get (AppName runRequest) (UserId runRequest)
                       (SessionId runRequest) get) emptyState
        | inr _ =>
            Status se = 500 /\
            (turn = [] \/
             exists pre ev err,
               turn = (pre ++ [runner.Yield ev (Some err)])%list /\
               (forall ev' err', runner.Yield ev' (Some err') ∉ pre) /\
               Err se = Errorf "run agent: " err)
        end
    end.
Proof.
  apply (Handlers.X25_runAgent_events_or_error
           (quietEnv [runner.ItemEvent partialEvent;
                      runner.ItemEvent finalEvent])
           (fun _ => inr root) false 3 runRequest emptyState).
  intros a [= <-]. vm_compute. lia.
Defined.

(** The turn of that request: both events are returned, the streaming
    fragment too, though only the final one is appended. *)
Example runAgent_example :
  fst <$> runAgent (quietEnv [runner.ItemEvent partialEvent;
                              runner.ItemEvent finalEvent])
            (fun _ => inr root) false 3 runRequest emptyState
  = Some (inr [Some partialEvent; Some finalEvent]).
Proof. vm_compute. reflexivity. Qed.

End HandlersExamples.
